(** * ESP integration API: a shallow embedding and its verified properties

    The development follows the TypeScript sources:
    - [types/index.ts], [models/Integration.ts]: the data model;
    - [middleware/errorHandler.ts]: [AppError] and the error envelope;
    - [services/esp-service.factory.ts]: the provider client factory;
    - [services/mailchimp.service.ts]: the two adapters, [MailchimpService]
      and [GetResponseService];
    - [controllers/integration.controller.ts]: the five request handlers.

    JavaScript values that cross the adapter boundary are modelled by the
    type [JsVal]; exceptions by [Completion]; the document store, the trace
    of outbound HTTP requests and the clock by the record [World], threaded
    through a state-and-exception monad in which the state survives a throw
    (a request that failed has still been sent). *)

From Stdlib Require Import List String Ascii ZArith Bool Arith Lia DecimalString.
Import ListNotations.
Local Open Scope string_scope.

Set Implicit Arguments.
Set Warnings "-register-all".

(* ===================================================================== *)
(** ** JavaScript values *)
(* ===================================================================== *)

(** The values an upstream JSON payload can hold, plus [undefined].
    A number is given by the text JavaScript prints it as (what
    [Number::toString] yields: [42], [-3], [1.5], [1e+21], [NaN]), which
    determines it up to the sign of zero. [JObj] lists the own enumerable
    properties of an object in the order [Object.values] enumerates
    them. *)
Inductive JsVal : Type :=
| JUndefined
| JNull
| JBool (b : bool)
| JNum (text : string)
| JStr (s : string)
| JArr (items : list JsVal)
| JObj (props : list (string * JsVal)).

(** [middleware/errorHandler.ts]: the custom error class. *)
Record AppError : Type := {
  message : string;
  statusCode : Z;
  code : string
}.

(** What a [throw] or a rejected promise carries: an [AppError], or some
    other error of which the handler of last resort reads the [name] and,
    for a database error, the numeric [code]. *)
Inductive Exn : Type :=
| AppErr (e : AppError)
| OtherErr (name : string) (errno : option Z).

Definition TypeError : Exn := OtherErr "TypeError" None.

(** Normal or abrupt completion of a piece of code. *)
Inductive Completion (A : Type) : Type :=
| Return (a : A)
| Throw (e : Exn).
Arguments Return {A} a.
Arguments Throw {A} e.

Definition cbind {A B} (c : Completion A) (k : A -> Completion B) : Completion B :=
  match c with
  | Return a => k a
  | Throw e => Throw e
  end.

Notation "'let*' x ':=' c 'in' k" := (cbind c (fun x => k))
  (at level 10, x name, c at level 100, k at level 200).

(** [xs.map(f)] for a callback that may throw: the first throw ends it. *)
Fixpoint cmap {A B} (f : A -> Completion B) (xs : list A) : Completion (list B) :=
  match xs with
  | [] => Return []
  | x :: rest =>
      let* y := f x in
      let* ys := cmap f rest in
      Return (y :: ys)
  end.

Module Js.

(** ToBoolean. *)
Definition truthy (v : JsVal) : bool :=
  match v with
  | JUndefined | JNull => false
  | JBool b => b
  | JNum text => negb ((text =? "0") || (text =? "NaN"))
  | JStr s => negb (s =? "")
  | JArr _ | JObj _ => true
  end.

(** [a || b]. *)
Definition or (a b : JsVal) : JsVal := if truthy a then a else b.

(** ToBoolean of a string and of a possibly absent string. *)
Definition truthy_str (s : string) : bool := negb (s =? "").

Definition truthy_opt (o : option string) : bool :=
  match o with Some s => truthy_str s | None => false end.

(** [o || undefined] and [o || d] on a string that may be [null] or
    [undefined] (both [None]). *)
Definition or_undefined (o : option string) : option string :=
  if truthy_opt o then o else None.

(** [o === s] for a possibly absent string [o]. *)
Definition is_string (o : option string) (s : string) : bool :=
  match o with Some c => c =? s | None => false end.

Definition or_str (o : option string) (d : string) : string :=
  match o with Some s => if truthy_str s then s else d | None => d end.

Fixpoint lookup (k : string) (props : list (string * JsVal)) : JsVal :=
  match props with
  | [] => JUndefined
  | (k', v) :: rest => if k' =? k then v else lookup k rest
  end.

(** [v.k] for the property names the adapters read, none of which is
    defined on the String, Number, Boolean or Array prototypes: reading
    a property of [null] or [undefined] throws a TypeError, reading one
    of a primitive or an array yields [undefined]. *)
Definition get (v : JsVal) (k : string) : Completion JsVal :=
  match v with
  | JUndefined | JNull => Throw TypeError
  | JObj props => Return (lookup k props)
  | _ => Return JUndefined
  end.

(** [v?.k]. *)
Definition get_opt (v : JsVal) (k : string) : JsVal :=
  match v with
  | JObj props => lookup k props
  | _ => JUndefined
  end.

Definition isArray (v : JsVal) : bool :=
  match v with JArr _ => true | _ => false end.

Definition chars (s : string) : list JsVal :=
  map (fun c => JStr (String c EmptyString)) (list_ascii_of_string s).

(** [Object.values(v)]: throws on [null] and [undefined]; a string
    yields its characters, a number or boolean nothing. *)
Definition values (v : JsVal) : Completion (list JsVal) :=
  match v with
  | JUndefined | JNull => Throw TypeError
  | JBool _ | JNum _ => Return []
  | JStr s => Return (chars s)
  | JArr items => Return items
  | JObj props => Return (map snd props)
  end.

(** [v.map(f)]: only an array has a [map] method; calling it on anything
    else is a TypeError. *)
Definition mapArray {A} (v : JsVal) (f : JsVal -> Completion A) : Completion (list A) :=
  match v with
  | JArr items => cmap f items
  | _ => Throw TypeError
  end.

(** The number [n]. *)
Definition number (n : nat) : JsVal := JNum (NilZero.string_of_uint (Nat.to_uint n)).

Definition hasOwn (k : string) (props : list (string * JsVal)) : bool :=
  existsb (fun kv => fst kv =? k) props.

Fixpoint join (sep : string) (parts : list string) : string :=
  match parts with
  | [] => ""
  | [p] => p
  | p :: rest => p ++ sep ++ join sep rest
  end.

(** ToString, which the [Error] constructor applies to its message.
    An object is converted by its [toString] method, then by [valueOf].
    An object of a payload inherits both from [Object.prototype] and
    prints as [[object Object]], unless it has an own property
    [toString]: parsed from JSON that is no function, [valueOf], own or
    inherited, yields no primitive either, and the conversion throws a
    TypeError. An array prints its elements joined by commas, [null] and
    [undefined] as the empty string, and throws when an element does. *)
Fixpoint toString (v : JsVal) : Completion string :=
  match v with
  | JUndefined => Return "undefined"
  | JNull => Return "null"
  | JBool true => Return "true"
  | JBool false => Return "false"
  | JNum text => Return text
  | JStr s => Return s
  | JArr items =>
      let* parts := cmap (fun x => match x with
                                    | JUndefined | JNull => Return ""
                                    | _ => toString x
                                    end) items in
      Return (join "," parts)
  | JObj props =>
      if hasOwn "toString" props then Throw TypeError
      else Return "[object Object]"
  end.

(** [s.split(sep)] for a one-character separator. *)
Fixpoint split (sep : ascii) (s : string) : list string :=
  match s with
  | EmptyString => [""]
  | String c rest =>
      if Ascii.eqb c sep then "" :: split sep rest
      else match split sep rest with
           | [] => [String c ""]
           | p :: ps => String c p :: ps
           end
  end.

(** [new Set(xs)] spread back into an array: first occurrences, in
    insertion order. *)
Fixpoint set_of (seen xs : list string) : list string :=
  match xs with
  | [] => []
  | x :: rest =>
      if existsb (String.eqb x) seen then set_of seen rest
      else x :: set_of (x :: seen) rest
  end.

End Js.


(* ===================================================================== *)
(** ** Data model ([types/index.ts], [models/Integration.ts]) *)
(* ===================================================================== *)

(** A stored credential record. An ObjectId is modelled by a natural
    number, a [Date] by a reading of the clock. The documents of the
    collection are documents of the schema: every path has a value of its
    type. *)
Record ESPIntegration : Type := {
  _id : nat;
  provider : string;
  apiKey : string;
  dataCenter : option string;
  isActive : bool;
  lastVerified : option nat;
  createdAt : nat;
  updatedAt : nat
}.

(** A document as a query returns it. The schema declares [apiKey] with
    [select: false]: the path is loaded only by [.select('+apiKey')]. *)
Record Document : Type := {
  fields : ESPIntegration;
  apiKey_selected : bool
}.

(** The [:id] segment of a request path: the text of an ObjectId, or
    text that is none and does not cast. *)
Inductive IdParam : Type :=
| ObjectId (id : nat)
| Malformed (text : string).

Coercion ObjectId : nat >-> IdParam.

Record ESPCredentials : Type := {
  cred_provider : string;
  cred_apiKey : string;
  cred_dataCenter : option string
}.

Record ESPValidationResult : Type := {
  isValid : bool;
  vr_provider : string;
  vr_error : option string;
  accountInfo : option JsVal
}.

(** [MailchimpList] and [GetResponseList]: the members hold whatever the
    upstream payload held. *)
Inductive MailingList : Type :=
| MailchimpList (id name memberCount subscribeUrlLong dateCreated : JsVal)
| GetResponseList (campaignId name description createdOn : JsVal).

(* ===================================================================== *)
(** ** Outbound HTTP and the world *)
(* ===================================================================== *)

(** The paths the adapters request, all with GET. [GetListsPage t] is
    [/lists?count=${Math.min(t, 1000)}&fields=...]. *)
Inductive Endpoint : Type :=
| GetRoot
| GetListsTotal
| GetListsPage (totalItems : JsVal)
| GetList (listId : string)
| GetAccounts
| GetCampaigns
| GetCampaign (campaignId : string).

Record Request : Type := {
  baseURL : string;
  authHeader : string * string;
  endpoint : Endpoint
}.

(** An axios error: the upstream response when there was one (status and
    body), and the error code of the transport ([ECONNABORTED] on a
    timeout). *)
Record AxiosError : Type := {
  response : option (Z * JsVal);
  errcode : option string
}.

(** How the upstream answers a request: axios resolves with the body of a
    2xx response and rejects otherwise. *)
Inductive Outcome : Type :=
| Fulfilled (status : Z) (data : JsVal)
| Rejected (error : AxiosError).

(** Everything outside the program: the providers (which may answer
    according to all the requests sent so far), whether the n-th write to
    the database goes through, [NODE_ENV === 'production'], the message
    the runtime or the database driver gives an error of theirs (by its
    name and code), and the stack trace of an error. The queries of the
    database are answered: a query that fails is outside the model. *)
Record Env : Type := {
  upstream : list Request -> Request -> Outcome;
  db_write_ok : nat -> bool;
  production : bool;
  runtime_message : string -> option Z -> string;
  stack_of : Exn -> string
}.

Record World : Type := {
  store : list ESPIntegration;   (* the collection, in insertion order *)
  sent : list Request;           (* outbound requests, oldest first *)
  writes : nat;                  (* database writes attempted so far *)
  clock : nat;                   (* what [new Date()] reads *)
  next_id : nat                  (* the next fresh ObjectId *)
}.

Definition set_store (w : World) (s : list ESPIntegration) : World :=
  {| store := s; sent := sent w; writes := writes w; clock := clock w; next_id := next_id w |}.

Definition push_sent (w : World) (r : Request) : World :=
  {| store := store w; sent := (sent w ++ [r])%list; writes := writes w; clock := clock w; next_id := next_id w |}.

Definition count_write (w : World) : World :=
  {| store := store w; sent := sent w; writes := S (writes w); clock := clock w; next_id := next_id w |}.

Definition take_id (w : World) : World :=
  {| store := store w; sent := sent w; writes := writes w; clock := clock w; next_id := S (next_id w) |}.

(** The monad of the asynchronous code: state plus exceptions, the state
    surviving a throw. *)
Definition M (A : Type) : Type := World -> Completion A * World.

Definition ret {A} (a : A) : M A := fun w => (Return a, w).

Definition throw {A} (e : Exn) : M A := fun w => (Throw e, w).

Definition bind {A B} (m : M A) (k : A -> M B) : M B :=
  fun w => match m w with
           | (Return a, w') => k a w'
           | (Throw e, w') => (Throw e, w')
           end.

Definition try_catch {A} (m : M A) (h : Exn -> M A) : M A :=
  fun w => match m w with
           | (Return a, w') => (Return a, w')
           | (Throw e, w') => h e w'
           end.

Definition lift {A} (c : Completion A) : M A := fun w => (c, w).

Definition now : M nat := fun w => (Return (clock w), w).

Declare Scope m_scope.
Delimit Scope m_scope with M.
Notation "x <- m ;; k" := (bind m (fun x => k))
  (at level 61, m at next level, right associativity) : m_scope.
Notation "m ;;; k" := (bind m (fun _ => k))
  (at level 61, right associativity) : m_scope.
Local Open Scope m_scope.

(** [new AppError(message, statusCode, code)]: [super(message)] converts
    the message to a string. *)
Definition new_AppError (msg : JsVal) (status : Z) (c : string) : Completion AppError :=
  let* text := Js.toString msg in
  Return {| message := text; statusCode := status; code := c |}.

(** What [Promise.reject(this.handleApiError(error))] rejects with: the
    translated error, or what the translation itself threw. *)
Definition rejection (translated : Completion AppError) : Exn :=
  match translated with
  | Return appError => AppErr appError
  | Throw e => e
  end.

(** [apiClient.get(path)] with the response interceptor installed by the
    constructors: the request goes out, a fulfilled response yields its
    body, a rejection goes through [handleApiError]. *)
Definition http_get (env : Env) (handleApiError : AxiosError -> Completion AppError)
    (req : Request) : M JsVal :=
  fun w =>
    match upstream env (sent w) req with
    | Fulfilled _ data => (Return data, push_sent w req)
    | Rejected error => (Throw (rejection (handleApiError error)), push_sent w req)
    end.

(* ===================================================================== *)
(** ** The Mailchimp adapter ([MailchimpService]) *)
(* ===================================================================== *)

Module MailchimpService.

(** What the constructor binds into [apiClient]. *)
Record t : Type := { key : string; dc : string }.

Definition extractDataCenter (apiKey : string) : Completion string :=
  match Js.split "-" apiKey with
  | [_; part1] => Return part1
  | _ => Throw (AppErr {| message := "Invalid Mailchimp API key format. Expected format: xxxxxxxx-usXX";
                          statusCode := 400;
                          code := "INVALID_API_KEY_FORMAT" |})
  end.

(** [new MailchimpService(apiKey, dataCenter)]:
    [this.dataCenter = dataCenter || this.extractDataCenter(apiKey)]. *)
Definition new (apiKey : string) (dataCenter : option string) : Completion t :=
  let* d := (if Js.truthy_opt dataCenter
             then Return (Js.or_str dataCenter "")
             else extractDataCenter apiKey) in
  Return {| key := apiKey; dc := d |}.

Definition request (svc : t) (ep : Endpoint) : Request :=
  {| baseURL := "https://" ++ dc svc ++ ".api.mailchimp.com/3.0";
     authHeader := ("Authorization", "Bearer " ++ key svc);
     endpoint := ep |}.

Definition handleApiError (error : AxiosError) : Completion AppError :=
  match response error with
  | Some (status, data) =>
      if (status =? 401)%Z then
        new_AppError (JStr "Invalid Mailchimp API key or insufficient permissions")
          401 "MAILCHIMP_UNAUTHORIZED"
      else if (status =? 404)%Z then
        new_AppError (JStr "Mailchimp resource not found") 404 "MAILCHIMP_NOT_FOUND"
      else if (status =? 429)%Z then
        new_AppError (JStr "Mailchimp API rate limit exceeded") 429 "MAILCHIMP_RATE_LIMIT"
      else
        new_AppError (Js.or (Js.get_opt data "detail") (JStr "Mailchimp API error"))
          status "MAILCHIMP_API_ERROR"
  | None =>
      if Js.is_string (errcode error) "ECONNABORTED" then
        new_AppError (JStr "Mailchimp API request timeout") 408 "MAILCHIMP_TIMEOUT"
      else
        new_AppError (JStr "Mailchimp service unavailable") 503 "MAILCHIMP_SERVICE_ERROR"
  end.

(** [this.apiClient.get(path)], yielding [response.data]. *)
Definition get (env : Env) (svc : t) (ep : Endpoint) : M JsVal :=
  http_get env handleApiError (request svc ep).

Definition validateConnection (env : Env) (svc : t) : M ESPValidationResult :=
  try_catch
    (data <- get env svc GetRoot ;;
     account_name <- lift (Js.get data "account_name") ;;
     email <- lift (Js.get data "email") ;;
     role <- lift (Js.get data "role") ;;
     account_id <- lift (Js.get data "account_id") ;;
     ret {| isValid := true;
            vr_provider := "mailchimp";
            vr_error := None;
            accountInfo := Some (JObj [("accountName", account_name);
                                       ("email", email);
                                       ("role", role);
                                       ("accountId", account_id)]) |})
    (fun error =>
       ret {| isValid := false;
              vr_provider := "mailchimp";
              vr_error := Some (match error with
                                | AppErr e => message e
                                | OtherErr _ _ => "Connection validation failed"
                                end);
              accountInfo := None |}).

(** The object literal built from one upstream list record. *)
Definition toList (list : JsVal) : Completion MailingList :=
  let* id := Js.get list "id" in
  let* name := Js.get list "name" in
  let* stats := Js.get list "stats" in
  let* subscribe_url_long := Js.get list "subscribe_url_long" in
  let* date_created := Js.get list "date_created" in
  Return (MailchimpList id name
            (Js.or (Js.get_opt stats "member_count") (Js.number 0))
            subscribe_url_long date_created).

Definition getLists (env : Env) (svc : t) : M (list MailingList) :=
  try_catch
    (countData <- get env svc GetListsTotal ;;
     totalItems <- lift (Js.get countData "total_items") ;;
     data <- get env svc (GetListsPage totalItems) ;;
     lists <- lift (Js.get data "lists") ;;
     lift (Js.mapArray lists toList))
    (fun error => throw error).

Definition getListById (env : Env) (svc : t) (listId : string) : M MailingList :=
  try_catch
    (data <- get env svc (GetList listId) ;;
     lift (toList data))
    (fun error => throw error).

End MailchimpService.

(* ===================================================================== *)
(** ** The GetResponse adapter ([GetResponseService]) *)
(* ===================================================================== *)

Module GetResponseService.

Record t : Type := { key : string }.

Definition new (apiKey : string) : t := {| key := apiKey |}.

Definition request (svc : t) (ep : Endpoint) : Request :=
  {| baseURL := "https://api.getresponse.com/v3";
     authHeader := ("X-Auth-Token", "api-key " ++ key svc);
     endpoint := ep |}.

Definition handleApiError (error : AxiosError) : Completion AppError :=
  match response error with
  | Some (status, data) =>
      if (status =? 401)%Z then
        new_AppError (JStr "Invalid GetResponse API key or insufficient permissions")
          401 "GETRESPONSE_UNAUTHORIZED"
      else if (status =? 404)%Z then
        new_AppError (JStr "GetResponse resource not found") 404 "GETRESPONSE_NOT_FOUND"
      else if (status =? 429)%Z then
        new_AppError (JStr "GetResponse API rate limit exceeded") 429 "GETRESPONSE_RATE_LIMIT"
      else if (status =? 400)%Z then
        new_AppError (Js.or (Js.get_opt data "message") (JStr "Bad request to GetResponse API"))
          400 "GETRESPONSE_BAD_REQUEST"
      else
        new_AppError (Js.or (Js.get_opt data "message") (JStr "GetResponse API error"))
          status "GETRESPONSE_API_ERROR"
  | None =>
      if Js.is_string (errcode error) "ECONNABORTED" then
        new_AppError (JStr "GetResponse API request timeout") 408 "GETRESPONSE_TIMEOUT"
      else
        new_AppError (JStr "GetResponse service unavailable") 503 "GETRESPONSE_SERVICE_ERROR"
  end.

Definition get (env : Env) (svc : t) (ep : Endpoint) : M JsVal :=
  http_get env handleApiError (request svc ep).

Definition validateConnection (env : Env) (svc : t) : M ESPValidationResult :=
  try_catch
    (data <- get env svc GetAccounts ;;
     accountId <- lift (Js.get data "accountId") ;;
     email <- lift (Js.get data "email") ;;
     firstName <- lift (Js.get data "firstName") ;;
     lastName <- lift (Js.get data "lastName") ;;
     phone <- lift (Js.get data "phone") ;;
     state <- lift (Js.get data "state") ;;
     zipCode <- lift (Js.get data "zipCode") ;;
     ret {| isValid := true;
            vr_provider := "getresponse";
            vr_error := None;
            accountInfo := Some (JObj [("accountId", accountId);
                                       ("email", email);
                                       ("firstName", firstName);
                                       ("lastName", lastName);
                                       ("phone", phone);
                                       ("state", state);
                                       ("zipCode", zipCode)]) |})
    (fun error =>
       ret {| isValid := false;
              vr_provider := "getresponse";
              vr_error := Some (match error with
                                | AppErr e => message e
                                | OtherErr _ _ => "Connection validation failed"
                                end);
              accountInfo := None |}).

Definition toList (campaign : JsVal) : Completion MailingList :=
  let* campaignId := Js.get campaign "campaignId" in
  let* name := Js.get campaign "name" in
  let* description := Js.get campaign "description" in
  let* createdOn := Js.get campaign "createdOn" in
  Return (GetResponseList campaignId name (Js.or description (JStr "")) createdOn).

(** [Array.isArray(response.data) ? response.data : Object.values(response.data)] *)
Definition records (data : JsVal) : Completion (list JsVal) :=
  match data with
  | JArr items => Return items
  | _ => Js.values data
  end.

Definition getLists (env : Env) (svc : t) : M (list MailingList) :=
  try_catch
    (data <- get env svc GetCampaigns ;;
     campaigns <- lift (records data) ;;
     lift (cmap toList campaigns))
    (fun error => throw error).

Definition getListById (env : Env) (svc : t) (campaignId : string) : M MailingList :=
  try_catch
    (data <- get env svc (GetCampaign campaignId) ;;
     lift (toList data))
    (fun error => throw error).

End GetResponseService.

(* ===================================================================== *)
(** ** The factory ([services/esp-service.factory.ts]) *)
(* ===================================================================== *)

Inductive Service : Type :=
| Mailchimp (svc : MailchimpService.t)
| GetResponse (svc : GetResponseService.t).

Definition validateConnection (env : Env) (service : Service) : M ESPValidationResult :=
  match service with
  | Mailchimp svc => MailchimpService.validateConnection env svc
  | GetResponse svc => GetResponseService.validateConnection env svc
  end.

Definition getLists (env : Env) (service : Service) : M (list MailingList) :=
  match service with
  | Mailchimp svc => MailchimpService.getLists env svc
  | GetResponse svc => GetResponseService.getLists env svc
  end.

Module Re.

Definition in_range (lo hi c : ascii) : bool :=
  (nat_of_ascii lo <=? nat_of_ascii c)%nat && (nat_of_ascii c <=? nat_of_ascii hi)%nat.

(** [\d], [[a-fA-F0-9]] and [[a-zA-Z0-9]]. *)
Definition digit (c : ascii) : bool := in_range "0" "9" c.

Definition hex (c : ascii) : bool :=
  in_range "a" "f" c || in_range "A" "F" c || in_range "0" "9" c.

Definition alnum (c : ascii) : bool :=
  in_range "a" "z" c || in_range "A" "Z" c || in_range "0" "9" c.

(** [cls{n}] at the head of [s]: what follows it, if it matches. *)
Fixpoint exactly (cls : ascii -> bool) (n : nat) (s : string) : option string :=
  match n with
  | O => Some s
  | S n' =>
      match s with
      | String c rest => if cls c then exactly cls n' rest else None
      | EmptyString => None
      end
  end.

(** [cls*$] *)
Fixpoint all (cls : ascii -> bool) (s : string) : bool :=
  match s with
  | EmptyString => true
  | String c rest => cls c && all cls rest
  end.

(** A literal at the head of [s]: what follows it, if it matches. *)
Fixpoint literal (lit s : string) : option string :=
  match lit with
  | EmptyString => Some s
  | String c lit' =>
      match s with
      | String c' rest => if Ascii.eqb c' c then literal lit' rest else None
      | EmptyString => None
      end
  end.

(** [cls+$] *)
Definition plus (cls : ascii -> bool) (s : string) : bool :=
  match s with
  | EmptyString => false
  | String _ _ => all cls s
  end.

(** [/^[a-fA-F0-9]{32}-us\d+$/.test(s)] *)
Definition mailchimp_key (s : string) : bool :=
  match exactly hex 32 s with
  | Some rest =>
      match literal "-us" rest with
      | Some digits => plus digit digits
      | None => false
      end
  | None => false
  end.

(** [/^[a-zA-Z0-9]{20,}$/.test(s)] *)
Definition getresponse_key (s : string) : bool :=
  match exactly alnum 20 s with
  | Some rest => all alnum rest
  | None => false
  end.

End Re.

Module ESPServiceFactory.

Definition createService (credentials : ESPCredentials) : Completion Service :=
  if cred_provider credentials =? "mailchimp" then
    let* svc := MailchimpService.new (cred_apiKey credentials) (cred_dataCenter credentials) in
    Return (Mailchimp svc)
  else if cred_provider credentials =? "getresponse" then
    Return (GetResponse (GetResponseService.new (cred_apiKey credentials)))
  else
    Throw (AppErr {| message := "Unsupported ESP provider: " ++ cred_provider credentials;
                     statusCode := 400;
                     code := "UNSUPPORTED_PROVIDER" |}).

Definition extractDataCenterFromMailchimpKey (apiKey : string) : option string :=
  match Js.split "-" apiKey with
  | [_; part1] => Some part1
  | _ => None
  end.

Definition validateApiKeyFormat (provider apiKey : string) : bool :=
  if provider =? "mailchimp" then Re.mailchimp_key apiKey
  else if provider =? "getresponse" then Re.getresponse_key apiKey
  else false.

End ESPServiceFactory.

(* ===================================================================== *)
(** ** The model ([models/Integration.ts]) and its queries *)
(* ===================================================================== *)

Module ESPIntegrationModel.

(** A query result before any [select]. *)
Definition load (d : ESPIntegration) : Document :=
  {| fields := d; apiKey_selected := false |}.

(** [.select('+apiKey')] *)
Definition select_apiKey (doc : Document) : Document :=
  {| fields := fields doc; apiKey_selected := true |}.

(** The filter [{ isActive: true }], with [provider] when given. *)
Definition matches (provider_filter : option string) (d : ESPIntegration) : bool :=
  isActive d &&
  match provider_filter with
  | Some p => provider d =? p
  | None => true
  end.

Definition find (provider_filter : option string) : M (list Document) :=
  fun w => (Return (map load (filter (matches provider_filter) (store w))), w).

(** [findOne({ provider, isActive: true })] *)
Definition findOne (p : string) : M (option Document) :=
  fun w => (Return (option_map load (List.find (matches (Some p)) (store w))), w).

(** [findById(id)]: the query casts [id] to an ObjectId first, and
    rejects with a CastError when it cannot. *)
Definition findById (id : IdParam) : M (option Document) :=
  match id with
  | ObjectId n =>
      fun w => (Return (option_map load (List.find (fun d => _id d =? n)%nat (store w))), w)
  | Malformed _ => throw (OtherErr "CastError" None)
  end.

(** [new ESPIntegrationModel(...)] draws a fresh ObjectId. *)
Definition fresh_id : M nat :=
  fun w => (Return (next_id w), take_id w).

(** A write either goes through or rejects, leaving the collection as
    it was. The documents the handlers save pass the validation of the
    schema, given that the stored ones do. *)
Definition write (env : Env) (change : list ESPIntegration -> list ESPIntegration) : M unit :=
  fun w =>
    if db_write_ok env (writes w)
    then (Return tt, count_write (set_store w (change (store w))))
    else (Throw (OtherErr "MongoNetworkError" None), count_write w).

(** [save()] of a new document. *)
Definition insert (env : Env) (d : ESPIntegration) : M unit :=
  write env (fun s => (s ++ [d])%list).

(** [save()] of a loaded document: the modified paths are set on the
    stored document of that [_id]. *)
Fixpoint set_first (id : nat) (f : ESPIntegration -> ESPIntegration)
    (s : list ESPIntegration) : list ESPIntegration :=
  match s with
  | [] => []
  | d :: rest => if (_id d =? id)%nat then f d :: rest else d :: set_first id f rest
  end.

Definition updateOne (env : Env) (id : nat) (f : ESPIntegration -> ESPIntegration) : M unit :=
  write env (set_first id f).

(** The assignments the handlers make to a loaded document before
    saving it; [timestamps: true] refreshes [updatedAt]. *)
Definition assign_credentials (key : string) (dc : option string) (date : nat)
    (d : ESPIntegration) : ESPIntegration :=
  {| _id := _id d; provider := provider d;
     apiKey := key; dataCenter := dc;
     isActive := isActive d; lastVerified := Some date;
     createdAt := createdAt d; updatedAt := date |}.

Definition assign_inactive (date : nat) (d : ESPIntegration) : ESPIntegration :=
  {| _id := _id d; provider := provider d;
     apiKey := apiKey d; dataCenter := dataCenter d;
     isActive := false; lastVerified := lastVerified d;
     createdAt := createdAt d; updatedAt := date |}.

Definition assign_lastVerified (date : nat) (d : ESPIntegration) : ESPIntegration :=
  {| _id := _id d; provider := provider d;
     apiKey := apiKey d; dataCenter := dataCenter d;
     isActive := isActive d; lastVerified := Some date;
     createdAt := createdAt d; updatedAt := date |}.

Definition opt_prop (k : string) (o : option JsVal) : list (string * JsVal) :=
  match o with Some v => [(k, v)] | None => [] end.

(** The plain object handed to the [toJSON] transform. *)
Definition toObject (doc : Document) : list (string * JsVal) :=
  let d := fields doc in
  ([("_id", Js.number (_id d)); ("provider", JStr (provider d))]
   ++ (if apiKey_selected doc then [("apiKey", JStr (apiKey d))] else [])
   ++ opt_prop "dataCenter" (option_map JStr (dataCenter d))
   ++ [("isActive", JBool (isActive d))]
   ++ opt_prop "lastVerified" (option_map Js.number (lastVerified d))
   ++ [("createdAt", Js.number (createdAt d));
       ("updatedAt", Js.number (updatedAt d));
       ("__v", Js.number 0)])%list.

(** [delete ret.k] *)
Definition delete (k : string) (props : list (string * JsVal)) : list (string * JsVal) :=
  filter (fun kv => negb (fst kv =? k)) props.

(** The schema's [toJSON.transform]. *)
Definition toJSON (doc : Document) : JsVal :=
  JObj (delete "apiKey" (delete "__v" (toObject doc))).

End ESPIntegrationModel.

(* ===================================================================== *)
(** ** The error middleware ([middleware/errorHandler.ts]) *)
(* ===================================================================== *)

(** [error.details], which only a development build sends. *)
Record ErrorDetails : Type := { stack : string; originalMessage : string }.

Record ErrorBody : Type := {
  error_code : string;
  error_message : string;
  error_details : option ErrorDetails
}.

(** [err.message] and [err.stack]. *)
Definition message_of (env : Env) (err : Exn) : string :=
  match err with
  | AppErr e => message e
  | OtherErr name errno => runtime_message env name errno
  end.

(** What [res.status(s).json(...)] sends: the envelope's [success] flag
    is the constructor, [meta.timestamp] is left out. *)
Inductive HttpResponse (A : Type) : Type :=
| Success (status : Z) (data : A)
| Failure (status : Z) (error : ErrorBody).
Arguments Success {A} status data.
Arguments Failure {A} status error.

Definition errorHandler (env : Env) {A} (err : Exn) : HttpResponse A :=
  let '(status, c, msg) :=
    match err with
    | AppErr e => (statusCode e, code e, message e)
    | OtherErr name errno =>
        if name =? "ValidationError" then (400%Z, "VALIDATION_ERROR", "Validation failed")
        else if name =? "CastError" then (400%Z, "INVALID_ID", "Invalid ID format")
        else if (name =? "MongoServerError")
                && match errno with Some n => (n =? 11000)%Z | None => false end
        then (409%Z, "DUPLICATE_ENTRY", "Duplicate entry found")
        else if name =? "JsonWebTokenError" then (401%Z, "INVALID_TOKEN", "Invalid token")
        else if name =? "TokenExpiredError" then (401%Z, "TOKEN_EXPIRED", "Token expired")
        else (500%Z, "INTERNAL_ERROR", "Internal server error")
    end in
  Failure status
    {| error_code := c;
       error_message := if production env && (status =? 500)%Z
                        then "Internal server error" else msg;
       error_details := if negb (production env) && (500 <=? status)%Z
                        then Some {| stack := stack_of env err;
                                     originalMessage := message_of env err |}
                        else None |}.

(** [asyncHandler(fn)] followed by the error middleware: a handler that
    throws is answered by [errorHandler]. *)
Definition asyncHandler (env : Env) {A} (fn : M (Z * A)) : World -> HttpResponse A * World :=
  fun w =>
    match fn w with
    | (Return (status, data), w') => (Success status data, w')
    | (Throw err, w') => (errorHandler env err, w')
    end.

(* ===================================================================== *)
(** ** The handlers ([controllers/integration.controller.ts]) *)
(* ===================================================================== *)

(** The [data] members of the successful responses. *)
Record CreatedData : Type := {
  cd_id : nat;
  cd_provider : string;
  cd_dataCenter : option string;
  cd_isActive : bool;
  cd_lastVerified : option nat;
  cd_createdAt : nat;
  cd_updatedAt : nat;
  cd_accountInfo : option JsVal
}.

(** One element of [allLists]: a list tagged with its integration, or
    the marker pushed when fetching from an integration failed. *)
Inductive ListEntry : Type :=
| Listed (list : MailingList) (entry_provider : string) (integrationId : nat)
| FetchFailed (entry_provider : string) (integrationId : nat) (error : string).

Definition provider_of (e : ListEntry) : string :=
  match e with
  | Listed _ p _ => p
  | FetchFailed p _ _ => p
  end.

Record ListsData : Type := {
  lists : list ListEntry;
  ld_totalCount : nat;
  providers : list string
}.

Record IntegrationsData : Type := {
  integrations : list Document;
  id_totalCount : nat
}.

Record TestData : Type := {
  td_isValid : bool;
  td_provider : string;
  td_error : option string;
  td_accountInfo : option JsVal;
  td_lastVerified : option nat
}.

Module IntegrationController.

Import ESPIntegrationModel.

Definition dquote : string := String (ascii_of_nat 34) EmptyString.

(** The [data] of the response of [createESPIntegration]. *)
Definition created_data (integration : ESPIntegration) (validationResult : ESPValidationResult)
    : CreatedData :=
  {| cd_id := _id integration;
     cd_provider := provider integration;
     cd_dataCenter := dataCenter integration;
     cd_isActive := isActive integration;
     cd_lastVerified := lastVerified integration;
     cd_createdAt := createdAt integration;
     cd_updatedAt := updatedAt integration;
     cd_accountInfo := accountInfo validationResult |}.

Definition credentials_of (integration : Document) : ESPCredentials :=
  {| cred_provider := provider (fields integration);
     cred_apiKey := apiKey (fields integration);
     cred_dataCenter := dataCenter (fields integration) |}.

(** POST /api/integrations/esp, in two parts: up to the answer of
    [findOne], and from there on. Each [await] of a handler is a point
    where another request may be served; the one between the lookup and
    the save is the one that matters for the collection. *)
Record Lookup : Type := {
  found_dataCenter : option string;
  found_validation : ESPValidationResult;
  found_existing : option Document
}.

Definition create_lookup (env : Env) (provider apiKey : string) : M Lookup :=
  dataCenter <-
    (if provider =? "mailchimp" then
       let dataCenter :=
         Js.or_undefined (ESPServiceFactory.extractDataCenterFromMailchimpKey apiKey) in
       if negb (Js.truthy_opt dataCenter) then
         throw (AppErr {| message := "Invalid Mailchimp API key format. Expected format: xxxxxxxx-usXX";
                          statusCode := 400;
                          code := "INVALID_MAILCHIMP_KEY" |})
       else ret dataCenter
     else ret None) ;;
  (if negb (ESPServiceFactory.validateApiKeyFormat provider apiKey) then
     throw (AppErr {| message := "Invalid " ++ provider ++ " API key format";
                      statusCode := 400;
                      code := "INVALID_API_KEY_FORMAT" |})
   else ret tt) ;;;
  service <- lift (ESPServiceFactory.createService
                     {| cred_provider := provider;
                        cred_apiKey := apiKey;
                        cred_dataCenter := dataCenter |}) ;;
  validationResult <- validateConnection env service ;;
  (if negb (isValid validationResult) then
     throw (AppErr {| message := Js.or_str (vr_error validationResult)
                                   "Failed to validate ESP connection";
                      statusCode := 401;
                      code := "ESP_CONNECTION_FAILED" |})
   else ret tt) ;;;
  existingIntegration <- findOne provider ;;
  ret {| found_dataCenter := dataCenter;
         found_validation := validationResult;
         found_existing := existingIntegration |}.

Definition create_save (env : Env) (provider apiKey : string) (looked : Lookup)
    : M (Z * CreatedData) :=
  let dataCenter := found_dataCenter looked in
  let validationResult := found_validation looked in
  let existingIntegration := found_existing looked in
  integration <-
    match existingIntegration with
    | Some existing =>
        date <- now ;;
        updateOne env (_id (fields existing)) (assign_credentials apiKey dataCenter date) ;;;
        ret (assign_credentials apiKey dataCenter date (fields existing))
    | None =>
        id <- fresh_id ;;
        date <- now ;;
        let created :=
          {| _id := id; provider := provider;
             apiKey := apiKey; dataCenter := dataCenter;
             isActive := true; lastVerified := Some date;
             createdAt := date; updatedAt := date |} in
        insert env created ;;;
        ret created
    end ;;
  ret (match existingIntegration with Some _ => 200%Z | None => 201%Z end,
       created_data integration validationResult).

Definition createESPIntegration (env : Env) (provider apiKey : string)
    : M (Z * CreatedData) :=
  looked <- create_lookup env provider apiKey ;;
  create_save env provider apiKey looked.

Definition failed_entry (integration : Document) : ListEntry :=
  FetchFailed (provider (fields integration)) (_id (fields integration))
    "Failed to fetch lists from this provider".

Definition tagged (integration : Document) (list : MailingList) : ListEntry :=
  Listed list (provider (fields integration)) (_id (fields integration)).

(** The [for ... of] loop of [getESPLists], pushing onto [allLists]. *)
Fixpoint fetch_each (env : Env) (integrations : list Document)
    (allLists : list ListEntry) : M (list ListEntry) :=
  match integrations with
  | [] => ret allLists
  | integration :: rest =>
      allLists' <-
        try_catch
          (service <- lift (ESPServiceFactory.createService (credentials_of integration)) ;;
           lists <- getLists env service ;;
           ret (allLists ++ map (tagged integration) lists)%list)
          (fun _ => ret (allLists ++ [failed_entry integration])%list) ;;
      fetch_each env rest allLists'
  end.

(** GET /api/integrations/esp/lists; [provider] is the query
    parameter, absent when [None]. *)
Definition getESPLists (env : Env) (provider : option string) : M (Z * ListsData) :=
  filter <-
    (if Js.truthy_opt provider then
       if negb (existsb (String.eqb (Js.or_str provider "")) ["mailchimp"; "getresponse"]) then
         throw (AppErr {| message := "Invalid provider. Must be " ++ dquote ++ "mailchimp" ++ dquote
                                     ++ " or " ++ dquote ++ "getresponse" ++ dquote;
                          statusCode := 400;
                          code := "INVALID_PROVIDER" |})
       else ret provider
     else ret None) ;;
  found <- find filter ;;
  let integrations := map select_apiKey found in
  (if (List.length integrations =? 0)%nat then
     throw (AppErr {| message := if Js.truthy_opt provider
                                 then "No active " ++ Js.or_str provider "" ++ " integrations found"
                                 else "No active integrations found";
                      statusCode := 404;
                      code := "NO_INTEGRATIONS" |})
   else ret tt) ;;;
  allLists <- fetch_each env integrations [] ;;
  ret (200%Z,
       {| lists := allLists;
          ld_totalCount := List.length allLists;
          providers := Js.set_of [] (map provider_of allLists) |}).

(** GET /api/integrations/esp *)
Definition getIntegrations (env : Env) : M (Z * IntegrationsData) :=
  integrations <- find None ;;
  ret (200%Z, {| integrations := integrations; id_totalCount := List.length integrations |}).

(** DELETE /api/integrations/esp/:id. Saving a document none of whose
    paths changed writes nothing. *)
Definition deleteIntegration (env : Env) (id : IdParam) : M (Z * string) :=
  found <- findById id ;;
  match found with
  | None =>
      throw (AppErr {| message := "Integration not found";
                       statusCode := 404;
                       code := "INTEGRATION_NOT_FOUND" |})
  | Some integration =>
      (if isActive (fields integration) then
         date <- now ;;
         updateOne env (_id (fields integration)) (assign_inactive date)
       else ret tt) ;;;
      ret (200%Z, "Integration deactivated successfully")
  end.

(** Two dates are the same when they read the same time. *)
Definition same_date (stored : option nat) (date : nat) : bool :=
  match stored with
  | Some t => (t =? date)%nat
  | None => false
  end.

(** POST /api/integrations/esp/:id/test. As in [deleteIntegration],
    saving a document none of whose paths changed writes nothing:
    assigning to [lastVerified] the date it already holds changes no
    path. *)
Definition testIntegration (env : Env) (id : IdParam) : M (Z * TestData) :=
  found <- findById id ;;
  match option_map select_apiKey found with
  | None =>
      throw (AppErr {| message := "Integration not found or inactive";
                       statusCode := 404;
                       code := "INTEGRATION_NOT_FOUND" |})
  | Some integration =>
      if negb (isActive (fields integration)) then
        throw (AppErr {| message := "Integration not found or inactive";
                         statusCode := 404;
                         code := "INTEGRATION_NOT_FOUND" |})
      else
        service <- lift (ESPServiceFactory.createService (credentials_of integration)) ;;
        validationResult <- validateConnection env service ;;
        lastVerified' <-
          (if isValid validationResult then
             date <- now ;;
             (if same_date (lastVerified (fields integration)) date then ret tt
              else updateOne env (_id (fields integration)) (assign_lastVerified date)) ;;;
             ret (Some date)
           else ret (lastVerified (fields integration))) ;;
        ret (200%Z,
             {| td_isValid := isValid validationResult;
                td_provider := vr_provider validationResult;
                td_error := vr_error validationResult;
                td_accountInfo := accountInfo validationResult;
                td_lastVerified := lastVerified' |})
  end.

End IntegrationController.

(* ===================================================================== *)
(** ** Vocabulary of the specification *)
(* ===================================================================== *)

(** The named error kinds of the adapters, read off the [code] of an
    [AppError]; [tag] is [MAILCHIMP] or [GETRESPONSE]. *)
Inductive ErrorKind : Type :=
| Unauthorized
| NotFound
| RateLimited
| BadRequest
| ProviderError
| Timeout
| ServiceUnavailable.

Definition kind_of (tag : string) (e : AppError) : option ErrorKind :=
  if code e =? tag ++ "_UNAUTHORIZED" then Some Unauthorized
  else if code e =? tag ++ "_NOT_FOUND" then Some NotFound
  else if code e =? tag ++ "_RATE_LIMIT" then Some RateLimited
  else if code e =? tag ++ "_BAD_REQUEST" then Some BadRequest
  else if code e =? tag ++ "_API_ERROR" then Some ProviderError
  else if code e =? tag ++ "_TIMEOUT" then Some Timeout
  else if code e =? tag ++ "_SERVICE_ERROR" then Some ServiceUnavailable
  else None.

(** The translation table of the two adapters, status by status;
    [bad_request] says whether the adapter singles out status 400. *)
Definition kind_table (bad_request : bool) (error : AxiosError) : ErrorKind :=
  match response error with
  | Some (status, _) =>
      if (status =? 401)%Z then Unauthorized
      else if (status =? 404)%Z then NotFound
      else if (status =? 429)%Z then RateLimited
      else if bad_request && (status =? 400)%Z then BadRequest
      else ProviderError
  | None =>
      if Js.is_string (errcode error) "ECONNABORTED" then Timeout else ServiceUnavailable
  end.

(** A payload on which a property can be read. *)
Definition readable (v : JsVal) : bool :=
  match v with
  | JUndefined | JNull => false
  | _ => true
  end.

(** The common shape of one upstream record, field by field. *)
Definition mailchimp_list_of (v : JsVal) : MailingList :=
  MailchimpList (Js.get_opt v "id") (Js.get_opt v "name")
    (Js.or (Js.get_opt (Js.get_opt v "stats") "member_count") (JNum "0"))
    (Js.get_opt v "subscribe_url_long") (Js.get_opt v "date_created").

Definition getresponse_list_of (v : JsVal) : MailingList :=
  GetResponseList (Js.get_opt v "campaignId") (Js.get_opt v "name")
    (Js.or (Js.get_opt v "description") (JStr ""))
    (Js.get_opt v "createdOn").

Definition mailchimp_account_of (data : JsVal) : JsVal :=
  JObj [("accountName", Js.get_opt data "account_name");
        ("email", Js.get_opt data "email");
        ("role", Js.get_opt data "role");
        ("accountId", Js.get_opt data "account_id")].

Definition getresponse_account_of (data : JsVal) : JsVal :=
  JObj [("accountId", Js.get_opt data "accountId");
        ("email", Js.get_opt data "email");
        ("firstName", Js.get_opt data "firstName");
        ("lastName", Js.get_opt data "lastName");
        ("phone", Js.get_opt data "phone");
        ("state", Js.get_opt data "state");
        ("zipCode", Js.get_opt data "zipCode")].

(** The one request [validateConnection] sends, and what is expected of
    its answer. *)
Definition whoami (service : Service) : Request :=
  match service with
  | Mailchimp svc => MailchimpService.request svc GetRoot
  | GetResponse svc => GetResponseService.request svc GetAccounts
  end.

Definition translate (service : Service) : AxiosError -> Completion AppError :=
  match service with
  | Mailchimp _ => MailchimpService.handleApiError
  | GetResponse _ => GetResponseService.handleApiError
  end.

Definition account_of (service : Service) : JsVal -> JsVal :=
  match service with
  | Mailchimp _ => mailchimp_account_of
  | GetResponse _ => getresponse_account_of
  end.

Definition provider_name (service : Service) : string :=
  match service with
  | Mailchimp _ => "mailchimp"
  | GetResponse _ => "getresponse"
  end.

(** The validation result an upstream outcome leads to. *)
Definition validation_of (service : Service) (o : Outcome) : ESPValidationResult :=
  match o with
  | Fulfilled _ data =>
      if readable data
      then {| isValid := true;
              vr_provider := provider_name service;
              vr_error := None;
              accountInfo := Some (account_of service data) |}
      else {| isValid := false;
              vr_provider := provider_name service;
              vr_error := Some "Connection validation failed";
              accountInfo := None |}
  | Rejected error =>
      {| isValid := false;
         vr_provider := provider_name service;
         vr_error := Some (match translate service error with
                           | Return appError => message appError
                           | Throw _ => "Connection validation failed"
                           end);
         accountInfo := None |}
  end.

(** What a throwing call of an adapter may carry: a translated upstream
    failure, or a TypeError (of reading a payload of the wrong shape, or
    of a translation that threw). *)
Definition adapter_exn (service : Service) (e : Exn) : Prop :=
  (exists error appError, translate service error = Return appError /\ e = AppErr appError)
  \/ e = TypeError.

(** The name an adapter gives its provider in its messages and the tag
    it gives its error codes. *)
Definition label (service : Service) : string :=
  match service with
  | Mailchimp _ => "Mailchimp"
  | GetResponse _ => "GetResponse"
  end.

Definition tag (service : Service) : string :=
  match service with
  | Mailchimp _ => "MAILCHIMP"
  | GetResponse _ => "GETRESPONSE"
  end.

(** Whether the adapter singles out status 400. *)
Definition has_bad_request (service : Service) : bool :=
  match service with
  | Mailchimp _ => false
  | GetResponse _ => true
  end.

(** The status a translated error of a kind carries when it is not the
    upstream's. *)
Definition fixed_status (k : ErrorKind) : option Z :=
  match k with
  | Timeout => Some 408%Z
  | ServiceUnavailable => Some 503%Z
  | _ => None
  end.

(** The text of the failures an adapter words itself; a provider error
    and a bad request carry the upstream's message. *)
Definition failure_text (service : Service) (k : ErrorKind) : option string :=
  match k with
  | Unauthorized => Some ("Invalid " ++ label service ++ " API key or insufficient permissions")
  | NotFound => Some (label service ++ " resource not found")
  | RateLimited => Some (label service ++ " API rate limit exceeded")
  | Timeout => Some (label service ++ " API request timeout")
  | ServiceUnavailable => Some (label service ++ " service unavailable")
  | BadRequest | ProviderError => None
  end.

(** The member of an upstream error body that holds its message, and
    the text used when there is none. *)
Definition upstream_message (service : Service) (data : JsVal) : JsVal :=
  match service with
  | Mailchimp _ => Js.get_opt data "detail"
  | GetResponse _ => Js.get_opt data "message"
  end.

Definition default_text (service : Service) (k : ErrorKind) : string :=
  match service, k with
  | Mailchimp _, _ => "Mailchimp API error"
  | GetResponse _, BadRequest => "Bad request to GetResponse API"
  | GetResponse _, _ => "GetResponse API error"
  end.

(** A value with no conversion to a string: an object with an own
    property [toString], or an array one element of which has none. *)
Inductive unprintable : JsVal -> Prop :=
| unprintable_object (props : list (string * JsVal)) :
    In "toString" (map fst props) -> unprintable (JObj props)
| unprintable_array (items : list JsVal) (x : JsVal) :
    In x items -> unprintable x -> unprintable (JArr items).

(** The conversion of a value to a string throws a TypeError when the
    value is unprintable, and yields a string when it is not. *)
Definition converts (v : JsVal) : Prop :=
  (unprintable v /\ Js.toString v = Throw TypeError)
  \/ (~ unprintable v /\ exists s, Js.toString v = Return s).

(** The shape of a key in the words of the specification: a Mailchimp
    key is a 32-digit hexadecimal secret followed by a region suffix
    [-us] and at least one decimal digit; a GetResponse key is
    alphanumeric and at least 20 characters long. *)
Definition key_shape_ok (provider key : string) : Prop :=
  (provider = "mailchimp"
   /\ exists secret region,
        key = secret ++ "-us" ++ region
        /\ String.length secret = 32
        /\ Re.all Re.hex secret = true
        /\ region <> ""
        /\ Re.all Re.digit region = true)
  \/ (provider = "getresponse"
      /\ 20 <= String.length key
      /\ Re.all Re.alnum key = true).

(** An active record of provider [p]. *)
Definition active_for (p : string) (d : ESPIntegration) : bool :=
  isActive d && (provider d =? p).

(** At most one active record per provider. *)
Definition one_active_per_provider (s : list ESPIntegration) : Prop :=
  forall p : string, List.length (filter (active_for p) s) <= 1.

(** The requests of the HTTP surface, and the world after serving one
    from its first statement to its last, no other request in between. *)
Inductive Operation : Type :=
| CreateOrVerify (provider apiKey : string)
| FetchLists (provider : option string)
| ListIntegrations
| Deactivate (id : IdParam)
| Retest (id : IdParam).

Definition perform (env : Env) (op : Operation) (w : World) : World :=
  match op with
  | CreateOrVerify provider apiKey =>
      snd (IntegrationController.createESPIntegration env provider apiKey w)
  | FetchLists provider => snd (IntegrationController.getESPLists env provider w)
  | ListIntegrations => snd (IntegrationController.getIntegrations env w)
  | Deactivate id => snd (IntegrationController.deleteIntegration env id w)
  | Retest id => snd (IntegrationController.testIntegration env id w)
  end.

(** The database part of the world is left as it was. *)
Definition db_unchanged (w w' : World) : Prop :=
  store w' = store w /\ writes w' = writes w
  /\ clock w' = clock w /\ next_id w' = next_id w.

(** The data center [createESPIntegration] derives from a submission. *)
Definition submitted_dataCenter (provider apiKey : string) : option string :=
  if provider =? "mailchimp"
  then Js.or_undefined (ESPServiceFactory.extractDataCenterFromMailchimpKey apiKey)
  else None.

Definition submitted_credentials (provider apiKey : string) : ESPCredentials :=
  {| cred_provider := provider;
     cred_apiKey := apiKey;
     cred_dataCenter := submitted_dataCenter provider apiKey |}.

(** The record [createESPIntegration] inserts for a provider that has no
    active record. *)
Definition new_record (provider apiKey : string) (w : World) : ESPIntegration :=
  {| _id := next_id w; provider := provider;
     apiKey := apiKey; dataCenter := submitted_dataCenter provider apiKey;
     isActive := true; lastVerified := Some (clock w);
     createdAt := clock w; updatedAt := clock w |}.

(** The errors the handlers throw. *)
Definition INVALID_MAILCHIMP_KEY : AppError :=
  {| message := "Invalid Mailchimp API key format. Expected format: xxxxxxxx-usXX";
     statusCode := 400;
     code := "INVALID_MAILCHIMP_KEY" |}.

Definition INVALID_API_KEY_FORMAT (provider : string) : AppError :=
  {| message := "Invalid " ++ provider ++ " API key format";
     statusCode := 400;
     code := "INVALID_API_KEY_FORMAT" |}.

Definition ESP_CONNECTION_FAILED (validationResult : ESPValidationResult) : AppError :=
  {| message := Js.or_str (vr_error validationResult) "Failed to validate ESP connection";
     statusCode := 401;
     code := "ESP_CONNECTION_FAILED" |}.

Definition INTEGRATION_NOT_FOUND (message : string) : AppError :=
  {| message := message; statusCode := 404; code := "INTEGRATION_NOT_FOUND" |}.

Definition NO_INTEGRATIONS (provider : option string) : AppError :=
  {| message := if Js.truthy_opt provider
                then "No active " ++ Js.or_str provider "" ++ " integrations found"
                else "No active integrations found";
     statusCode := 404;
     code := "NO_INTEGRATIONS" |}.

Definition write_failed : Exn := OtherErr "MongoNetworkError" None.

(** A computation that never touches the database part of the world. *)
Definition db_safe {A} (m : M A) : Prop :=
  forall w, db_unchanged w (snd (m w)).

(** The [data] of the response of [testIntegration]. *)
Definition test_data (validationResult : ESPValidationResult) (lastVerified : option nat)
    : TestData :=
  {| td_isValid := isValid validationResult;
     td_provider := vr_provider validationResult;
     td_error := vr_error validationResult;
     td_accountInfo := accountInfo validationResult;
     td_lastVerified := lastVerified |}.

Definition has_id (id : nat) (d : ESPIntegration) : bool := (_id d =? id)%nat.

(** Serving a sequence of requests, one after the other. *)
Fixpoint serve (env : Env) (ops : list Operation) (w : World) : World :=
  match ops with
  | [] => w
  | op :: rest => serve env rest (perform env op w)
  end.

(** What an operation may do to the collection: the invariant is kept,
    no document is removed, and [grows] tells whether documents may have
    been added. *)
Definition store_step (grows : bool) (s s' : list ESPIntegration) : Prop :=
  one_active_per_provider s'
  /\ exists added, map _id s' = (map _id s ++ added)%list
                   /\ (grows = false -> added = []).

(** Only a submission for a provider without an active record may add a
    document. *)
Definition may_grow (op : Operation) (s : list ESPIntegration) : bool :=
  match op with
  | CreateOrVerify provider _ => negb (existsb (active_for provider) s)
  | _ => false
  end.

(** A record as a submission leaves it: active, with the submitted
    provider and key, verified at [date]. *)
Definition holds_submission (submitted key : string) (date : nat) (d : ESPIntegration)
    : Prop :=
  provider d = submitted
  /\ apiKey d = key
  /\ isActive d = true
  /\ lastVerified d = Some date
  /\ updatedAt d = date.

(** The region of a record is the region suffix of its Mailchimp key,
    which follows the 32 characters of the secret and a dash; a
    GetResponse record has none. *)
Definition holds_region (d : ESPIntegration) : Prop :=
  (provider d = "mailchimp" ->
   exists secret digits,
     apiKey d = secret ++ "-us" ++ digits
     /\ String.length secret = 32
     /\ dataCenter d = Some ("us" ++ digits))
  /\ (provider d = "getresponse" -> dataCenter d = None).

(** What the response of a submission tells of the record [d]. *)
Definition tells_of (data : CreatedData) (d : ESPIntegration) : Prop :=
  cd_id data = _id d
  /\ cd_provider data = provider d
  /\ cd_dataCenter data = dataCenter d
  /\ cd_isActive data = isActive d
  /\ cd_lastVerified data = lastVerified d
  /\ cd_createdAt data = createdAt d
  /\ cd_updatedAt data = updatedAt d.

(** A record whose verification has been refreshed at [date]. *)
Definition verified_at (date : nat) (d : ESPIntegration) : ESPIntegration :=
  {| _id := _id d; provider := provider d;
     apiKey := apiKey d; dataCenter := dataCenter d;
     isActive := isActive d; lastVerified := Some date;
     createdAt := createdAt d; updatedAt := date |}.


(** A character other than the separator. *)
Definition not_sep (sep c : ascii) : bool := negb (Ascii.eqb c sep).

(** The body of the [try] in the loop of [getESPLists], up to the lists
    it fetched. *)
Definition attempt (env : Env) (integration : Document) : M (list MailingList) :=
  (service <- lift (ESPServiceFactory.createService
                      (IntegrationController.credentials_of integration)) ;;
   getLists env service)%M.

(** The attempts of an aggregate fetch, one integration after the other,
    each paired with how it completed. *)
Fixpoint fetch_outcomes (env : Env) (integrations : list Document) (w : World)
    : list (Document * Completion (list MailingList)) :=
  match integrations with
  | [] => []
  | integration :: rest =>
      (integration, fst (attempt env integration w))
      :: fetch_outcomes env rest (snd (attempt env integration w))
  end.

(** What one attempt contributes to the response: its lists, tagged, or
    one error marker. *)
Definition contribution (o : Document * Completion (list MailingList)) : list ListEntry :=
  match snd o with
  | Return fetched => map (IntegrationController.tagged (fst o)) fetched
  | Throw _ => [IntegrationController.failed_entry (fst o)]
  end.

(** The provider filter of [getESPLists]: an absent or empty query
    parameter filters nothing, a present one must name a provider. *)
Definition filter_accepted (q : option string) : bool :=
  negb (Js.truthy_opt q)
  || existsb (String.eqb (Js.or_str q "")) ["mailchimp"; "getresponse"].

Definition filter_of (q : option string) : option string :=
  if Js.truthy_opt q then q else None.

(** The active records that match the filter, loaded with their keys. *)
Definition matching (q : option string) (w : World) : list Document :=
  map ESPIntegrationModel.select_apiKey
    (map ESPIntegrationModel.load
       (filter (ESPIntegrationModel.matches (filter_of q)) (store w))).

Definition INVALID_PROVIDER : AppError :=
  {| message := "Invalid provider. Must be " ++ IntegrationController.dquote ++ "mailchimp"
                ++ IntegrationController.dquote ++ " or " ++ IntegrationController.dquote
                ++ "getresponse" ++ IntegrationController.dquote;
     statusCode := 400;
     code := "INVALID_PROVIDER" |}.

Definition is_failed (e : ListEntry) : bool :=
  match e with FetchFailed _ _ _ => true | Listed _ _ _ => false end.

Definition is_listed (e : ListEntry) : bool := negb (is_failed e).

Definition threw {A} (c : Completion A) : bool :=
  match c with Throw _ => true | Return _ => false end.

(** How many lists the successful attempts fetched. *)
Definition fetched_total (outcomes : list (Document * Completion (list MailingList))) : nat :=
  list_sum (map (fun o => match snd o with
                          | Return fetched => List.length fetched
                          | Throw _ => 0
                          end) outcomes).

(* ===================================================================== *)
(** ** What goes on the wire: [res.json] *)
(* ===================================================================== *)

Module Render.

Definition opt (o : option JsVal) : JsVal :=
  match o with Some v => v | None => JUndefined end.

Definition num (n : nat) : JsVal := Js.number n.

(** The object literal of [createESPIntegration]. *)
Definition created (d : CreatedData) : JsVal :=
  JObj [("id", num (cd_id d));
        ("provider", JStr (cd_provider d));
        ("dataCenter", opt (option_map JStr (cd_dataCenter d)));
        ("isActive", JBool (cd_isActive d));
        ("lastVerified", opt (option_map num (cd_lastVerified d)));
        ("createdAt", num (cd_createdAt d));
        ("updatedAt", num (cd_updatedAt d));
        ("accountInfo", opt (cd_accountInfo d))].

Definition mailing_list (l : MailingList) : list (string * JsVal) :=
  match l with
  | MailchimpList id name memberCount subscribeUrlLong dateCreated =>
      [("id", id); ("name", name); ("memberCount", memberCount);
       ("subscribeUrlLong", subscribeUrlLong); ("dateCreated", dateCreated)]
  | GetResponseList campaignId name description createdOn =>
      [("campaignId", campaignId); ("name", name);
       ("description", description); ("createdOn", createdOn)]
  end.

(** [{ ...list, provider, integrationId }] and the error marker. *)
Definition entry (e : ListEntry) : JsVal :=
  match e with
  | Listed l p i =>
      JObj (mailing_list l ++ [("provider", JStr p); ("integrationId", num i)])%list
  | FetchFailed p i err =>
      JObj [("provider", JStr p); ("integrationId", num i); ("error", JStr err)]
  end.

Definition lists_data (d : ListsData) : JsVal :=
  JObj [("lists", JArr (map entry (lists d)));
        ("totalCount", num (ld_totalCount d));
        ("providers", JArr (map JStr (providers d)))].

(** The documents of [getIntegrations] go through the schema's
    [toJSON]. *)
Definition integrations_data (d : IntegrationsData) : JsVal :=
  JObj [("integrations", JArr (map ESPIntegrationModel.toJSON (integrations d)));
        ("totalCount", num (id_totalCount d))].

Definition tested (d : TestData) : JsVal :=
  JObj [("isValid", JBool (td_isValid d));
        ("provider", JStr (td_provider d));
        ("error", opt (option_map JStr (td_error d)));
        ("accountInfo", opt (td_accountInfo d));
        ("lastVerified", opt (option_map num (td_lastVerified d)))].

(** The object literal of [deleteIntegration]. *)
Definition deleted (message : string) : JsVal :=
  JObj [("message", JStr message)].

Definition details (d : ErrorDetails) : JsVal :=
  JObj [("stack", JStr (stack d)); ("originalMessage", JStr (originalMessage d))].

(** The envelope, without [meta]. *)
Definition body {A} (data : A -> JsVal) (r : HttpResponse A) : JsVal :=
  match r with
  | Success _ d => JObj [("success", JBool true); ("data", data d)]
  | Failure _ e =>
      JObj [("success", JBool false);
            ("error", JObj ([("code", JStr (error_code e));
                             ("message", JStr (error_message e))]
                            ++ match error_details e with
                               | Some d => [("details", details d)]
                               | None => []
                               end)%list)]
  end.

End Render.

(** [v] is an object with an own property [k]. *)
Definition has_own (k : string) (v : JsVal) : bool :=
  match v with
  | JObj props => existsb (fun kv => fst kv =? k) props
  | _ => false
  end.

Definition members (v : JsVal) : list JsVal :=
  match v with
  | JObj props => map snd props
  | _ => []
  end.

Definition elements (v : JsVal) : list JsVal :=
  match v with
  | JArr items => items
  | _ => []
  end.

(** A record with its key blanked: what two collections that differ only
    in their keys have in common. *)
Definition redact (d : ESPIntegration) : ESPIntegration :=
  {| _id := _id d; provider := provider d;
     apiKey := ""; dataCenter := dataCenter d;
     isActive := isActive d; lastVerified := lastVerified d;
     createdAt := createdAt d; updatedAt := updatedAt d |}.

(** A response body in which no object the handlers and the adapters
    build has the property [k]: not the envelope, not its [data] or
    [error] member, not a member of these, not an element of an array in
    [data]. What lies deeper is the upstream's. *)
Definition omits (k : string) (body : JsVal) : bool :=
  negb (has_own k body)
  && forallb (fun part =>
                negb (has_own k part)
                && forallb (fun m =>
                              negb (has_own k m)
                              && forallb (fun x => negb (has_own k x)) (elements m))
                     (members part))
       (members body).

(** [hay.includes(needle)] *)
Fixpoint includes (needle hay : string) : bool :=
  String.prefix needle hay
  || match hay with
     | EmptyString => false
     | String _ rest => includes needle rest
     end.

(** [needle] is part of a text of [v]: of a string, of the print of a
    number, or of a property name, at any depth. *)
Fixpoint occurs (needle : string) (v : JsVal) : bool :=
  match v with
  | JUndefined | JNull | JBool _ => false
  | JNum text => includes needle text
  | JStr s => includes needle s
  | JArr items => existsb (occurs needle) items
  | JObj props =>
      existsb (fun kv => includes needle (fst kv) || occurs needle (snd kv)) props
  end.

(** Two worlds that differ at most in the keys of their records. *)
Definition same_but_keys (w w2 : World) : Prop :=
  map redact (store w2) = map redact (store w)
  /\ sent w2 = sent w /\ writes w2 = writes w
  /\ clock w2 = clock w /\ next_id w2 = next_id w.

(** All that a re-test gets from the key of the record [d]: whether the
    adapter can be built, and what the upstream answers the request
    that carries the key. *)
Definition answer_to_key (env : Env) (w : World) (d : ESPIntegration) : Completion Outcome :=
  let* service := ESPServiceFactory.createService
                    (IntegrationController.credentials_of
                       (ESPIntegrationModel.select_apiKey (ESPIntegrationModel.load d))) in
  Return (upstream env (sent w) (whoami service)).

(** The account payload of a validation result is absent or an object
    an adapter built from the upstream's answer. *)
Definition account_shape (o : option JsVal) : Prop :=
  o = None
  \/ exists data, o = Some (mailchimp_account_of data) \/ o = Some (getresponse_account_of data).

(* ===================================================================== *)
(** ** The rest of the model and of the factory *)
(* ===================================================================== *)

Module Str.

(** ['*'.repeat(n)] *)
Fixpoint stars (n : nat) : string :=
  match n with
  | O => ""
  | S n' => String "*" (stars n')
  end.

(** [s.substring(from, to)] for [from <= to <= s.length]. *)
Definition substring (from to : nat) (s : string) : string :=
  String.substring from (to - from) s.

End Str.

(** [doc.apiKey] as a handler or a method reads it: [undefined] unless
    the path was selected. *)
Definition apiKey_of (doc : Document) : option string :=
  if apiKey_selected doc then Some (apiKey (fields doc)) else None.

(** The instance method [maskApiKey] of the schema. *)
Definition maskApiKey (doc : Document) : string :=
  if negb (Js.truthy_opt (apiKey_of doc)) then ""
  else
    let key := Js.or_str (apiKey_of doc) "" in
    if (String.length key <=? 8)%nat then Str.stars (String.length key)
    else Str.substring 0 4 key
         ++ Str.stars (String.length key - 8)
         ++ Str.substring (String.length key - 4) (String.length key) key.

(** The static method [findActiveIntegrations] of the schema. *)
Definition findActiveIntegrations (provider : option string) : M (list Document) :=
  ESPIntegrationModel.find (if Js.truthy_opt provider then provider else None).

(** The status of a response. *)
Definition status_of {A} (r : HttpResponse A) : Z :=
  match r with
  | Success status _ => status
  | Failure status _ => status
  end.

(** The body the error middleware sends for an error that is no
    [AppError] and has no name it knows: the fixed code and message, and
    details only outside production. *)
Definition internal_error (env : Env) (body : ErrorBody) : Prop :=
  error_code body = "INTERNAL_ERROR"
  /\ error_message body = "Internal server error"
  /\ (production env = true -> error_details body = None).

(** A computation that sends at most [n] requests and forgets none. *)
Definition sends_at_most {A} (n : nat) (m : M A) : Prop :=
  forall w, exists extra,
    sent (snd (m w)) = (sent w ++ extra)%list /\ List.length extra <= n.

(** What a handler never changes in a stored record. *)
Definition identity_of (d : ESPIntegration) : nat * string * nat :=
  (_id d, provider d, createdAt d).

Definition credential_of (d : ESPIntegration) : string * option string :=
  (apiKey d, dataCenter d).

(** A stored record as the create-or-verify handler leaves one: its key
    has the format of its provider, its data center is the one derived
    from the key, and it has been verified. *)
Definition record_ok (d : ESPIntegration) : Prop :=
  ESPServiceFactory.validateApiKeyFormat (provider d) (apiKey d) = true
  /\ dataCenter d = submitted_dataCenter (provider d) (apiKey d)
  /\ lastVerified d <> None.

(** A world the handlers can reach: distinct ids, all below the next
    fresh one, and every record as the create-or-verify handler leaves
    it. *)
Definition consistent (w : World) : Prop :=
  NoDup (map _id (store w))
  /\ forall d, In d (store w) -> _id d < next_id w /\ record_ok d.

(** No separator at all in [s]. *)
Definition no_sep (sep : ascii) (s : string) : Prop :=
  Re.all (not_sep sep) s = true.

(** A mailing list as an adapter hands it out: of the adapter's own
    variant, with the defaults applied (a member count that is a truthy
    value or 0, a description that is a truthy value or the empty
    string). *)
Definition well_shaped (service : Service) (l : MailingList) : Prop :=
  match service, l with
  | Mailchimp _, MailchimpList _ _ memberCount _ _ =>
      memberCount = JNum "0" \/ Js.truthy memberCount = true
  | GetResponse _, GetResponseList _ _ description _ =>
      description = JStr "" \/ Js.truthy description = true
  | _, _ => False
  end.

(** What [getListById] completes with, given the upstream's answer. *)
Definition list_of_answer (service : Service) (o : Outcome) : Completion MailingList :=
  match o with
  | Fulfilled _ data =>
      if readable data
      then Return (match service with
                   | Mailchimp _ => mailchimp_list_of data
                   | GetResponse _ => getresponse_list_of data
                   end)
      else Throw TypeError
  | Rejected error => Throw (rejection (translate service error))
  end.

(** A response whose status is one of [ok] when it succeeds and one of
    [failing] when it fails, a 500 carrying the fixed internal-error body
    and no other failure any details. *)
Definition answers (env : Env) {A} (r : HttpResponse A) (ok failing : list Z) : Prop :=
  match r with
  | Success status _ => In status ok
  | Failure status body =>
      In status failing
      /\ (status = 500%Z -> internal_error env body)
      /\ (status <> 500%Z -> error_details body = None)
  end.

(** The failure the error middleware answers a malformed id with. *)
Definition INVALID_ID : ErrorBody :=
  {| error_code := "INVALID_ID";
     error_message := "Invalid ID format";
     error_details := None |}.

(* ===================================================================== *)
(** ** Scenarios: concrete environments and worlds *)
(* ===================================================================== *)

(** An upstream that gives every request the same answer, over a
    database whose writes go through. *)
Definition always (answer : Outcome) : Env :=
  {| upstream := fun _ _ => answer;
     db_write_ok := fun _ => true;
     production := false;
     runtime_message := fun name _ => name;
     stack_of := fun _ => "" |}.

Definition empty_world : World :=
  {| store := []; sent := []; writes := 0; clock := 7; next_id := 0 |}.

Definition mailchimp_client : MailchimpService.t :=
  {| MailchimpService.key := "aaaaaaaaaaaaaaaaaaaaaaaaaaaaaaaa-us10";
     MailchimpService.dc := "us10" |}.

Definition getresponse_client : GetResponseService.t :=
  {| GetResponseService.key := "abcdefghij0123456789" |}.

(** Two records as a keyed mapping and as an array. *)
Definition two_records : list JsVal :=
  [JObj [("id", JStr "a1"); ("campaignId", JStr "a1"); ("name", JStr "News")];
   JObj [("id", JStr "b2"); ("campaignId", JStr "b2"); ("name", JStr "Offers");
         ("description", JStr "weekly"); ("stats", JObj [("member_count", JNum "12")])]].



Definition mailchimp_array : Env :=
  always (Fulfilled 200 (JObj [("total_items", JNum "2"); ("lists", JArr two_records)])).


(** An upstream that accepts every credential. *)
Definition accepting : Env :=
  always (Fulfilled 200 (JObj [("account_name", JStr "Acme"); ("email", JStr "ops@acme.test");
                               ("accountId", JStr "u1")])).

Definition stored_mailchimp : ESPIntegration :=
  {| _id := 0; provider := "mailchimp";
     apiKey := "aaaaaaaaaaaaaaaaaaaaaaaaaaaaaaaa-us10"; dataCenter := Some "us10";
     isActive := true; lastVerified := Some 3; createdAt := 3; updatedAt := 3 |}.

Definition stored_getresponse : ESPIntegration :=
  {| _id := 1; provider := "getresponse";
     apiKey := "abcdefghij0123456789"; dataCenter := None;
     isActive := true; lastVerified := Some 4; createdAt := 4; updatedAt := 4 |}.

Definition two_integrations : World :=
  {| store := [stored_mailchimp; stored_getresponse];
     sent := []; writes := 2; clock := 7; next_id := 2 |}.

(** An accepting upstream over a database that refuses every write. *)
Definition unwritable : Env :=
  {| upstream := upstream accepting;
     db_write_ok := fun _ => false;
     production := false;
     runtime_message := fun _ _ => "connection closed";
     stack_of := fun _ => "" |}.

(** Mailchimp rejects the key, GetResponse lists two campaigns. *)
Definition mailchimp_down : Env :=
  {| upstream := fun _ req =>
                   match endpoint req with
                   | GetCampaigns => Fulfilled 200 (JArr two_records)
                   | _ => Rejected {| response := Some (401%Z, JNull); errcode := None |}
                   end;
     db_write_ok := fun _ => true;
     production := false;
     runtime_message := fun name _ => name;
     stack_of := fun _ => "" |}.

(** What the aggregate fetch answers over [two_integrations] when
    Mailchimp is down: one error marker and the two GetResponse lists. *)
Definition partial_listing : ListsData :=
  {| lists := [FetchFailed "mailchimp" 0 "Failed to fetch lists from this provider";
               Listed (GetResponseList (JStr "a1") (JStr "News") (JStr "") JUndefined)
                 "getresponse" 1;
               Listed (GetResponseList (JStr "b2") (JStr "Offers") (JStr "weekly") JUndefined)
                 "getresponse" 1];
     ld_totalCount := 3;
     providers := ["mailchimp"; "getresponse"] |}.

Definition partial_world : World :=
  {| store := store two_integrations;
     sent := [MailchimpService.request mailchimp_client GetListsTotal;
              GetResponseService.request getresponse_client GetCampaigns];
     writes := 2; clock := 7; next_id := 2 |}.

(** A GetResponse upstream that refuses every request with status 400
    and quotes the token it was sent in its message. *)
Definition echoing : Env :=
  {| upstream := fun _ req =>
                   Rejected {| response :=
                                 Some (400%Z,
                                       JObj [("message",
                                              JStr ("Invalid token: " ++ snd (authHeader req)))]);
                               errcode := None |};
     db_write_ok := fun _ => true;
     production := false;
     runtime_message := fun name _ => name;
     stack_of := fun _ => "" |}.

(** A Mailchimp upstream that refuses every request with status 500 and
    an error body whose [detail] is an object with a member [toString]. *)
Definition garbled : Env :=
  always (Rejected {| response :=
                        Some (500%Z, JObj [("detail", JObj [("toString", JStr "x")])]);
                      errcode := None |}).

(** An upstream that rejects every credential with status 401. *)
Definition rejecting : Env :=
  always (Rejected {| response := Some (401%Z, JNull); errcode := None |}).

(* ===================================================================== *)
(** ** Examples *)
(* ===================================================================== *)

Example split_two : Js.split "-" "abc-us10" = ["abc"; "us10"].
Proof. reflexivity. Qed.

Example split_none : Js.split "-" "abcus10" = ["abcus10"].
Proof. reflexivity. Qed.

Example split_three : Js.split "-" "a-b-" = ["a"; "b"; ""].
Proof. reflexivity. Qed.

Example toString_arr :
  Js.toString (JArr [JNum "12"; JNull; JStr "x"; JArr []; JObj []; JNum "-3"; JNum "1e+21"])
  = Return "12,,x,,[object Object],-3,1e+21".
Proof. reflexivity. Qed.

(** An object with a member [toString] has no conversion to a string,
    nor has an array that holds one. *)
Example toString_throws :
  Js.toString (JObj [("toString", JStr "x")]) = Throw TypeError
  /\ Js.toString (JArr [JStr "a"; JObj [("toString", JNull)]]) = Throw TypeError
  /\ Js.toString (JObj [("valueOf", JStr "x")]) = Return "[object Object]".
Proof. repeat split. Qed.

Example set_of_ex : Js.set_of [] ["a"; "b"; "a"; "c"; "b"] = ["a"; "b"; "c"].
Proof. reflexivity. Qed.

Example mailchimp_key_ok :
  ESPServiceFactory.validateApiKeyFormat "mailchimp" "aaaaaaaaaaaaaaaaaaaaaaaaaaaaaaaa-us10" = true.
Proof. reflexivity. Qed.

Example mailchimp_key_short :
  ESPServiceFactory.validateApiKeyFormat "mailchimp" "aaaaaaaaaaaaaaaaaaaaaaaaaaaaaaa-us10" = false.
Proof. reflexivity. Qed.

Example mailchimp_key_no_digits :
  ESPServiceFactory.validateApiKeyFormat "mailchimp" "aaaaaaaaaaaaaaaaaaaaaaaaaaaaaaaa-us" = false.
Proof. reflexivity. Qed.

Example getresponse_key_short :
  ESPServiceFactory.validateApiKeyFormat "getresponse" "short" = false.
Proof. reflexivity. Qed.

Example getresponse_key_ok :
  ESPServiceFactory.validateApiKeyFormat "getresponse" "abcdefghij0123456789XYZ" = true.
Proof. reflexivity. Qed.

Example extract_region :
  ESPServiceFactory.extractDataCenterFromMailchimpKey "aaaaaaaaaaaaaaaaaaaaaaaaaaaaaaaa-us10"
  = Some "us10".
Proof. reflexivity. Qed.

(** The first submission for a provider answers 201 and stores an active
    record with the region of the key and a verification timestamp. *)
Example first_submission_created :
  IntegrationController.createESPIntegration accepting "mailchimp"
    "aaaaaaaaaaaaaaaaaaaaaaaaaaaaaaaa-us10" empty_world
  = (Return (201%Z,
             {| cd_id := 0; cd_provider := "mailchimp"; cd_dataCenter := Some "us10";
                cd_isActive := true; cd_lastVerified := Some 7;
                cd_createdAt := 7; cd_updatedAt := 7;
                cd_accountInfo :=
                  Some (JObj [("accountName", JStr "Acme"); ("email", JStr "ops@acme.test");
                              ("role", JUndefined); ("accountId", JUndefined)]) |}),
     {| store := [{| _id := 0; provider := "mailchimp";
                     apiKey := "aaaaaaaaaaaaaaaaaaaaaaaaaaaaaaaa-us10";
                     dataCenter := Some "us10"; isActive := true;
                     lastVerified := Some 7; createdAt := 7; updatedAt := 7 |}];
        sent := [MailchimpService.request mailchimp_client GetRoot];
        writes := 1; clock := 7; next_id := 1 |}).
Proof. reflexivity. Qed.

(** A second submission for the same provider answers 200 with the id of
    the stored record and replaces its key and region in place. *)
Example second_submission_updated :
  let r := IntegrationController.createESPIntegration accepting "mailchimp"
             "bbbbbbbbbbbbbbbbbbbbbbbbbbbbbbbb-us7" two_integrations in
  (exists data, fst r = Return (200%Z, data) /\ cd_id data = 0 /\ cd_dataCenter data = Some "us7")
  /\ map _id (store (snd r)) = [0; 1]
  /\ map apiKey (store (snd r))
     = ["bbbbbbbbbbbbbbbbbbbbbbbbbbbbbbbb-us7"; "abcdefghij0123456789"].
Proof. split; [eexists; repeat split | split; reflexivity]. Qed.

(** A short GetResponse key is refused with status 400 and nothing is
    stored. *)
Example short_key_refused :
  asyncHandler accepting
    (IntegrationController.createESPIntegration accepting "getresponse" "short") empty_world
  = (Failure 400 {| error_code := "INVALID_API_KEY_FORMAT";
                    error_message := "Invalid getresponse API key format";
                    error_details := None |},
     empty_world).
Proof. reflexivity. Qed.

(** Two active integrations, Mailchimp down: the call succeeds with one
    error marker for Mailchimp and the lists of GetResponse. *)
Example aggregate_with_one_failure :
  asyncHandler mailchimp_down
    (IntegrationController.getESPLists mailchimp_down None) two_integrations
  = (Success 200 partial_listing, partial_world).
Proof. reflexivity. Qed.

(** An unknown provider in the filter is refused before any lookup. *)
Example aggregate_unknown_provider :
  fst (IntegrationController.getESPLists accepting (Some "sendgrid") two_integrations)
  = Throw (AppErr INVALID_PROVIDER).
Proof. reflexivity. Qed.

(** No active record at all: 404. *)
Example aggregate_no_integrations :
  asyncHandler accepting (IntegrationController.getESPLists accepting None) empty_world
  = (Failure 404 {| error_code := "NO_INTEGRATIONS";
                    error_message := "No active integrations found";
                    error_details := None |},
     empty_world).
Proof. reflexivity. Qed.

(** A deactivated record is kept in the collection, no longer listed,
    and can no longer be re-tested. *)
Example deactivated_record :
  let w := snd (IntegrationController.deleteIntegration accepting 0 two_integrations) in
  map _id (store w) = [0; 1]
  /\ map isActive (store w) = [false; true]
  /\ (exists data,
        fst (IntegrationController.getIntegrations accepting w) = Return (200%Z, data)
        /\ map (fun doc => _id (fields doc)) (integrations data) = [1])
  /\ fst (IntegrationController.testIntegration accepting 0 w)
     = Throw (AppErr (INTEGRATION_NOT_FOUND "Integration not found or inactive"))
  /\ fst (IntegrationController.testIntegration accepting 5 w)
     = Throw (AppErr (INTEGRATION_NOT_FOUND "Integration not found or inactive")).
Proof. repeat split. eexists. split; reflexivity. Qed.

(** An id that is no ObjectId is refused by the query itself, and the
    error middleware answers 400. *)
Example malformed_id_refused :
  asyncHandler accepting
    (IntegrationController.deleteIntegration accepting (Malformed "abc")) two_integrations
  = (Failure 400 {| error_code := "INVALID_ID";
                    error_message := "Invalid ID format";
                    error_details := None |},
     two_integrations).
Proof. reflexivity. Qed.

(** Re-testing at the very time of the last verification saves nothing:
    it answers 200 even over a database that refuses every write. *)
Example retest_same_instant :
  let w := {| store := store two_integrations; sent := []; writes := 2;
              clock := 4; next_id := 2 |} in
  IntegrationController.testIntegration unwritable 1 w
  = (Return (200%Z,
             {| td_isValid := true; td_provider := "getresponse"; td_error := None;
                td_accountInfo :=
                  Some (JObj [("accountId", JStr "u1"); ("email", JStr "ops@acme.test");
                              ("firstName", JUndefined); ("lastName", JUndefined);
                              ("phone", JUndefined); ("state", JUndefined);
                              ("zipCode", JUndefined)]);
                td_lastVerified := Some 4 |}),
     push_sent w (GetResponseService.request getresponse_client GetAccounts)).
Proof. reflexivity. Qed.
(* ===================================================================== *)
(** ** Conversion to a string *)
(* ===================================================================== *)

Section Values.

Variable P : JsVal -> Prop.

Hypothesis on_undefined : P JUndefined.
Hypothesis on_null : P JNull.
Hypothesis on_bool : forall b, P (JBool b).
Hypothesis on_num : forall text, P (JNum text).
Hypothesis on_str : forall s, P (JStr s).
Hypothesis on_arr : forall items, Forall P items -> P (JArr items).
Hypothesis on_obj : forall props, Forall (fun kv => P (snd kv)) props -> P (JObj props).

(** Induction on a value that reaches the elements of its arrays and
    the members of its objects. *)
Lemma JsVal_nested_ind : forall v : JsVal, P v.
Proof.
  fix IH 1. intros [| |b|text|s|items|props].
  - exact on_undefined.
  - exact on_null.
  - apply on_bool.
  - apply on_num.
  - apply on_str.
  - apply on_arr. induction items as [|x items IHitems]; constructor; [apply IH | exact IHitems].
  - apply on_obj. induction props as [|kv props IHprops]; constructor;
      [apply IH | exact IHprops].
Qed.

End Values.

Lemma hasOwn_In (k : string) (props : list (string * JsVal)) :
  Js.hasOwn k props = true <-> In k (map fst props).
Proof.
  unfold Js.hasOwn. rewrite existsb_exists. split.
  - intros [kv [Hin E]]. apply String.eqb_eq in E. subst k. now apply in_map.
  - intros H. apply in_map_iff in H as [kv [<- Hin]].
    exists kv. split; [exact Hin | apply String.eqb_refl].
Qed.

Lemma parts_convert (items : list JsVal) :
  Forall converts items ->
  let part := fun x => match x with
                       | JUndefined | JNull => Return ""
                       | _ => Js.toString x
                       end in
  ((exists x, In x items /\ unprintable x) /\ cmap part items = Throw TypeError)
  \/ ((forall x, In x items -> ~ unprintable x) /\ exists parts, cmap part items = Return parts).
Proof.
  intros H part. induction H as [|x items Hx _ IH].
  - right. split; [intros x [] | now exists []].
  - assert (Hpart : (unprintable x /\ part x = Throw TypeError)
                    \/ (~ unprintable x /\ exists s, part x = Return s)).
    { destruct x; try exact Hx; right;
        (split; [intros U; inversion U | now exists ""]). }
    cbn [cmap]. destruct Hpart as [[U ->]|[N [p ->]]].
    + left. split; [|reflexivity]. exists x. split; [now left | exact U].
    + cbn [cbind]. destruct IH as [[[y [Hin U]] ->]|[N' [ps ->]]].
      * left. split; [|reflexivity]. exists y. split; [now right | exact U].
      * right. split; [|now eexists].
        intros y [<-|Hin]; [exact N | now apply N'].
Qed.

(** A value converts to a string unless it is unprintable, and then the
    conversion throws a TypeError. *)
Lemma toString_converts (v : JsVal) : converts v.
Proof.
  induction v using JsVal_nested_ind;
    try (right; split; [intros U; inversion U | eexists; reflexivity]).
  - destruct b; right; (split; [intros U; inversion U | eexists; reflexivity]).
  - cbn [Js.toString].
    destruct (parts_convert H) as [[[x [Hin U]] E]|[N [parts E]]].
    + left. split; [eapply unprintable_array; eassumption|].
      cbn [Js.toString]. now rewrite E.
    + right. split.
      * intros U. inversion U as [|items' x Hin Ux]; subst. now apply (N x).
      * exists (Js.join "," parts). cbn [Js.toString]. now rewrite E.
  - unfold converts. cbn [Js.toString]. destruct (Js.hasOwn "toString" props) eqn:E.
    + left. split; [|reflexivity]. constructor. now apply hasOwn_In.
    + right. split; [|now eexists].
      intros U. inversion U as [props' Hin|]; subst.
      apply hasOwn_In in Hin. congruence.
Qed.

Lemma toString_throws_TypeError (v : JsVal) (e : Exn) :
  Js.toString v = Throw e -> e = TypeError /\ unprintable v.
Proof.
  intros H. destruct (toString_converts v) as [[U E]|[_ [s E]]]; rewrite E in H.
  - injection H as <-. now split.
  - discriminate.
Qed.

Lemma toString_returns (v : JsVal) :
  ~ unprintable v -> exists s, Js.toString v = Return s.
Proof.
  intros N. destruct (toString_converts v) as [[U _]|[_ H]]; [contradiction | exact H].
Qed.

Lemma unprintable_truthy (v : JsVal) : unprintable v -> Js.truthy v = true.
Proof. intros U. destruct U; reflexivity. Qed.

(* ===================================================================== *)
(** ** The adapters: error translation *)
(* ===================================================================== *)

Section Adapters.

Variable env : Env.

Lemma http_get_run (tr : AxiosError -> Completion AppError) (req : Request) (w : World) :
  http_get env tr req w =
  (match upstream env (sent w) req with
   | Fulfilled _ data => Return data
   | Rejected error => Throw (rejection (tr error))
   end, push_sent w req).
Proof.
  unfold http_get. destruct (upstream env (sent w) req); reflexivity.
Qed.

Lemma get_readable (v : JsVal) (k : string) :
  readable v = true -> Js.get v k = Return (Js.get_opt v k).
Proof. destruct v; simpl; intros H; try discriminate; reflexivity. Qed.

Lemma get_unreadable (v : JsVal) (k : string) :
  readable v = false -> Js.get v k = Throw TypeError.
Proof. destruct v; simpl; intros H; try discriminate; reflexivity. Qed.

Lemma new_AppError_str (text : string) (status : Z) (c : string) :
  new_AppError (JStr text) status c
  = Return {| message := text; statusCode := status; code := c |}.
Proof. reflexivity. Qed.

(** The error built from an upstream message, or the TypeError of a
    message that has no conversion. *)
Lemma new_AppError_or (msg : JsVal) (default : string) (status : Z) (c : string) :
  match new_AppError (Js.or msg (JStr default)) status c with
  | Return a =>
      statusCode a = status /\ code a = c
      /\ Js.toString (Js.or msg (JStr default)) = Return (message a)
      /\ (forall s, msg = JStr s -> s <> "" -> message a = s)
      /\ (Js.truthy msg = false -> message a = default)
  | Throw e => e = TypeError /\ unprintable msg
  end.
Proof.
  unfold new_AppError.
  destruct (Js.toString (Js.or msg (JStr default))) as [text|e] eqn:E; cbn [cbind].
  - repeat split.
    + intros s -> Hs. unfold Js.or in E. cbn [Js.truthy] in E.
      destruct (s =? "") eqn:Es; [apply String.eqb_eq in Es; contradiction|].
      cbn in E. now injection E.
    + intros Hf. unfold Js.or in E. rewrite Hf in E. cbn in E. now injection E.
  - apply toString_throws_TypeError in E as [-> U]. split; [reflexivity|].
    unfold Js.or in U. destruct (Js.truthy msg); [exact U | inversion U].
Qed.

Ltac fixed_case :=
  rewrite new_AppError_str; cbv zeta; cbn;
  repeat split; try reflexivity; try discriminate; intros; congruence.

(** The translation, case by case of the table. *)
Lemma translate_table (service : Service) (error : AxiosError) :
  let k := kind_table (has_bad_request service) error in
  match translate service error with
  | Return a =>
      kind_of (tag service) a = Some k
      /\ (forall status data, response error = Some (status, data) -> statusCode a = status)
      /\ (response error = None -> Some (statusCode a) = fixed_status k)
      /\ (forall text, failure_text service k = Some text -> message a = text)
      /\ (failure_text service k = None ->
          forall status data,
            response error = Some (status, data) ->
            Js.toString (Js.or (upstream_message service data)
                           (JStr (default_text service k))) = Return (message a)
            /\ (forall s, upstream_message service data = JStr s -> s <> "" -> message a = s)
            /\ (Js.truthy (upstream_message service data) = false ->
                message a = default_text service k))
  | Throw e =>
      e = TypeError
      /\ failure_text service k = None
      /\ exists status data,
           response error = Some (status, data)
           /\ unprintable (upstream_message service data)
  end.
Proof.
  destruct service as [svc|svc]; cbn [translate tag has_bad_request];
    unfold MailchimpService.handleApiError, GetResponseService.handleApiError, kind_table;
    destruct (response error) as [[status data]|] eqn:R.
  - destruct (status =? 401)%Z eqn:E1;
      [apply Z.eqb_eq in E1; subst; fixed_case|].
    destruct (status =? 404)%Z eqn:E2;
      [apply Z.eqb_eq in E2; subst; fixed_case|].
    destruct (status =? 429)%Z eqn:E3;
      [apply Z.eqb_eq in E3; subst; fixed_case|].
    cbn [andb].
    pose proof (new_AppError_or (Js.get_opt data "detail") "Mailchimp API error"
                  status "MAILCHIMP_API_ERROR") as H.
    destruct (new_AppError _ status "MAILCHIMP_API_ERROR") as [a|e].
    + destruct H as (Hs & Hc & Ht & Hstr & Hdef).
      split; [unfold kind_of; rewrite Hc; reflexivity|].
      split; [intros st d Hr; congruence|].
      split; [discriminate|].
      split; [discriminate|].
      intros _ st d Hr. injection Hr as <- <-. cbn [upstream_message default_text].
      repeat split; assumption.
    + destruct H as [-> U]. repeat split. exists status, data. now split.
  - destruct (Js.is_string (errcode error) "ECONNABORTED"); fixed_case.
  - destruct (status =? 401)%Z eqn:E1;
      [apply Z.eqb_eq in E1; subst; fixed_case|].
    destruct (status =? 404)%Z eqn:E2;
      [apply Z.eqb_eq in E2; subst; fixed_case|].
    destruct (status =? 429)%Z eqn:E3;
      [apply Z.eqb_eq in E3; subst; fixed_case|].
    cbn [andb].
    destruct (status =? 400)%Z eqn:E4.
    + apply Z.eqb_eq in E4. subst status.
      pose proof (new_AppError_or (Js.get_opt data "message") "Bad request to GetResponse API"
                    400 "GETRESPONSE_BAD_REQUEST") as H.
      destruct (new_AppError _ 400%Z "GETRESPONSE_BAD_REQUEST") as [a|e].
      * destruct H as (Hs & Hc & Ht & Hstr & Hdef).
        split; [unfold kind_of; rewrite Hc; reflexivity|].
        split; [intros st d Hr; congruence|].
        split; [discriminate|].
        split; [discriminate|].
        intros _ st d Hr. injection Hr as <- <-. cbn [upstream_message default_text].
        repeat split; assumption.
      * destruct H as [-> U]. repeat split. exists 400%Z, data. now split.
    + pose proof (new_AppError_or (Js.get_opt data "message") "GetResponse API error"
                    status "GETRESPONSE_API_ERROR") as H.
      destruct (new_AppError _ status "GETRESPONSE_API_ERROR") as [a|e].
      * destruct H as (Hs & Hc & Ht & Hstr & Hdef).
        split; [unfold kind_of; rewrite Hc; reflexivity|].
        split; [intros st d Hr; congruence|].
        split; [discriminate|].
        split; [discriminate|].
        intros _ st d Hr. injection Hr as <- <-. cbn [upstream_message default_text].
        repeat split; assumption.
      * destruct H as [-> U]. repeat split. exists status, data. now split.
  - destruct (Js.is_string (errcode error) "ECONNABORTED"); fixed_case.
Qed.

Lemma translate_throws (service : Service) (error : AxiosError) (e : Exn) :
  translate service error = Throw e -> e = TypeError.
Proof.
  intros H. pose proof (translate_table service error) as T.
  cbv zeta in T. rewrite H in T. tauto.
Qed.

Lemma rejection_adapter_exn (service : Service) (error : AxiosError) :
  adapter_exn service (rejection (translate service error)).
Proof.
  destruct (translate service error) as [a|e] eqn:E; cbn [rejection].
  - left. now exists error, a.
  - right. eapply translate_throws; eauto.
Qed.

Lemma cmap_exn {A B} (f : A -> Completion B) (xs : list A) (e : Exn) :
  (forall x e', f x = Throw e' -> e' = TypeError) ->
  cmap f xs = Throw e -> e = TypeError.
Proof.
  intros Hf. induction xs as [|x xs IH]; simpl; [discriminate|].
  unfold cbind. destruct (f x) eqn:Hx.
  - destruct (cmap f xs); [discriminate|].
    intros H. injection H as <-. now apply IH.
  - intros H. injection H as <-. eauto.
Qed.

Lemma get_exn (v : JsVal) (k : string) (e : Exn) :
  Js.get v k = Throw e -> e = TypeError.
Proof. destruct v; simpl; intros H; try discriminate; now injection H. Qed.

Lemma mailchimp_toList_exn (v : JsVal) (e : Exn) :
  MailchimpService.toList v = Throw e -> e = TypeError.
Proof.
  unfold MailchimpService.toList. destruct (readable v) eqn:R.
  - rewrite !get_readable by assumption. simpl. discriminate.
  - rewrite get_unreadable by assumption. simpl. intros H. now injection H.
Qed.

Lemma getresponse_toList_exn (v : JsVal) (e : Exn) :
  GetResponseService.toList v = Throw e -> e = TypeError.
Proof.
  unfold GetResponseService.toList. destruct (readable v) eqn:R.
  - rewrite !get_readable by assumption. simpl. discriminate.
  - rewrite get_unreadable by assumption. simpl. intros H. now injection H.
Qed.

Lemma getLists_exn (service : Service) (w : World) (e : Exn) :
  fst (getLists env service w) = Throw e -> adapter_exn service e.
Proof.
  destruct service as [svc|svc]; simpl.
  - unfold MailchimpService.getLists, try_catch, bind, MailchimpService.get, lift, throw.
    rewrite http_get_run.
    destruct (upstream env (sent w) _) as [st countData|err]; simpl.
    + destruct (Js.get countData "total_items") as [totalItems|e1] eqn:G1; simpl.
      * rewrite http_get_run.
        destruct (upstream env _ _) as [st' data|err]; simpl.
        -- destruct (Js.get data "lists") as [ls|e2] eqn:G2; simpl.
           ++ destruct (Js.mapArray ls MailchimpService.toList) as [r|e3] eqn:G3; simpl.
              ** discriminate.
              ** intros H. injection H as <-. right.
                 destruct ls; simpl in G3; try (now injection G3).
                 eapply cmap_exn; [|exact G3]. apply mailchimp_toList_exn.
           ++ intros H. injection H as <-. right. eapply get_exn; eauto.
        -- intros H. injection H as <-.
           apply (rejection_adapter_exn (Mailchimp svc)).
      * intros H. injection H as <-. right. eapply get_exn; eauto.
    + intros H. injection H as <-. apply (rejection_adapter_exn (Mailchimp svc)).
  - unfold GetResponseService.getLists, try_catch, bind, GetResponseService.get, lift, throw.
    rewrite http_get_run.
    destruct (upstream env (sent w) _) as [st data|err]; simpl.
    + destruct (GetResponseService.records data) as [cs|e1] eqn:G1; simpl.
      * destruct (cmap GetResponseService.toList cs) as [r|e2] eqn:G2; simpl.
        -- discriminate.
        -- intros H. injection H as <-. right.
           eapply cmap_exn; [|exact G2]. apply getresponse_toList_exn.
      * intros H. injection H as <-. right.
        destruct data; simpl in G1; try discriminate; now injection G1.
    + intros H. injection H as <-. apply (rejection_adapter_exn (GetResponse svc)).
Qed.

Lemma mailchimp_getListById_exn (svc : MailchimpService.t) (listId : string)
    (w : World) (e : Exn) :
  fst (MailchimpService.getListById env svc listId w) = Throw e ->
  adapter_exn (Mailchimp svc) e.
Proof.
  unfold MailchimpService.getListById, try_catch, bind, MailchimpService.get, lift, throw.
  rewrite http_get_run.
  destruct (upstream env (sent w) _) as [st data|err]; simpl.
  - destruct (MailchimpService.toList data) eqn:T; simpl; [discriminate|].
    intros H. injection H as <-. right. eapply mailchimp_toList_exn; eauto.
  - intros H. injection H as <-. apply (rejection_adapter_exn (Mailchimp svc)).
Qed.

Lemma getresponse_getListById_exn (svc : GetResponseService.t) (campaignId : string)
    (w : World) (e : Exn) :
  fst (GetResponseService.getListById env svc campaignId w) = Throw e ->
  adapter_exn (GetResponse svc) e.
Proof.
  unfold GetResponseService.getListById, try_catch, bind, GetResponseService.get, lift, throw.
  rewrite http_get_run.
  destruct (upstream env (sent w) _) as [st data|err]; simpl.
  - destruct (GetResponseService.toList data) eqn:T; simpl; [discriminate|].
    intros H. injection H as <-. right. eapply getresponse_toList_exn; eauto.
  - intros H. injection H as <-. apply (rejection_adapter_exn (GetResponse svc)).
Qed.

End Adapters.

(** The GetResponse adapter singles out status 400: the translated error
    is tagged [GETRESPONSE_BAD_REQUEST], not [GETRESPONSE_API_ERROR]. *)
Lemma getresponse_400_bad_request :
  let error := {| response := Some (400%Z, JObj [("message", JStr "Invalid query")]);
                  errcode := None |} in
  GetResponseService.handleApiError error
  = Return {| message := "Invalid query"; statusCode := 400;
              code := "GETRESPONSE_BAD_REQUEST" |}
  /\ MailchimpService.handleApiError error
     = Return {| message := "Mailchimp API error"; statusCode := 400;
                 code := "MAILCHIMP_API_ERROR" |}
  /\ kind_table true error = BadRequest
  /\ kind_table false error = ProviderError.
Proof. repeat split. Qed.

(** C8, as stated, fails: a call path of an adapter can end in a raw,
    untranslated failure. The Mailchimp upstream answers both requests of
    [getLists] with status 200 and an empty object; reading [lists] gives
    [undefined], whose [map] is a TypeError that [getLists] rethrows as it
    is: neither a success value nor one of the named kinds. The same
    happens on a rejected request when the error body has a [detail] that
    has no conversion to a string: the translation itself throws. *)
Lemma getLists_raw_failure :
  upstream (always (Fulfilled 200 (JObj []))) []
    (MailchimpService.request mailchimp_client GetListsTotal)
  = Fulfilled 200 (JObj [])
  /\ fst (getLists (always (Fulfilled 200 (JObj []))) (Mailchimp mailchimp_client) empty_world)
     = Throw TypeError
  /\ fst (getLists garbled (Mailchimp mailchimp_client) empty_world) = Throw TypeError
  /\ (forall appError, TypeError <> AppErr appError).
Proof. repeat split; discriminate. Qed.

(** C8 (amended): the translation of a rejected upstream request follows
    the same table in both adapters: status 401 gives Unauthorized, 404
    NotFound, 429 RateLimited, for GetResponse 400 gives BadRequest, any
    other status ProviderError; with no response, ECONNABORTED gives
    Timeout (408) and anything else ServiceUnavailable (503). The
    translated error carries the upstream status when there is one; the
    failures the adapter words itself carry its fixed text; a provider
    error and a bad request carry the upstream message converted to a
    string, or a default text when there is none. The translation throws
    only a TypeError, and only for a provider error or a bad request whose
    upstream message has no conversion to a string; otherwise it returns.
    Whatever [getLists] or [getListById] throws is a translated error or a
    TypeError. *)
Theorem error_translation_total :
  forall (env : Env) (service : Service) (w : World) (error : AxiosError),
    let k := kind_table (has_bad_request service) error in
    match translate service error with
    | Return appError =>
        kind_of (tag service) appError = Some k
        /\ (forall status data,
               response error = Some (status, data) -> statusCode appError = status)
        /\ (response error = None -> Some (statusCode appError) = fixed_status k)
        /\ (forall text, failure_text service k = Some text -> message appError = text)
        /\ (failure_text service k = None ->
            forall status data,
              response error = Some (status, data) ->
              Js.toString (Js.or (upstream_message service data)
                             (JStr (default_text service k))) = Return (message appError)
              /\ (forall s, upstream_message service data = JStr s -> s <> "" ->
                            message appError = s)
              /\ (Js.truthy (upstream_message service data) = false ->
                  message appError = default_text service k))
    | Throw e =>
        e = TypeError
        /\ (k = ProviderError \/ k = BadRequest)
        /\ exists status data,
             response error = Some (status, data)
             /\ unprintable (upstream_message service data)
    end
    /\ ((forall status data,
            response error = Some (status, data) ->
            ~ unprintable (upstream_message service data)) ->
        exists appError, translate service error = Return appError)
    /\ match fst (getLists env service w) with
       | Return _ => True
       | Throw e => adapter_exn service e
       end
    /\ (forall id,
           match service with
           | Mailchimp svc =>
               match fst (MailchimpService.getListById env svc id w) with
               | Return _ => True
               | Throw e => adapter_exn service e
               end
           | GetResponse svc =>
               match fst (GetResponseService.getListById env svc id w) with
               | Return _ => True
               | Throw e => adapter_exn service e
               end
           end).
Proof.
  intros env service w error k.
  pose proof (translate_table service error) as T. cbv zeta in T. fold k in T.
  split; [|split; [|split]].
  - destruct (translate service error) as [a|e]; [exact T|].
    destruct T as (-> & Hnone & Hex). split; [reflexivity|]. split; [|exact Hex].
    destruct k; try discriminate Hnone; auto.
  - intros Hprint. destruct (translate service error) as [a|e]; [now exists a|].
    destruct T as (_ & _ & status & data & Hr & U). exfalso. exact (Hprint _ _ Hr U).
  - destruct (fst (getLists env service w)) eqn:G; [exact I|].
    eapply getLists_exn; eauto.
  - intros id. destruct service as [svc|svc].
    + destruct (fst (MailchimpService.getListById env svc id w)) eqn:G; [exact I|].
      eapply mailchimp_getListById_exn; eauto.
    + destruct (fst (GetResponseService.getListById env svc id w)) eqn:G; [exact I|].
      eapply getresponse_getListById_exn; eauto.
Qed.

(* ===================================================================== *)
(** ** The adapters: validateConnection *)
(* ===================================================================== *)

(** A successful upstream answer whose body is [null] cannot be read:
    [response.data.account_name] throws inside the [try], and the [catch]
    answers [isValid = false]. *)
Lemma validateConnection_null_body :
  upstream (always (Fulfilled 200 JNull)) (sent empty_world)
    (whoami (Mailchimp mailchimp_client)) = Fulfilled 200 JNull
  /\ fst (validateConnection (always (Fulfilled 200 JNull)) (Mailchimp mailchimp_client)
            empty_world)
     = Return {| isValid := false;
                 vr_provider := "mailchimp";
                 vr_error := Some "Connection validation failed";
                 accountInfo := None |}.
Proof. split; reflexivity. Qed.

Lemma validateConnection_run (env : Env) (service : Service) (w : World) :
  validateConnection env service w
  = (Return (validation_of service (upstream env (sent w) (whoami service))),
     push_sent w (whoami service)).
Proof.
  destruct service as [svc|svc]; simpl.
  - unfold MailchimpService.validateConnection, try_catch, bind, MailchimpService.get, lift, ret.
    rewrite http_get_run.
    destruct (upstream env (sent w) _) as [st data|error]; simpl.
    + destruct (readable data) eqn:R.
      * rewrite !get_readable by assumption. reflexivity.
      * rewrite get_unreadable by assumption. reflexivity.
    + destruct (MailchimpService.handleApiError error) as [a|e] eqn:E; cbn [rejection];
        [reflexivity|].
      apply (translate_throws (Mailchimp svc)) in E. subst e. reflexivity.
  - unfold GetResponseService.validateConnection, try_catch, bind, GetResponseService.get, lift, ret.
    rewrite http_get_run.
    destruct (upstream env (sent w) _) as [st data|error]; simpl.
    + destruct (readable data) eqn:R.
      * rewrite !get_readable by assumption. reflexivity.
      * rewrite get_unreadable by assumption. reflexivity.
    + destruct (GetResponseService.handleApiError error) as [a|e] eqn:E; cbn [rejection];
        [reflexivity|].
      apply (translate_throws (GetResponse svc)) in E. subst e. reflexivity.
Qed.

(** The text of the validation result of a rejected request. *)
Lemma rejected_text (service : Service) (error : AxiosError) :
  let k := kind_table (has_bad_request service) error in
  let text := match translate service error with
              | Return appError => message appError
              | Throw _ => "Connection validation failed"
              end in
  (forall t, failure_text service k = Some t -> text = t)
  /\ (failure_text service k = None ->
      forall status data,
        response error = Some (status, data) ->
        (forall s, Js.truthy (upstream_message service data) = true ->
                   Js.toString (upstream_message service data) = Return s -> text = s)
        /\ (Js.truthy (upstream_message service data) = false ->
            text = default_text service k)
        /\ (unprintable (upstream_message service data) ->
            text = "Connection validation failed")).
Proof.
  intros k text. subst text.
  pose proof (translate_table service error) as T. cbv zeta in T. fold k in T.
  destruct (translate service error) as [a|e].
  - destruct T as (_ & _ & _ & Hfixed & Hup). split; [exact Hfixed|].
    intros Hnone status data Hr. destruct (Hup Hnone status data Hr) as (Hts & _ & Hdef).
    split; [|split; [exact Hdef|]].
    + intros s Ht Hs. unfold Js.or in Hts. rewrite Ht, Hs in Hts. now injection Hts.
    + intros U. exfalso.
      unfold Js.or in Hts. rewrite (unprintable_truthy U) in Hts.
      destruct (toString_converts (upstream_message service data)) as [[_ E]|[N _]];
        [congruence | contradiction].
  - destruct T as (_ & Hnone & status & data & Hr & U). split; [intros t Ht; congruence|].
    intros _ status' data' Hr'. rewrite Hr in Hr'. injection Hr' as <- <-.
    split; [|split; [|reflexivity]].
    + intros s _ Hs.
      destruct (toString_converts (upstream_message service data)) as [[_ E]|[N _]];
        [congruence | contradiction].
    + intros Hf. rewrite (unprintable_truthy U) in Hf. discriminate.
Qed.

(** C7: for both adapters and every upstream outcome,
    [validateConnection] sends exactly one request and returns, never
    throws. When the request is fulfilled with a body that can be read
    the result has [isValid = true] and the normalized account payload.
    Every failure gives [isValid = false] with an error text and no
    account payload: [Connection validation failed] when the request is
    fulfilled with a [null] or [undefined] body; the adapter's own text
    for a rejected key (401), a missing resource (404), a rate limit
    (429), a timeout and no response at all; and for any other status the
    upstream's message converted to a string, the adapter's default text
    when there is none, or [Connection validation failed] when the
    message has no conversion. *)
Theorem validateConnection_never_raises :
  forall (env : Env) (service : Service) (w : World),
    exists result,
      validateConnection env service w = (Return result, push_sent w (whoami service))
      /\ vr_provider result = provider_name service
      /\ match upstream env (sent w) (whoami service) with
         | Fulfilled _ data =>
             if readable data
             then isValid result = true
                  /\ accountInfo result = Some (account_of service data)
                  /\ vr_error result = None
             else isValid result = false
                  /\ accountInfo result = None
                  /\ vr_error result = Some "Connection validation failed"
         | Rejected error =>
             let k := kind_table (has_bad_request service) error in
             isValid result = false
             /\ accountInfo result = None
             /\ exists text,
                  vr_error result = Some text
                  /\ (forall t, failure_text service k = Some t -> text = t)
                  /\ (failure_text service k = None ->
                      forall status data,
                        response error = Some (status, data) ->
                        (forall s, Js.truthy (upstream_message service data) = true ->
                                   Js.toString (upstream_message service data) = Return s ->
                                   text = s)
                        /\ (Js.truthy (upstream_message service data) = false ->
                            text = default_text service k)
                        /\ (unprintable (upstream_message service data) ->
                            text = "Connection validation failed"))
         end.
Proof.
  intros env service w. rewrite validateConnection_run.
  eexists. split; [reflexivity|].
  unfold validation_of.
  destruct (upstream env (sent w) (whoami service)) as [st data|error].
  - destruct (readable data); repeat split.
  - cbv zeta. cbn [isValid accountInfo vr_error vr_provider].
    split; [reflexivity|]. split; [reflexivity|]. split; [reflexivity|].
    eexists. split; [reflexivity|]. apply rejected_text.
Qed.

(* ===================================================================== *)
(** ** The adapters: getLists *)
(* ===================================================================== *)

Lemma mailchimp_toList_readable (v : JsVal) :
  readable v = true -> MailchimpService.toList v = Return (mailchimp_list_of v).
Proof.
  intros R. unfold MailchimpService.toList.
  rewrite !get_readable by assumption. reflexivity.
Qed.

Lemma getresponse_toList_readable (v : JsVal) :
  readable v = true -> GetResponseService.toList v = Return (getresponse_list_of v).
Proof.
  intros R. unfold GetResponseService.toList.
  rewrite !get_readable by assumption. reflexivity.
Qed.





(* ===================================================================== *)
(** ** Key formats *)
(* ===================================================================== *)

Lemma exactly_spec (cls : ascii -> bool) (n : nat) (s rest : string) :
  Re.exactly cls n s = Some rest <->
  exists pre, s = pre ++ rest /\ String.length pre = n /\ Re.all cls pre = true.
Proof.
  revert s. induction n as [|n IH]; intros s; simpl.
  - split.
    + intros H. injection H as <-. exists "". repeat split.
    + intros [pre [-> [Hl _]]]. destruct pre; [reflexivity | discriminate].
  - destruct s as [|c s].
    + split; [discriminate|].
      intros [pre [Hs [Hl _]]]. destruct pre; discriminate.
    + destruct (cls c) eqn:Hc.
      * rewrite IH. split.
        -- intros [pre [-> [Hl Ha]]]. exists (String c pre). simpl.
           rewrite Hc, Hl, Ha. repeat split.
        -- intros [pre [Hs [Hl Ha]]]. destruct pre as [|c' pre]; [discriminate|].
           simpl in Hs, Hl, Ha. injection Hs as -> ->. injection Hl as Hl.
           apply andb_true_iff in Ha as [_ Ha]. exists pre. repeat split; assumption.
      * split; [discriminate|].
        intros [pre [Hs [Hl Ha]]]. destruct pre as [|c' pre]; [discriminate|].
        simpl in Hs, Ha. injection Hs as -> ->. rewrite Hc in Ha. discriminate.
Qed.

Lemma all_app (cls : ascii -> bool) (a b : string) :
  Re.all cls (a ++ b) = Re.all cls a && Re.all cls b.
Proof.
  induction a as [|c a IH]; simpl; [reflexivity|].
  rewrite IH. apply andb_assoc.
Qed.

Lemma string_length_app (a b : string) :
  String.length (a ++ b) = String.length a + String.length b.
Proof. induction a as [|c a IH]; simpl; [reflexivity | now rewrite IH]. Qed.

Lemma literal_spec (lit s rest : string) :
  Re.literal lit s = Some rest <-> s = lit ++ rest.
Proof.
  revert s. induction lit as [|c lit IH]; intros s; simpl.
  - split; [intros H; now injection H | intros ->; reflexivity].
  - destruct s as [|c' s]; [split; discriminate|].
    destruct (Ascii.eqb c' c) eqn:E.
    + apply Ascii.eqb_eq in E. subst c'. rewrite IH.
      split; [intros ->; reflexivity | intros H; now injection H].
    + split; [discriminate|].
      intros H. injection H as -> _. rewrite Ascii.eqb_refl in E. discriminate.
Qed.

Lemma mailchimp_key_spec (key : string) :
  Re.mailchimp_key key = true <-> key_shape_ok "mailchimp" key.
Proof.
  unfold Re.mailchimp_key, key_shape_ok. split.
  - destruct (Re.exactly Re.hex 32 key) as [rest|] eqn:E; [|discriminate].
    apply exactly_spec in E as [secret [-> [Hl Hh]]].
    destruct (Re.literal "-us" rest) as [digits|] eqn:L; [|discriminate].
    apply literal_spec in L. subst rest.
    intros H. left. split; [reflexivity|].
    exists secret, digits. repeat split; try assumption.
    + intros ->. discriminate.
    + destruct digits; [discriminate | exact H].
  - intros [[_ [secret [region [-> [Hl [Hh [Hne Hd]]]]]]]|[Hp _]]; [|discriminate].
    assert (E : Re.exactly Re.hex 32 (secret ++ "-us" ++ region) = Some ("-us" ++ region)).
    { apply exactly_spec. exists secret. repeat split; assumption. }
    rewrite E.
    assert (L : Re.literal "-us" ("-us" ++ region) = Some region)
      by (apply literal_spec; reflexivity).
    rewrite L. destruct region as [|d ds]; [contradiction|]. exact Hd.
Qed.

Lemma getresponse_key_spec (key : string) :
  Re.getresponse_key key = true <-> key_shape_ok "getresponse" key.
Proof.
  unfold Re.getresponse_key, key_shape_ok. split.
  - destruct (Re.exactly Re.alnum 20 key) as [rest|] eqn:E; [|discriminate].
    apply exactly_spec in E as [pre [-> [Hl Ha]]].
    intros H. right. split; [reflexivity|]. split.
    + rewrite string_length_app. lia.
    + rewrite all_app, Ha, H. reflexivity.
  - intros [[Hp _]|[_ [Hl Ha]]]; [discriminate|].
    destruct (Re.exactly Re.alnum 20 key) as [rest|] eqn:E.
    + apply exactly_spec in E as [pre [-> [_ _]]].
      rewrite all_app in Ha. apply andb_true_iff in Ha as [_ Ha]. exact Ha.
    + exfalso. revert Hl Ha E. generalize 20 as n. revert key.
      induction key as [|c key IH]; intros n Hl Ha E.
      * destruct n; [discriminate | simpl in Hl; lia].
      * destruct n; [discriminate|]. simpl in *.
        apply andb_true_iff in Ha as [Hc Ha]. rewrite Hc in E.
        apply (IH n); [lia | assumption | assumption].
Qed.

Lemma validateApiKeyFormat_spec (provider key : string) :
  ESPServiceFactory.validateApiKeyFormat provider key = true <-> key_shape_ok provider key.
Proof.
  unfold ESPServiceFactory.validateApiKeyFormat.
  destruct (provider =? "mailchimp") eqn:E1.
  - apply String.eqb_eq in E1. subst. apply mailchimp_key_spec.
  - destruct (provider =? "getresponse") eqn:E2.
    + apply String.eqb_eq in E2. subst. apply getresponse_key_spec.
    + split; [discriminate|].
      intros [[-> _]|[-> _]]; discriminate.
Qed.

(* ===================================================================== *)
(** ** The handlers in direct style *)
(* ===================================================================== *)

Section Handlers.

Variable env : Env.

Import ESPIntegrationModel IntegrationController.

Lemma lookup_run (p k : string) (w : World) :
  create_lookup env p k w =
  if (p =? "mailchimp") && negb (Js.truthy_opt (submitted_dataCenter p k))
  then (Throw (AppErr INVALID_MAILCHIMP_KEY), w)
  else if negb (ESPServiceFactory.validateApiKeyFormat p k)
  then (Throw (AppErr (INVALID_API_KEY_FORMAT p)), w)
  else
    match ESPServiceFactory.createService (submitted_credentials p k) with
    | Throw e => (Throw e, w)
    | Return service =>
        match validateConnection env service w with
        | (Throw e, w1) => (Throw e, w1)
        | (Return vr, w1) =>
            if negb (isValid vr) then (Throw (AppErr (ESP_CONNECTION_FAILED vr)), w1)
            else (Return {| found_dataCenter := submitted_dataCenter p k;
                            found_validation := vr;
                            found_existing :=
                              option_map load (List.find (matches (Some p)) (store w1)) |},
                  w1)
        end
    end.
Proof.
  unfold create_lookup, submitted_credentials, submitted_dataCenter, bind.
  destruct (p =? "mailchimp") eqn:Ep; simpl.
  - destruct (Js.truthy_opt (Js.or_undefined _)) eqn:Et; simpl; [|reflexivity].
    destruct (ESPServiceFactory.validateApiKeyFormat p k); simpl; [|reflexivity].
    unfold lift.
    destruct (ESPServiceFactory.createService _) as [service|e]; [|reflexivity].
    destruct (validateConnection env service w) as [[vr|e] w1]; [|reflexivity].
    destruct (isValid vr); reflexivity.
  - destruct (ESPServiceFactory.validateApiKeyFormat p k); simpl; [|reflexivity].
    unfold lift.
    destruct (ESPServiceFactory.createService _) as [service|e]; [|reflexivity].
    destruct (validateConnection env service w) as [[vr|e] w1]; [|reflexivity].
    destruct (isValid vr); reflexivity.
Qed.

Lemma save_run (p k : string) (looked : Lookup) (w : World) :
  create_save env p k looked w =
  match found_existing looked with
  | Some existing =>
      let change := assign_credentials k (found_dataCenter looked) (clock w) in
      if db_write_ok env (writes w)
      then (Return (200%Z, created_data (change (fields existing)) (found_validation looked)),
            count_write (set_store w (set_first (_id (fields existing)) change (store w))))
      else (Throw write_failed, count_write w)
  | None =>
      let created :=
        {| _id := next_id w; provider := p;
           apiKey := k; dataCenter := found_dataCenter looked;
           isActive := true; lastVerified := Some (clock w);
           createdAt := clock w; updatedAt := clock w |} in
      if db_write_ok env (writes w)
      then (Return (201%Z, created_data created (found_validation looked)),
            count_write (set_store (take_id w) (store w ++ [created])%list))
      else (Throw write_failed, count_write (take_id w))
  end.
Proof.
  unfold create_save, bind.
  destruct (found_existing looked) as [existing|]; simpl.
  - unfold updateOne, write, bind. simpl.
    destruct (db_write_ok env (writes w)); reflexivity.
  - unfold insert, write, bind. simpl.
    destruct (db_write_ok env (writes w)); reflexivity.
Qed.

Lemma create_run (p k : string) (w : World) :
  createESPIntegration env p k w =
  if (p =? "mailchimp") && negb (Js.truthy_opt (submitted_dataCenter p k))
  then (Throw (AppErr INVALID_MAILCHIMP_KEY), w)
  else if negb (ESPServiceFactory.validateApiKeyFormat p k)
  then (Throw (AppErr (INVALID_API_KEY_FORMAT p)), w)
  else
    match ESPServiceFactory.createService (submitted_credentials p k) with
    | Throw e => (Throw e, w)
    | Return service =>
        match validateConnection env service w with
        | (Throw e, w1) => (Throw e, w1)
        | (Return vr, w1) =>
            if negb (isValid vr) then (Throw (AppErr (ESP_CONNECTION_FAILED vr)), w1)
            else
              match List.find (matches (Some p)) (store w1) with
              | Some existing =>
                  let change :=
                    assign_credentials k (submitted_dataCenter p k) (clock w1) in
                  if db_write_ok env (writes w1)
                  then (Return (200%Z, created_data (change existing) vr),
                        count_write (set_store w1 (set_first (_id existing) change (store w1))))
                  else (Throw write_failed, count_write w1)
              | None =>
                  let created := new_record p k w1 in
                  if db_write_ok env (writes w1)
                  then (Return (201%Z, created_data created vr),
                        count_write (set_store (take_id w1) (store w1 ++ [created])%list))
                  else (Throw write_failed, count_write (take_id w1))
              end
        end
    end.
Proof.
  unfold createESPIntegration, bind. rewrite lookup_run.
  destruct ((p =? "mailchimp") && _); [reflexivity|].
  destruct (negb (ESPServiceFactory.validateApiKeyFormat p k)); [reflexivity|].
  destruct (ESPServiceFactory.createService _) as [service|e]; [|reflexivity].
  destruct (validateConnection env service w) as [[vr|e] w1]; [|reflexivity].
  destruct (negb (isValid vr)); [reflexivity|].
  rewrite save_run. cbn [found_existing found_dataCenter found_validation].
  destruct (List.find (matches (Some p)) (store w1)) as [existing|]; reflexivity.
Qed.

Lemma delete_run (id : nat) (w : World) :
  deleteIntegration env id w =
  match List.find (has_id id) (store w) with
  | None => (Throw (AppErr (INTEGRATION_NOT_FOUND "Integration not found")), w)
  | Some d =>
      if isActive d then
        if db_write_ok env (writes w)
        then (Return (200%Z, "Integration deactivated successfully"),
              count_write (set_store w (set_first (_id d) (assign_inactive (clock w)) (store w))))
        else (Throw write_failed, count_write w)
      else (Return (200%Z, "Integration deactivated successfully"), w)
  end.
Proof.
  unfold deleteIntegration, bind, findById. simpl. fold (has_id id).
  destruct (List.find (has_id id) (store w)) as [d|]; simpl; [|reflexivity].
  destruct (isActive d); simpl; [|reflexivity].
  unfold updateOne, write. simpl.
  destruct (db_write_ok env (writes w)); reflexivity.
Qed.

Lemma test_run (id : nat) (w : World) :
  testIntegration env id w =
  match List.find (has_id id) (store w) with
  | None => (Throw (AppErr (INTEGRATION_NOT_FOUND "Integration not found or inactive")), w)
  | Some d =>
      if negb (isActive d)
      then (Throw (AppErr (INTEGRATION_NOT_FOUND "Integration not found or inactive")), w)
      else
        match ESPServiceFactory.createService (credentials_of (select_apiKey (load d))) with
        | Throw e => (Throw e, w)
        | Return service =>
            match validateConnection env service w with
            | (Throw e, w1) => (Throw e, w1)
            | (Return vr, w1) =>
                if isValid vr then
                  if same_date (lastVerified d) (clock w1)
                  then (Return (200%Z, test_data vr (Some (clock w1))), w1)
                  else if db_write_ok env (writes w1)
                  then (Return (200%Z, test_data vr (Some (clock w1))),
                        count_write
                          (set_store w1
                             (set_first (_id d) (assign_lastVerified (clock w1)) (store w1))))
                  else (Throw write_failed, count_write w1)
                else (Return (200%Z, test_data vr (lastVerified d)), w1)
            end
        end
  end.
Proof.
  unfold testIntegration, test_data, bind, findById. simpl. fold (has_id id).
  destruct (List.find (has_id id) (store w)) as [d|]; simpl; [|reflexivity].
  destruct (isActive d); simpl; [|reflexivity].
  unfold lift.
  destruct (ESPServiceFactory.createService _) as [service|e]; [|reflexivity].
  destruct (validateConnection env service w) as [[vr|e] w1]; [|reflexivity].
  destruct (isValid vr); simpl; [|reflexivity].
  destruct (same_date (lastVerified d) (clock w1)); [reflexivity|].
  unfold updateOne, write. simpl.
  destruct (db_write_ok env (writes w1)); reflexivity.
Qed.

Lemma delete_malformed (text : string) (w : World) :
  deleteIntegration env (Malformed text) w = (Throw (OtherErr "CastError" None), w).
Proof. reflexivity. Qed.

Lemma test_malformed (text : string) (w : World) :
  testIntegration env (Malformed text) w = (Throw (OtherErr "CastError" None), w).
Proof. reflexivity. Qed.

End Handlers.

(* ===================================================================== *)
(** ** Computations that leave the database alone *)
(* ===================================================================== *)

Lemma db_unchanged_refl (w : World) : db_unchanged w w.
Proof. repeat split. Qed.

Lemma db_unchanged_trans (w1 w2 w3 : World) :
  db_unchanged w1 w2 -> db_unchanged w2 w3 -> db_unchanged w1 w3.
Proof.
  intros (A1 & A2 & A3 & A4) (B1 & B2 & B3 & B4).
  repeat split; congruence.
Qed.

Lemma db_safe_ret {A} (a : A) : db_safe (ret a).
Proof. intros w. apply db_unchanged_refl. Qed.

Lemma db_safe_throw {A} (e : Exn) : db_safe (@throw A e).
Proof. intros w. apply db_unchanged_refl. Qed.

Lemma db_safe_lift {A} (c : Completion A) : db_safe (lift c).
Proof. intros w. apply db_unchanged_refl. Qed.

Lemma db_safe_bind {A B} (m : M A) (k : A -> M B) :
  db_safe m -> (forall a, db_safe (k a)) -> db_safe (bind m k).
Proof.
  intros Hm Hk w. unfold bind. specialize (Hm w).
  destruct (m w) as [[a|e] w1]; simpl in *; [|exact Hm].
  eapply db_unchanged_trans; [exact Hm | apply Hk].
Qed.

Lemma db_safe_try_catch {A} (m : M A) (h : Exn -> M A) :
  db_safe m -> (forall e, db_safe (h e)) -> db_safe (try_catch m h).
Proof.
  intros Hm Hh w. unfold try_catch. specialize (Hm w).
  destruct (m w) as [[a|e] w1]; simpl in *; [exact Hm|].
  eapply db_unchanged_trans; [exact Hm | apply Hh].
Qed.

Lemma db_safe_http_get (env : Env) (tr : AxiosError -> Completion AppError) (req : Request) :
  db_safe (http_get env tr req).
Proof. intros w. rewrite http_get_run. repeat split. Qed.

Create HintDb db_safe.
#[export] Hint Resolve db_safe_ret db_safe_throw db_safe_lift db_safe_http_get : db_safe.
#[export] Hint Extern 2 (db_safe (bind _ _)) => apply db_safe_bind; [|intro] : db_safe.
#[export] Hint Extern 2 (db_safe (try_catch _ _)) => apply db_safe_try_catch; [|intro] : db_safe.

Lemma db_safe_getLists (env : Env) (service : Service) : db_safe (getLists env service).
Proof.
  destruct service as [svc|svc]; simpl.
  - unfold MailchimpService.getLists, MailchimpService.get. auto 20 with db_safe.
  - unfold GetResponseService.getLists, GetResponseService.get. auto 20 with db_safe.
Qed.

Lemma db_safe_fetch_each (env : Env) (integrations : list Document) :
  forall allLists, db_safe (IntegrationController.fetch_each env integrations allLists).
Proof.
  induction integrations as [|integration rest IH]; intros allLists; simpl.
  - apply db_safe_ret.
  - apply db_safe_bind; [|intro; apply IH].
    apply db_safe_try_catch; [|intro; apply db_safe_ret].
    apply db_safe_bind; [apply db_safe_lift|intro].
    apply db_safe_bind; [apply db_safe_getLists|intro; apply db_safe_ret].
Qed.

Lemma db_safe_find (pf : option string) : db_safe (ESPIntegrationModel.find pf).
Proof. intros w. apply db_unchanged_refl. Qed.

Lemma db_safe_getESPLists (env : Env) (q : option string) :
  db_safe (IntegrationController.getESPLists env q).
Proof.
  unfold IntegrationController.getESPLists.
  apply db_safe_bind.
  - destruct (Js.truthy_opt q); [|apply db_safe_ret].
    destruct (negb _); [apply db_safe_throw | apply db_safe_ret].
  - intros f. apply db_safe_bind; [apply db_safe_find|]. intros found.
    apply db_safe_bind.
    + destruct (_ =? 0)%nat; [apply db_safe_throw | apply db_safe_ret].
    + intros _. apply db_safe_bind; [apply db_safe_fetch_each | intro; apply db_safe_ret].
Qed.

Lemma db_safe_getIntegrations (env : Env) :
  db_safe (IntegrationController.getIntegrations env).
Proof.
  unfold IntegrationController.getIntegrations.
  apply db_safe_bind; [apply db_safe_find | intro; apply db_safe_ret].
Qed.

(* ===================================================================== *)
(** ** Malformed keys never reach the provider *)
(* ===================================================================== *)

(** C3: for every key that does not have the shape its provider
    requires (a 32-digit hexadecimal secret followed by [-us] and decimal
    digits; at least 20 alphanumeric characters), [validateApiKeyFormat]
    returns false and the create-or-verify handler throws an [AppError]
    of status 400 in the world it started from: no request has been sent
    and nothing has been written. The caller receives a 400 response. *)
Theorem malformed_key_rejected_before_any_call :
  forall (env : Env) (provider apiKey : string) (w : World),
    ~ key_shape_ok provider apiKey ->
    ESPServiceFactory.validateApiKeyFormat provider apiKey = false
    /\ exists e : AppError,
         IntegrationController.createESPIntegration env provider apiKey w
         = (Throw (AppErr e), w)
         /\ statusCode e = 400%Z
         /\ asyncHandler env (IntegrationController.createESPIntegration env provider apiKey) w
            = (Failure 400 {| error_code := code e; error_message := message e;
                              error_details := None |}, w).
Proof.
  intros env p k w Hbad.
  assert (Hv : ESPServiceFactory.validateApiKeyFormat p k = false).
  { destruct (ESPServiceFactory.validateApiKeyFormat p k) eqn:E; [|reflexivity].
    apply validateApiKeyFormat_spec in E. contradiction. }
  split; [exact Hv|].
  unfold asyncHandler. rewrite create_run, Hv. simpl.
  destruct ((p =? "mailchimp") && negb (Js.truthy_opt (submitted_dataCenter p k))).
  - exists INVALID_MAILCHIMP_KEY. repeat split.
    unfold errorHandler. simpl. now rewrite !andb_false_r.
  - exists (INVALID_API_KEY_FORMAT p). repeat split.
    unfold errorHandler. simpl. now rewrite !andb_false_r.
Qed.

Lemma malformed_key_rejected_witness :
  ~ key_shape_ok "getresponse" "short"
  /\ ESPServiceFactory.validateApiKeyFormat "getresponse" "short" = false
  /\ exists e : AppError,
       IntegrationController.createESPIntegration accepting "getresponse" "short" empty_world
       = (Throw (AppErr e), empty_world)
       /\ statusCode e = 400%Z
       /\ asyncHandler accepting
            (IntegrationController.createESPIntegration accepting "getresponse" "short")
            empty_world
          = (Failure 400 {| error_code := code e; error_message := message e;
                            error_details := None |}, empty_world).
Proof.
  assert (H : ~ key_shape_ok "getresponse" "short").
  { intros H. apply validateApiKeyFormat_spec in H. discriminate H. }
  split; [exact H|].
  exact (malformed_key_rejected_before_any_call accepting empty_world H).
Defined.

(* ===================================================================== *)
(** ** One active record per provider *)
(* ===================================================================== *)

Section StoreLemmas.

Import ESPIntegrationModel.

Variable P : ESPIntegration -> bool.

Lemma set_first_length (id : nat) (f : ESPIntegration -> ESPIntegration) (s : list ESPIntegration) :
  List.length (set_first id f s) = List.length s.
Proof.
  induction s as [|d s IH]; simpl; [reflexivity|].
  destruct (_id d =? id)%nat; simpl; congruence.
Qed.

Lemma set_first_ids (id : nat) (f : ESPIntegration -> ESPIntegration) (s : list ESPIntegration) :
  (forall d, _id (f d) = _id d) ->
  map _id (set_first id f s) = map _id s.
Proof.
  intros Hf. induction s as [|d s IH]; simpl; [reflexivity|].
  destruct (_id d =? id)%nat; simpl; [now rewrite Hf | now rewrite IH].
Qed.

(** An update that makes no document newly satisfy [P] cannot raise the
    number of documents that satisfy it. *)
Lemma filter_set_first_le (id : nat) (f : ESPIntegration -> ESPIntegration)
    (s : list ESPIntegration) :
  (forall d, P (f d) = true -> P d = true) ->
  List.length (filter P (set_first id f s)) <= List.length (filter P s).
Proof.
  intros Hf. induction s as [|d s IH]; simpl; [lia|].
  destruct (_id d =? id)%nat; simpl.
  - destruct (P (f d)) eqn:E.
    + rewrite (Hf d E). simpl. lia.
    + destruct (P d); simpl; lia.
  - destruct (P d); simpl; lia.
Qed.

Lemma find_none_filter (s : list ESPIntegration) :
  List.find P s = None -> filter P s = [].
Proof.
  induction s as [|d s IH]; simpl; [reflexivity|].
  destruct (P d); [discriminate | exact IH].
Qed.

Lemma find_none_existsb (s : list ESPIntegration) :
  List.find P s = None -> existsb P s = false.
Proof.
  induction s as [|d s IH]; simpl; [reflexivity|].
  destruct (P d); [discriminate | exact IH].
Qed.

Lemma find_some_existsb (s : list ESPIntegration) (d : ESPIntegration) :
  List.find P s = Some d -> existsb P s = true.
Proof.
  intros H. apply find_some in H. apply existsb_exists. now exists d.
Qed.

Lemma existsb_false_filter (s : list ESPIntegration) :
  existsb P s = false -> filter P s = [].
Proof.
  induction s as [|d s IH]; simpl; [reflexivity|].
  destruct (P d); [discriminate | exact IH].
Qed.

Lemma filter_snoc_length (s : list ESPIntegration) (d : ESPIntegration) :
  List.length (filter P (s ++ [d]))
  = List.length (filter P s) + (if P d then 1 else 0).
Proof.
  rewrite filter_app, List.length_app. simpl. destruct (P d); reflexivity.
Qed.

(** The first document that satisfies [P], and what precedes it. *)
Lemma find_first_split (s : list ESPIntegration) (d : ESPIntegration) :
  List.find P s = Some d ->
  exists before after,
    s = (before ++ d :: after)%list /\ forall x, In x before -> P x = false.
Proof.
  induction s as [|x s IH]; simpl; [discriminate|].
  destruct (P x) eqn:E.
  - intros H. injection H as ->. exists [], s. split; [reflexivity | intros y []].
  - intros H. destruct (IH H) as [before [after [-> Hb]]].
    exists (x :: before), after. split; [reflexivity|].
    intros y [<-|Hy]; [exact E | now apply Hb].
Qed.

Lemma find_first_unique (before after : list ESPIntegration) (d : ESPIntegration) :
  P d = true -> (forall x, In x before -> P x = false) ->
  List.find P (before ++ d :: after) = Some d.
Proof.
  intros Hd. induction before as [|x before IH]; simpl; intros Hb.
  - now rewrite Hd.
  - rewrite (Hb x (or_introl eq_refl)). apply IH. intros y Hy. apply Hb. now right.
Qed.

End StoreLemmas.

Lemma set_first_split (id : nat) (f : ESPIntegration -> ESPIntegration)
    (before after : list ESPIntegration) (d : ESPIntegration) :
  (forall x, In x before -> has_id id x = false) -> has_id id d = true ->
  ESPIntegrationModel.set_first id f (before ++ d :: after) = (before ++ f d :: after)%list.
Proof.
  unfold has_id. intros Hb Hd. induction before as [|x before IH]; simpl.
  - now rewrite Hd.
  - rewrite (Hb x (or_introl eq_refl)). f_equal. apply IH. intros y Hy. apply Hb. now right.
Qed.

Lemma matches_active (p : string) (d : ESPIntegration) :
  ESPIntegrationModel.matches (Some p) d = active_for p d.
Proof. reflexivity. Qed.

Lemma active_for_provider (p : string) (d : ESPIntegration) :
  active_for p d = true <-> isActive d = true /\ provider d = p.
Proof.
  unfold active_for. rewrite andb_true_iff, String.eqb_eq. reflexivity.
Qed.

Section Invariant.

Import ESPIntegrationModel IntegrationController.

Variable env : Env.

Lemma store_step_same (grows : bool) (s s' : list ESPIntegration) :
  s' = s -> one_active_per_provider s -> store_step grows s s'.
Proof.
  intros -> H. split; [exact H|].
  exists []. split; [now rewrite app_nil_r | reflexivity].
Qed.

Lemma store_step_set_first (grows : bool) (id : nat) (f : ESPIntegration -> ESPIntegration)
    (s : list ESPIntegration) :
  (forall d, _id (f d) = _id d) ->
  (forall p d, active_for p (f d) = true -> active_for p d = true) ->
  one_active_per_provider s ->
  store_step grows s (set_first id f s).
Proof.
  intros Hid Hf H. split.
  - intros p. specialize (H p).
    pose proof (filter_set_first_le (active_for p) id f s (Hf p)). lia.
  - exists []. split; [|reflexivity].
    rewrite app_nil_r. now apply set_first_ids.
Qed.

Lemma store_step_insert (s : list ESPIntegration) (d : ESPIntegration) :
  existsb (active_for (provider d)) s = false ->
  one_active_per_provider s ->
  store_step true s (s ++ [d]).
Proof.
  intros Hnone H. split.
  - intros p. rewrite filter_snoc_length.
    destruct (active_for p d) eqn:E; [|specialize (H p); lia].
    apply active_for_provider in E as [_ <-].
    rewrite (existsb_false_filter _ _ Hnone). simpl. lia.
  - exists [_id d]. split; [|discriminate]. now rewrite map_app.
Qed.

Lemma perform_preserves (op : Operation) (w : World) :
  one_active_per_provider (store w) ->
  store_step (may_grow op (store w)) (store w) (store (perform env op w)).
Proof.
  intros Hinv. destruct op as [p k|q| |id|id]; cbn [perform may_grow].
  - (* create or verify *)
    rewrite create_run.
    destruct ((p =? "mailchimp") && _); [now apply store_step_same|].
    destruct (negb (ESPServiceFactory.validateApiKeyFormat p k)); [now apply store_step_same|].
    destruct (ESPServiceFactory.createService _) as [service|e]; [|now apply store_step_same].
    rewrite validateConnection_run.
    destruct (negb (isValid _)); [now apply store_step_same|].
    cbn [store push_sent writes clock].
    destruct (List.find (matches (Some p)) (store w)) as [existing|] eqn:Hfind.
    + cbv zeta. destruct (db_write_ok env (writes w)); [|now apply store_step_same].
      cbn [snd store count_write set_store]. apply store_step_set_first; auto.
    + cbv zeta. apply find_none_existsb in Hfind.
      change (existsb (active_for p) (store w) = false) in Hfind. rewrite Hfind.
      destruct (db_write_ok env (writes w)); [|now apply store_step_same].
      cbn [snd store count_write set_store take_id negb].
      apply store_step_insert; auto.
  - (* the aggregate listing *)
    apply store_step_same; [|exact Hinv]. apply (db_safe_getESPLists env q w).
  - (* the listing of the records *)
    apply store_step_same; [|exact Hinv]. apply (db_safe_getIntegrations env w).
  - (* deactivate *)
    destruct id as [id|text]; [|now apply store_step_same].
    rewrite delete_run.
    destruct (List.find (has_id id) (store w)) as [d|]; [|now apply store_step_same].
    destruct (isActive d); [|now apply store_step_same].
    destruct (db_write_ok env (writes w)); [|now apply store_step_same].
    simpl. apply store_step_set_first; auto.
    intros p d'. unfold active_for. simpl. discriminate.
  - (* re-test *)
    destruct id as [id|text]; [|now apply store_step_same].
    rewrite test_run.
    destruct (List.find (has_id id) (store w)) as [d|]; [|now apply store_step_same].
    destruct (negb (isActive d)); [now apply store_step_same|].
    destruct (ESPServiceFactory.createService _) as [service|e]; [|now apply store_step_same].
    rewrite validateConnection_run.
    destruct (isValid _); [|now apply store_step_same].
    destruct (same_date _ _); [now apply store_step_same|].
    simpl.
    destruct (db_write_ok env (writes w)); [|now apply store_step_same].
    simpl. apply store_step_set_first; auto.
Qed.

(** Whatever requests are served, one after the other, the invariant
    holds. *)
Lemma served_invariant (ops : list Operation) (w : World) :
  one_active_per_provider (store w) ->
  one_active_per_provider (store (serve env ops w)).
Proof.
  revert w. induction ops as [|op ops IH]; intros w H; simpl; [exact H|].
  apply IH. apply perform_preserves. exact H.
Qed.

End Invariant.



Lemma two_integrations_invariant : one_active_per_provider (store two_integrations).
Proof.
  intros p. unfold two_integrations. cbn [store filter].
  unfold active_for, stored_mailchimp, stored_getresponse.
  cbn [isActive provider andb].
  destruct ("mailchimp" =? p) eqn:E1; destruct ("getresponse" =? p) eqn:E2;
    cbn [List.length]; try lia.
  apply String.eqb_eq in E1. apply String.eqb_eq in E2. subst p. discriminate E2.
Defined.


(* ===================================================================== *)
(** ** Created versus updated *)
(* ===================================================================== *)

Section Extraction.

Lemma all_impl (cls1 cls2 : ascii -> bool) (s : string) :
  (forall c, cls1 c = true -> cls2 c = true) ->
  Re.all cls1 s = true -> Re.all cls2 s = true.
Proof.
  intros H. induction s as [|c s IH]; simpl; [reflexivity|].
  intros Ha. apply andb_true_iff in Ha as [Hc Hs].
  rewrite (H c Hc), (IH Hs). reflexivity.
Qed.

Lemma split_no_sep (sep : ascii) (s : string) :
  Re.all (not_sep sep) s = true -> Js.split sep s = [s].
Proof.
  induction s as [|c s IH]; simpl; [reflexivity|].
  intros Ha. apply andb_true_iff in Ha as [Hc Hs].
  unfold not_sep in Hc. apply negb_true_iff in Hc. rewrite Hc, (IH Hs). reflexivity.
Qed.

Lemma split_app (sep : ascii) (a b : string) :
  Re.all (not_sep sep) a = true ->
  Js.split sep (a ++ String sep b) = a :: Js.split sep b.
Proof.
  induction a as [|c a IH]; simpl.
  - intros _. rewrite Ascii.eqb_refl. reflexivity.
  - intros Ha. apply andb_true_iff in Ha as [Hc Hs].
    unfold not_sep in Hc. apply negb_true_iff in Hc. rewrite Hc, (IH Hs). reflexivity.
Qed.

Lemma hex_not_dash (c : ascii) : Re.hex c = true -> not_sep "-" c = true.
Proof.
  intros H. unfold not_sep. destruct (Ascii.eqb c "-") eqn:E; [|reflexivity].
  apply Ascii.eqb_eq in E. subst c. discriminate H.
Qed.

Lemma digit_not_dash (c : ascii) : Re.digit c = true -> not_sep "-" c = true.
Proof.
  intros H. unfold not_sep. destruct (Ascii.eqb c "-") eqn:E; [|reflexivity].
  apply Ascii.eqb_eq in E. subst c. discriminate H.
Qed.

(** For every key of the Mailchimp shape the factory extracts exactly
    the region suffix. *)
Lemma extract_region_spec (secret region : string) :
  Re.all Re.hex secret = true ->
  Re.all Re.digit region = true ->
  ESPServiceFactory.extractDataCenterFromMailchimpKey (secret ++ "-us" ++ region)
  = Some ("us" ++ region).
Proof.
  intros Hh Hd. unfold ESPServiceFactory.extractDataCenterFromMailchimpKey.
  change (secret ++ "-us" ++ region) with (secret ++ String "-" ("us" ++ region)).
  rewrite split_app by (eapply all_impl; [apply hex_not_dash | exact Hh]).
  rewrite split_no_sep; [reflexivity|].
  simpl. eapply all_impl; [apply digit_not_dash | exact Hd].
Qed.

Lemma createService_submitted (p k : string) :
  key_shape_ok p k ->
  (p =? "mailchimp") && negb (Js.truthy_opt (submitted_dataCenter p k)) = false
  /\ exists service,
       ESPServiceFactory.createService (submitted_credentials p k) = Return service.
Proof.
  unfold submitted_credentials, submitted_dataCenter, ESPServiceFactory.createService.
  intros [[-> [secret [region [-> [_ [Hh [_ Hd]]]]]]]|[-> _]]; cbn [cred_provider cred_apiKey cred_dataCenter].
  - rewrite String.eqb_refl, (extract_region_spec _ _ Hh Hd).
    split; [reflexivity|]. eexists. reflexivity.
  - change ("getresponse" =? "mailchimp") with false.
    rewrite String.eqb_refl.
    split; [reflexivity|]. eexists. reflexivity.
Qed.

End Extraction.

Section Submission.

Import ESPIntegrationModel IntegrationController.

Lemma find_set_first (s : list ESPIntegration) (e : ESPIntegration)
    (f : ESPIntegration -> ESPIntegration) :
  NoDup (map _id s) -> In e s -> (forall d, _id (f d) = _id d) ->
  List.find (has_id (_id e)) (set_first (_id e) f s) = Some (f e).
Proof.
  intros Hnd Hin Hf. induction s as [|d s IH]; [contradiction|].
  simpl in Hnd. inversion Hnd as [|x l Hnotin Hnd']; subst.
  simpl. destruct (_id d =? _id e)%nat eqn:E.
  - apply Nat.eqb_eq in E.
    assert (d = e) as ->.
    { destruct Hin as [->|Hin]; [reflexivity|].
      exfalso. apply Hnotin. rewrite E. now apply in_map. }
    simpl. unfold has_id. rewrite Hf, Nat.eqb_refl. reflexivity.
  - simpl. unfold has_id at 1. rewrite E.
    apply IH; [exact Hnd'|].
    destruct Hin as [->|Hin]; [|exact Hin].
    rewrite Nat.eqb_refl in E. discriminate.
Qed.

Lemma set_first_others (s : list ESPIntegration) (id : nat)
    (f : ESPIntegration -> ESPIntegration) (d : ESPIntegration) :
  In d s -> _id d <> id -> In d (set_first id f s).
Proof.
  intros Hin Hne. induction s as [|x s IH]; [contradiction|].
  simpl. destruct (_id x =? id)%nat eqn:E.
  - destruct Hin as [->|Hin]; [|now right].
    apply Nat.eqb_eq in E. contradiction.
  - destruct Hin as [->|Hin]; [now left | right; now apply IH].
Qed.

(** The region a well-formed submission is stored with. *)
Lemma submitted_region (p k : string) (d : ESPIntegration) :
  ESPServiceFactory.validateApiKeyFormat p k = true ->
  provider d = p -> apiKey d = k -> dataCenter d = submitted_dataCenter p k ->
  holds_region d.
Proof.
  intros Hv Hp Hk Hdc. apply validateApiKeyFormat_spec in Hv.
  unfold holds_region, submitted_dataCenter in *. rewrite Hp, Hk, Hdc.
  destruct Hv as [[-> [secret [region [-> [Hl [Hh [_ Hd]]]]]]]|[-> _]].
  - split; [|discriminate]. intros _. exists secret, region. split; [reflexivity|].
    split; [exact Hl|].
    rewrite String.eqb_refl, (extract_region_spec _ _ Hh Hd). reflexivity.
  - split; [discriminate|]. intros _. reflexivity.
Qed.

End Submission.

(** C4: a successful create-or-verify submission leaves one record [d]
    that holds the submitted provider and key, the region of the key, is
    active and verified at the time of the submission, and the response
    tells of that record. When the provider had no active record the
    status is 201 and [d] is a new record, added to the collection; when
    it had one, the status is 200 and [d] has taken the place of the
    provider's first active record, with its id and creation date, every
    other record being left as it was. The hypothesis is the uniqueness
    of [_id] that the database guarantees. *)
Theorem created_or_updated :
  forall (env : Env) (submitted key : string) (w : World)
         (status : Z) (data : CreatedData) (w' : World),
    NoDup (map _id (store w)) ->
    IntegrationController.createESPIntegration env submitted key w
    = (Return (status, data), w') ->
    exists d,
      holds_submission submitted key (clock w) d
      /\ holds_region d
      /\ tells_of data d
      /\ ((forall x, In x (store w) -> active_for submitted x = false) ->
          status = 201%Z
          /\ store w' = (store w ++ [d])%list
          /\ _id d = next_id w
          /\ createdAt d = clock w)
      /\ (forall before existing after,
             store w = (before ++ existing :: after)%list ->
             active_for submitted existing = true ->
             (forall x, In x before -> active_for submitted x = false) ->
             status = 200%Z
             /\ store w' = (before ++ d :: after)%list
             /\ _id d = _id existing
             /\ createdAt d = createdAt existing).
Proof.
  intros env p k w status data w' Hnd. rewrite create_run.
  destruct ((p =? "mailchimp") && _); [discriminate|].
  destruct (ESPServiceFactory.validateApiKeyFormat p k) eqn:Hv; [|discriminate].
  cbn [negb].
  destruct (ESPServiceFactory.createService _) as [service|e]; [|discriminate].
  rewrite validateConnection_run.
  destruct (negb (isValid _)); [discriminate|].
  cbn [store push_sent writes clock].
  destruct (List.find (ESPIntegrationModel.matches (Some p)) (store w))
    as [found|] eqn:Hfind; cbv zeta.
  - destruct (db_write_ok env (writes w)); [|discriminate].
    intros H. injection H as <- <- <-.
    pose proof (find_some _ _ Hfind) as [Hin Hact].
    rewrite matches_active in Hact. apply active_for_provider in Hact as [Hact Hprov].
    exists (ESPIntegrationModel.assign_credentials k (submitted_dataCenter p k) (clock w) found).
    split; [repeat split; assumption|].
    split; [apply (@submitted_region p k); first [exact Hv | assumption | reflexivity]|].
    split; [repeat split|].
    split.
    + intros Hnone. specialize (Hnone found Hin).
      unfold active_for in Hnone. rewrite Hact, Hprov, String.eqb_refl in Hnone.
      discriminate.
    + intros before existing after Hs Hex Hbefore.
      assert (found = existing) as ->.
      { rewrite Hs in Hfind.
        rewrite (find_first_unique (ESPIntegrationModel.matches (Some p)) before after
                   existing Hex Hbefore) in Hfind.
        now injection Hfind. }
      split; [reflexivity|]. split; [|split; reflexivity].
      cbn [store count_write set_store]. rewrite Hs.
      apply set_first_split; [|apply Nat.eqb_refl].
      intros x Hx. unfold has_id. apply Nat.eqb_neq. intros Heq.
      rewrite Hs, map_app in Hnd. cbn [map] in Hnd.
      apply NoDup_remove_2 in Hnd. apply Hnd. apply in_or_app. left.
      rewrite <- Heq. now apply in_map.
  - destruct (db_write_ok env (writes w)); [|discriminate].
    intros H. injection H as <- <- <-.
    exists (new_record p k w).
    split; [repeat split|].
    split; [apply (@submitted_region p k); first [exact Hv | assumption | reflexivity]|].
    split; [repeat split|].
    split.
    + intros _. repeat split.
    + intros before existing after Hs Hex Hbefore. exfalso.
      pose proof (find_none _ _ Hfind existing) as Hn.
      rewrite matches_active, Hex in Hn. apply Bool.diff_true_false, Hn.
      rewrite Hs. apply in_or_app. right. now left.
Qed.

Lemma two_integrations_ids : NoDup (map _id (store two_integrations)).
Proof.
  simpl. constructor.
  - simpl. intros [H|[]]. discriminate H.
  - constructor; [intros [] | constructor].
Defined.

Lemma created_or_updated_witness :
  (exists data w',
      IntegrationController.createESPIntegration accepting "mailchimp"
        "bbbbbbbbbbbbbbbbbbbbbbbbbbbbbbbb-us7" two_integrations
      = (Return (200%Z, data), w')
      /\ exists d,
           holds_submission "mailchimp" "bbbbbbbbbbbbbbbbbbbbbbbbbbbbbbbb-us7" 7 d
           /\ holds_region d
           /\ tells_of data d
           /\ ((forall x, In x (store two_integrations) -> active_for "mailchimp" x = false) ->
               200%Z = 201%Z
               /\ store w' = (store two_integrations ++ [d])%list
               /\ _id d = 2
               /\ createdAt d = 7)
           /\ (forall before existing after,
                  store two_integrations = (before ++ existing :: after)%list ->
                  active_for "mailchimp" existing = true ->
                  (forall x, In x before -> active_for "mailchimp" x = false) ->
                  200%Z = 200%Z
                  /\ store w' = (before ++ d :: after)%list
                  /\ _id d = _id existing
                  /\ createdAt d = createdAt existing))
  /\ (exists data w',
         IntegrationController.createESPIntegration accepting "getresponse"
           "abcdefghij0123456789" empty_world
         = (Return (201%Z, data), w')
         /\ exists d,
              holds_submission "getresponse" "abcdefghij0123456789" 7 d
              /\ holds_region d
              /\ tells_of data d
              /\ ((forall x, In x (store empty_world) -> active_for "getresponse" x = false) ->
                  201%Z = 201%Z
                  /\ store w' = (store empty_world ++ [d])%list
                  /\ _id d = 0
                  /\ createdAt d = 7)
              /\ (forall before existing after,
                     store empty_world = (before ++ existing :: after)%list ->
                     active_for "getresponse" existing = true ->
                     (forall x, In x before -> active_for "getresponse" x = false) ->
                     201%Z = 200%Z
                     /\ store w' = (before ++ d :: after)%list
                     /\ _id d = _id existing
                     /\ createdAt d = createdAt existing)).
Proof.
  split.
  - eexists. eexists. split; [reflexivity|].
    exact (@created_or_updated accepting "mailchimp" "bbbbbbbbbbbbbbbbbbbbbbbbbbbbbbbb-us7"
             two_integrations _ _ _ two_integrations_ids eq_refl).
  - eexists. eexists. split; [reflexivity|].
    exact (@created_or_updated accepting "getresponse" "abcdefghij0123456789"
             empty_world _ _ _ (NoDup_nil nat) eq_refl).
Defined.

(* ===================================================================== *)
(** ** Re-testing a stored integration *)
(* ===================================================================== *)

(** C5, as stated, fails on its last clause: when the connection is
    valid but saving the refreshed timestamp fails, the handler throws
    the error of the write and the caller gets a 500 response, not the
    validation outcome. *)
Lemma retest_lost_on_failed_write :
  List.find (has_id 1) (store two_integrations) = Some stored_getresponse
  /\ isActive stored_getresponse = true
  /\ lastVerified stored_getresponse <> Some (clock two_integrations)
  /\ (exists vr,
        fst (validateConnection unwritable (GetResponse getresponse_client) two_integrations)
        = Return vr /\ isValid vr = true)
  /\ fst (IntegrationController.testIntegration unwritable 1 two_integrations)
     = Throw write_failed
  /\ (exists body,
        fst (asyncHandler unwritable (IntegrationController.testIntegration unwritable 1)
               two_integrations)
        = Failure 500 body
        /\ error_code body = "INTERNAL_ERROR"
        /\ error_message body = "Internal server error").
Proof.
  split; [reflexivity|]. split; [reflexivity|]. split; [discriminate|].
  split; [eexists; split; reflexivity|].
  split; [reflexivity|].
  eexists. split; [reflexivity|]. split; reflexivity.
Qed.

Lemma same_date_spec (stored : option nat) (date : nat) :
  IntegrationController.same_date stored date = true <-> stored = Some date.
Proof.
  unfold IntegrationController.same_date. destruct stored as [t|].
  - rewrite Nat.eqb_eq. split; [intros ->; reflexivity | intros H; now injection H].
  - split; discriminate.
Qed.

(** C5 (amended): an id that is no ObjectId is refused by the query;
    re-testing a missing or inactive record throws the 404 error
    [INTEGRATION_NOT_FOUND]; when the adapter cannot be built from the
    stored record the handler throws the error of the factory; in all
    three cases nothing is sent. Otherwise [validateConnection] is called
    (one request) and returns. An invalid outcome is returned to the
    caller with nothing written. A valid outcome is returned with the
    time of the re-test as verification timestamp, and that timestamp is
    saved in the record, the rest of the record and the other records
    being left as they were (nothing is written when the record already
    holds it); when the write fails, the handler throws the error of the
    write instead of returning the outcome. *)
Theorem retest_outcome :
  forall (env : Env) (id : IdParam) (w : World),
    match id with
    | Malformed _ =>
        IntegrationController.testIntegration env id w
        = (Throw (OtherErr "CastError" None), w)
    | ObjectId n =>
        match List.find (has_id n) (store w) with
        | None =>
            IntegrationController.testIntegration env id w
            = (Throw (AppErr (INTEGRATION_NOT_FOUND "Integration not found or inactive")), w)
        | Some d =>
            if isActive d then
              match ESPServiceFactory.createService
                      (IntegrationController.credentials_of
                         (ESPIntegrationModel.select_apiKey (ESPIntegrationModel.load d))) with
              | Throw e => IntegrationController.testIntegration env id w = (Throw e, w)
              | Return service =>
                  let w1 := push_sent w (whoami service) in
                  let answer := IntegrationController.testIntegration env id w in
                  exists vr before after,
                    validateConnection env service w = (Return vr, w1)
                    /\ store w = (before ++ d :: after)%list
                    /\ (forall x, In x before -> _id x <> n)
                    /\ (isValid vr = false ->
                        answer = (Return (200%Z, test_data vr (lastVerified d)), w1))
                    /\ (isValid vr = true ->
                        lastVerified d = Some (clock w) ->
                        answer = (Return (200%Z, test_data vr (Some (clock w))), w1))
                    /\ (isValid vr = true ->
                        lastVerified d <> Some (clock w) ->
                        answer
                        = if db_write_ok env (writes w)
                          then (Return (200%Z, test_data vr (Some (clock w))),
                                count_write
                                  (set_store w1
                                     (before ++ verified_at (clock w) d :: after)%list))
                          else (Throw write_failed, count_write w1))
              end
            else
              IntegrationController.testIntegration env id w
              = (Throw (AppErr (INTEGRATION_NOT_FOUND "Integration not found or inactive")), w)
        end
    end.
Proof.
  intros env [n|text] w; [|reflexivity].
  rewrite test_run.
  destruct (List.find (has_id n) (store w)) as [d|] eqn:Hfind; [|reflexivity].
  destruct (isActive d); simpl; [|reflexivity].
  destruct (ESPServiceFactory.createService _) as [service|e]; [|reflexivity].
  rewrite validateConnection_run.
  destruct (find_first_split _ _ Hfind) as [before [after [Hs Hb]]].
  pose proof (find_some _ _ Hfind) as [_ Hid].
  eexists. exists before, after. split; [reflexivity|]. split; [exact Hs|].
  split; [intros x Hx; apply Nat.eqb_neq; exact (Hb x Hx)|].
  cbn [clock push_sent writes store].
  split; [intros ->; reflexivity|].
  split.
  - intros -> Hsame. apply same_date_spec in Hsame. now rewrite Hsame.
  - intros -> Hdiff.
    destruct (IntegrationController.same_date (lastVerified d) (clock w)) eqn:Hsame;
      [apply same_date_spec in Hsame; contradiction|].
    destruct (db_write_ok env (writes w)); [|reflexivity].
    do 3 f_equal. rewrite Hs.
    assert (Hn : _id d = n) by (apply Nat.eqb_eq; exact Hid). rewrite Hn.
    exact (set_first_split n (ESPIntegrationModel.assign_lastVerified (clock w))
             before after d Hb Hid).
Qed.

(* ===================================================================== *)
(** ** The aggregate list fetch *)
(* ===================================================================== *)

Section Aggregate.

Import ESPIntegrationModel IntegrationController.

Variable env : Env.

Lemma bind_run {A B} (m : M A) (k : A -> M B) (w : World) :
  bind m k w = match m w with
               | (Return a, w1) => k a w1
               | (Throw e, w1) => (Throw e, w1)
               end.
Proof. reflexivity. Qed.

Lemma attempt_step (integration : Document) (allLists : list ListEntry) (w : World) :
  try_catch
    (service <- lift (ESPServiceFactory.createService (credentials_of integration)) ;;
     fetched <- getLists env service ;;
     ret (allLists ++ map (tagged integration) fetched)%list)
    (fun _ => ret (allLists ++ [failed_entry integration])%list) w
  = (Return (allLists ++ contribution (integration, fst (attempt env integration w)))%list,
     snd (attempt env integration w)).
Proof.
  unfold try_catch, attempt, bind, lift, ret, contribution.
  destruct (ESPServiceFactory.createService (credentials_of integration)) as [service|e];
    [|reflexivity].
  destruct (getLists env service w) as [[fetched|e] w1]; reflexivity.
Qed.

Lemma fetch_each_spec (integrations : list Document) :
  forall (allLists : list ListEntry) (w : World),
    fst (fetch_each env integrations allLists w)
    = Return (allLists ++ flat_map contribution (fetch_outcomes env integrations w))%list.
Proof.
  induction integrations as [|integration rest IH]; intros allLists w.
  - simpl. now rewrite app_nil_r.
  - cbn [fetch_each fetch_outcomes flat_map].
    rewrite bind_run, attempt_step, IH, <- app_assoc. reflexivity.
Qed.

Lemma lists_run (q : option string) (w : World) :
  getESPLists env q w =
  if negb (filter_accepted q) then (Throw (AppErr INVALID_PROVIDER), w)
  else
    match matching q w with
    | [] => (Throw (AppErr (NO_INTEGRATIONS q)), w)
    | _ :: _ =>
        let allLists := flat_map contribution (fetch_outcomes env (matching q w) w) in
        (Return (200%Z,
                 {| lists := allLists;
                    ld_totalCount := List.length allLists;
                    providers := Js.set_of [] (map provider_of allLists) |}),
         snd (fetch_each env (matching q w) [] w))
    end.
Proof.
  unfold getESPLists, filter_accepted, matching, filter_of, NO_INTEGRATIONS.
  unfold bind at 1.
  destruct (Js.truthy_opt q) eqn:Hq; cbn [negb orb].
  - destruct (existsb _ _); cbn [negb]; [|reflexivity].
    unfold ret at 1. unfold bind at 1, find. cbn [fst snd].
    destruct (filter (matches q) (store w)) as [|d ds] eqn:Hf; [reflexivity|].
    cbn [map List.length Nat.eqb]. unfold bind at 1, ret at 1. unfold bind.
    pose proof (fetch_each_spec (select_apiKey (load d) :: map select_apiKey (map load ds))
                  [] w) as Hspec.
    destruct (fetch_each env _ [] w) as [[allLists|e] w1]; simpl in Hspec; [|discriminate].
    injection Hspec as ->. reflexivity.
  - unfold ret at 1. unfold bind at 1, find. cbn [fst snd].
    destruct (filter (matches None) (store w)) as [|d ds] eqn:Hf; [reflexivity|].
    cbn [map List.length Nat.eqb]. unfold bind at 1, ret at 1. unfold bind.
    pose proof (fetch_each_spec (select_apiKey (load d) :: map select_apiKey (map load ds))
                  [] w) as Hspec.
    destruct (fetch_each env _ [] w) as [[allLists|e] w1]; simpl in Hspec; [|discriminate].
    injection Hspec as ->. reflexivity.
Qed.

Lemma contribution_counts (outcomes : list (Document * Completion (list MailingList))) :
  List.length (filter is_failed (flat_map contribution outcomes))
  = List.length (filter (fun o => threw (snd o)) outcomes)
  /\ List.length (filter is_listed (flat_map contribution outcomes)) = fetched_total outcomes.
Proof.
  unfold fetched_total.
  induction outcomes as [|[integration [fetched|e]] rest [IHf IHl]]; simpl; [split; reflexivity| |].
  - unfold contribution at 1 3. cbn [fst snd].
    rewrite !filter_app, !List.length_app, IHf, IHl.
    assert (Hf : filter is_failed (map (tagged integration) fetched) = []).
    { clear. induction fetched; simpl; auto. }
    assert (Hl : filter is_listed (map (tagged integration) fetched)
                 = map (tagged integration) fetched).
    { clear. induction fetched; simpl; [reflexivity | now f_equal]. }
    rewrite Hf, Hl, length_map. split; reflexivity.
  - rewrite IHf, IHl. split; reflexivity.
Qed.

Lemma filter_partition_length (entries : list ListEntry) :
  List.length entries
  = List.length (filter is_listed entries) + List.length (filter is_failed entries).
Proof.
  induction entries as [|e entries IH]; simpl; [reflexivity|].
  unfold is_listed at 1. destruct (is_failed e); simpl; lia.
Qed.

End Aggregate.

Lemma fetch_outcomes_integrations (env : Env) (integrations : list Document) :
  forall w, map fst (fetch_outcomes env integrations w) = integrations.
Proof.
  induction integrations as [|integration rest IH]; intros w; simpl; [reflexivity|].
  now rewrite IH.
Qed.

(** C2: with an accepted filter, an aggregate list fetch over a
    non-empty set of matching active integrations returns with status
    200 whatever the attempts did: there is one attempt per matching
    integration, and the entries are, attempt after attempt, the lists of
    an attempt that returned, tagged with its provider and record id, or
    one error marker with its provider and record id for an attempt that
    threw. Over an empty set of matching records the handler throws the
    404 error [NO_INTEGRATIONS] and sends nothing. *)
Theorem partial_failure_tolerated :
  forall (env : Env) (q : option string) (w : World),
    filter_accepted q = true ->
    match matching q w with
    | [] =>
        IntegrationController.getESPLists env q w
        = (Throw (AppErr (NO_INTEGRATIONS q)), w)
        /\ statusCode (NO_INTEGRATIONS q) = 404%Z
    | _ :: _ =>
        let outcomes := fetch_outcomes env (matching q w) w in
        exists data w',
          IntegrationController.getESPLists env q w = (Return (200%Z, data), w')
          /\ lists data = flat_map contribution outcomes
          /\ map fst outcomes = matching q w
          /\ (forall integration completion,
                 In (integration, completion) outcomes ->
                 contribution (integration, completion)
                 = match completion with
                   | Return fetched =>
                       map (fun l => Listed l (provider (fields integration))
                                       (_id (fields integration))) fetched
                   | Throw _ =>
                       [FetchFailed (provider (fields integration))
                          (_id (fields integration))
                          "Failed to fetch lists from this provider"]
                   end)
    end.
Proof.
  intros env q w Hq. rewrite lists_run, Hq. cbn [negb].
  destruct (matching q w) as [|d ds]; [split; reflexivity|].
  eexists. eexists. split; [reflexivity|]. split; [reflexivity|].
  split; [apply fetch_outcomes_integrations|].
  intros integration [fetched|e] _; reflexivity.
Qed.

Lemma partial_failure_witness :
  filter_accepted None = true
  /\ exists data w',
       IntegrationController.getESPLists mailchimp_down None two_integrations
       = (Return (200%Z, data), w')
       /\ lists data
          = flat_map contribution
              (fetch_outcomes mailchimp_down (matching None two_integrations) two_integrations)
       /\ map fst (fetch_outcomes mailchimp_down (matching None two_integrations)
                     two_integrations)
          = matching None two_integrations
       /\ (forall integration completion,
              In (integration, completion)
                (fetch_outcomes mailchimp_down (matching None two_integrations)
                   two_integrations) ->
              contribution (integration, completion)
              = match completion with
                | Return fetched =>
                    map (fun l => Listed l (provider (fields integration))
                                    (_id (fields integration))) fetched
                | Throw _ =>
                    [FetchFailed (provider (fields integration))
                       (_id (fields integration))
                       "Failed to fetch lists from this provider"]
                end).
Proof.
  split; [reflexivity|].
  exact (partial_failure_tolerated mailchimp_down None two_integrations eq_refl).
Defined.

(** C10: in the response of the aggregate list fetch, [totalCount] is
    the length of the entries array; every attempt that threw put exactly
    one error marker there, so [totalCount] is the number of lists
    fetched plus the number of integrations that failed. *)
Theorem total_count_includes_error_markers :
  forall (env : Env) (q : option string) (w : World)
         (status : Z) (data : ListsData) (w' : World),
    IntegrationController.getESPLists env q w = (Return (status, data), w') ->
    let outcomes := fetch_outcomes env (matching q w) w in
    let failures := List.length (filter (fun o => threw (snd o)) outcomes) in
    ld_totalCount data = List.length (lists data)
    /\ List.length (filter is_failed (lists data)) = failures
    /\ List.length (filter is_listed (lists data)) = fetched_total outcomes
    /\ ld_totalCount data = fetched_total outcomes + failures.
Proof.
  intros env q w status data w'. rewrite lists_run.
  destruct (negb (filter_accepted q)); [discriminate|].
  destruct (matching q w) as [|d ds] eqn:Hm; [discriminate|].
  intros H. injection H as <- <- <-. cbn [lists ld_totalCount].
  destruct (contribution_counts (fetch_outcomes env (d :: ds) w)) as [Hf Hl].
  pose proof (filter_partition_length
                (flat_map contribution (fetch_outcomes env (d :: ds) w))) as Hp.
  split; [reflexivity|]. split; [exact Hf|]. split; [exact Hl|].
  rewrite <- Hl, <- Hf. exact Hp.
Qed.

Lemma total_count_witness :
  IntegrationController.getESPLists mailchimp_down None two_integrations
  = (Return (200%Z, partial_listing), partial_world)
  /\ ld_totalCount partial_listing = 3
  /\ ld_totalCount partial_listing = List.length (lists partial_listing)
  /\ List.length (filter is_failed (lists partial_listing))
     = List.length (filter (fun o => threw (snd o))
                      (fetch_outcomes mailchimp_down (matching None two_integrations)
                         two_integrations))
  /\ List.length (filter is_listed (lists partial_listing))
     = fetched_total (fetch_outcomes mailchimp_down (matching None two_integrations)
                        two_integrations)
  /\ ld_totalCount partial_listing
     = fetched_total (fetch_outcomes mailchimp_down (matching None two_integrations)
                        two_integrations)
       + List.length (filter (fun o => threw (snd o))
                        (fetch_outcomes mailchimp_down (matching None two_integrations)
                           two_integrations)).
Proof.
  assert (H : IntegrationController.getESPLists mailchimp_down None two_integrations
              = (Return (200%Z, partial_listing), partial_world)) by reflexivity.
  split; [exact H|]. split; [reflexivity|].
  exact (total_count_includes_error_markers mailchimp_down None two_integrations H).
Defined.

(* ===================================================================== *)
(** ** The key never leaves *)
(* ===================================================================== *)

Section Secrecy.

Import ESPIntegrationModel IntegrationController.

Variable env : Env.

Lemma toJSON_omits (doc : Document) : has_own "apiKey" (toJSON doc) = false.
Proof.
  unfold toJSON, toObject, has_own.
  destruct (apiKey_selected doc), (dataCenter (fields doc)), (lastVerified (fields doc));
    reflexivity.
Qed.

Lemma toJSON_redact (d : ESPIntegration) : toJSON (load (redact d)) = toJSON (load d).
Proof. reflexivity. Qed.

Lemma listing_redact (s : list ESPIntegration) :
  map toJSON (map load (filter (matches None) (map redact s)))
  = map toJSON (map load (filter (matches None) s)).
Proof.
  induction s as [|d s IH]; simpl; [reflexivity|].
  change (matches None (redact d)) with (matches None d).
  destruct (matches None d); simpl; [rewrite IH; reflexivity | exact IH].
Qed.

Lemma errorHandler_failure {A} (e : Exn) :
  exists status b, @errorHandler env A e = Failure status b.
Proof.
  unfold errorHandler.
  destruct (match e with AppErr a => _ | OtherErr name errno => _ end) as [[status c] msg].
  eexists. eexists. reflexivity.
Qed.

Lemma omits_failure {A} (render : A -> JsVal) (e : Exn) :
  omits "apiKey" (Render.body render (@errorHandler env A e)) = true.
Proof.
  destruct (@errorHandler_failure A e) as [status [b ->]].
  unfold Render.body. destruct (error_details b); reflexivity.
Qed.

Lemma accountInfo_shape (service : Service) (w : World) (vr : ESPValidationResult) (w1 : World) :
  validateConnection env service w = (Return vr, w1) -> account_shape (accountInfo vr).
Proof.
  rewrite validateConnection_run. intros H. injection H as <- _.
  unfold validation_of.
  destruct (upstream env (sent w) (whoami service)) as [st data|error]; [|now left].
  destruct (readable data); [|now left].
  right. exists data. destruct service; [now left | now right].
Qed.

Lemma omits_created (status : Z) (integration : ESPIntegration) (vr : ESPValidationResult) :
  account_shape (accountInfo vr) ->
  omits "apiKey" (Render.body Render.created (Success status (created_data integration vr)))
  = true.
Proof.
  unfold created_data. intros [H|[data [H|H]]]; unfold omits, Render.body, Render.created;
    cbn [cd_accountInfo cd_dataCenter cd_lastVerified]; rewrite H;
    destruct (dataCenter integration), (lastVerified integration); reflexivity.
Qed.

Lemma omits_tested (status : Z) (vr : ESPValidationResult) (lv : option nat) :
  account_shape (accountInfo vr) ->
  omits "apiKey" (Render.body Render.tested (Success status (test_data vr lv))) = true.
Proof.
  unfold test_data. intros [H|[data [H|H]]]; unfold omits, Render.body, Render.tested;
    cbn [td_accountInfo td_error td_lastVerified]; rewrite H;
    destruct (vr_error vr), lv; reflexivity.
Qed.

Lemma create_omits (p k : string) (w : World) :
  omits "apiKey"
    (Render.body Render.created (fst (asyncHandler env (createESPIntegration env p k) w)))
  = true.
Proof.
  unfold asyncHandler. rewrite create_run.
  destruct ((p =? "mailchimp") && _); [apply omits_failure|].
  destruct (negb (ESPServiceFactory.validateApiKeyFormat p k)); [apply omits_failure|].
  destruct (ESPServiceFactory.createService _) as [service|e]; [|apply omits_failure].
  destruct (validateConnection env service w) as [[vr|e] w1] eqn:Hvc; [|apply omits_failure].
  apply accountInfo_shape in Hvc.
  destruct (negb (isValid vr)); [apply omits_failure|].
  destruct (List.find _ (store w1)); cbv zeta;
    (destruct (db_write_ok env (writes w1)); [now apply omits_created | apply omits_failure]).
Qed.

Lemma test_omits (id : IdParam) (w : World) :
  omits "apiKey"
    (Render.body Render.tested (fst (asyncHandler env (testIntegration env id) w)))
  = true.
Proof.
  unfold asyncHandler. destruct id as [id|text]; [|apply omits_failure].
  rewrite test_run.
  destruct (List.find (has_id id) (store w)) as [d|]; [|apply omits_failure].
  destruct (negb (isActive d)); [apply omits_failure|].
  destruct (ESPServiceFactory.createService _) as [service|e]; [|apply omits_failure].
  destruct (validateConnection env service w) as [[vr|e] w1] eqn:Hvc; [|apply omits_failure].
  apply accountInfo_shape in Hvc.
  destruct (isValid vr); [|now apply omits_tested].
  destruct (same_date _ _); [now apply omits_tested|].
  destruct (db_write_ok env (writes w1)); [now apply omits_tested | apply omits_failure].
Qed.

Lemma listing_omits (w : World) :
  omits "apiKey"
    (Render.body Render.integrations_data (fst (asyncHandler env (getIntegrations env) w)))
  = true.
Proof.
  unfold asyncHandler, getIntegrations, bind, find, ret, omits. simpl.
  rewrite !andb_true_r. rewrite forallb_forall. intros x Hx.
  apply in_map_iff in Hx as [doc [<- _]]. now rewrite toJSON_omits.
Qed.

Lemma entry_omits (e : ListEntry) : has_own "apiKey" (Render.entry e) = false.
Proof. destruct e as [[| ] p i|p i err]; reflexivity. Qed.

Lemma lists_omits (q : option string) (w : World) :
  omits "apiKey"
    (Render.body Render.lists_data (fst (asyncHandler env (getESPLists env q) w)))
  = true.
Proof.
  unfold asyncHandler.
  destruct (getESPLists env q w) as [[[status data]|e] w1]; [|apply omits_failure].
  unfold omits, Render.body, Render.lists_data. cbn -[Render.entry].
  rewrite !andb_true_r. apply andb_true_iff. split.
  - apply forallb_forall. intros x Hx.
    apply in_map_iff in Hx as [e [<- _]]. now rewrite entry_omits.
  - apply forallb_forall. intros x Hx.
    apply in_map_iff in Hx as [p [<- _]]. reflexivity.
Qed.

Lemma delete_omits (id : IdParam) (w : World) :
  omits "apiKey"
    (Render.body Render.deleted (fst (asyncHandler env (deleteIntegration env id) w)))
  = true.
Proof.
  unfold asyncHandler.
  destruct (deleteIntegration env id w) as [[[status data]|e] w1]; [|apply omits_failure].
  reflexivity.
Qed.

Lemma listing_body (w : World) :
  Render.body Render.integrations_data (fst (asyncHandler env (getIntegrations env) w))
  = JObj [("success", JBool true);
          ("data",
           JObj [("integrations",
                  JArr (map toJSON (map load (filter (matches None) (store w)))));
                 ("totalCount",
                  Render.num (List.length (map load (filter (matches None) (store w)))))])].
Proof. reflexivity. Qed.

Lemma listing_independent_of_keys (w w2 : World) :
  map redact (store w2) = map redact (store w) ->
  Render.body Render.integrations_data (fst (asyncHandler env (getIntegrations env) w2))
  = Render.body Render.integrations_data (fst (asyncHandler env (getIntegrations env) w)).
Proof.
  intros H. rewrite !listing_body, !length_map.
  assert (Hlen : forall s, List.length (filter (matches None) s)
                           = List.length (filter (matches None) (map redact s))).
  { clear. induction s as [|d s IH]; simpl; [reflexivity|].
    change (matches None (redact d)) with (matches None d).
    destruct (matches None d); simpl; now rewrite IH. }
  rewrite (Hlen (store w2)), (Hlen (store w)).
  rewrite <- (listing_redact (store w2)), <- (listing_redact (store w)), H.
  reflexivity.
Qed.

(** Looking up a record by a criterion that does not read the key finds
    like records in like collections. *)
Lemma find_alike (P : ESPIntegration -> bool) :
  (forall x y, redact x = redact y -> P x = P y) ->
  forall s s2,
    map redact s2 = map redact s ->
    match List.find P s2, List.find P s with
    | Some d2, Some d => redact d2 = redact d
    | None, None => True
    | _, _ => False
    end.
Proof.
  intros HP s. induction s as [|d s IH]; intros [|d2 s2] H; try discriminate; [exact I|].
  cbn [map] in H.
  assert (Hd : redact d2 = redact d) by exact (f_equal (hd (redact d)) H).
  assert (Hs : map redact s2 = map redact s) by exact (f_equal (@tl _) H).
  cbn [List.find].
  rewrite (HP d2 d Hd). destruct (P d); [exact Hd | now apply IH].
Qed.

Lemma redact_fields (x y : ESPIntegration) :
  redact x = redact y ->
  _id x = _id y /\ provider x = provider y /\ dataCenter x = dataCenter y
  /\ isActive x = isActive y /\ lastVerified x = lastVerified y
  /\ createdAt x = createdAt y /\ updatedAt x = updatedAt y.
Proof. unfold redact. intros H. injection H. intros. repeat split; assumption. Qed.

Lemma asyncHandler_fst {A} (fn : M (Z * A)) (w : World) :
  fst (asyncHandler env fn w)
  = match fst (fn w) with
    | Return (status, data) => Success status data
    | Throw err => errorHandler env err
    end.
Proof. unfold asyncHandler. destruct (fn w) as [[[status data]|err] w']; reflexivity. Qed.

Lemma create_independent (p k : string) (w w2 : World) :
  same_but_keys w w2 ->
  fst (createESPIntegration env p k w2) = fst (createESPIntegration env p k w).
Proof.
  intros (Hs & Hsent & Hw & Hc & Hn). rewrite !create_run.
  destruct ((p =? "mailchimp") && _); [reflexivity|].
  destruct (negb (ESPServiceFactory.validateApiKeyFormat p k)); [reflexivity|].
  destruct (ESPServiceFactory.createService _) as [service|e]; [|reflexivity].
  rewrite !validateConnection_run, Hsent.
  destruct (negb (isValid _)); [reflexivity|].
  cbn [store push_sent writes clock]. rewrite Hw, Hc.
  pose proof (find_alike (matches (Some p))
                (fun x y H => f_equal (matches (Some p)) H) _ _ Hs) as Hfind.
  change (fun d => matches (Some p) (redact d)) with (matches (Some p)) in Hfind.
  destruct (List.find (matches (Some p)) (store w2)) as [d2|],
           (List.find (matches (Some p)) (store w)) as [d|]; try contradiction; cbv zeta.
  - destruct (db_write_ok env (writes w)); [|reflexivity].
    cbn [fst]. apply redact_fields in Hfind as (H1 & H2 & H3 & H4 & H5 & H6 & H7).
    unfold created_data, assign_credentials. cbn. now rewrite H1, H2, H4, H6.
  - destruct (db_write_ok env (writes w)); [|reflexivity].
    cbn [fst]. unfold new_record. cbn [next_id clock push_sent]. now rewrite Hn, Hc.
Qed.

Lemma delete_independent (id : IdParam) (w w2 : World) :
  same_but_keys w w2 ->
  fst (deleteIntegration env id w2) = fst (deleteIntegration env id w).
Proof.
  intros (Hs & Hsent & Hw & Hc & Hn). destruct id as [n|text]; [|reflexivity].
  rewrite !delete_run.
  pose proof (find_alike (has_id n) (fun x y H => f_equal (has_id n) H) _ _ Hs) as Hfind.
  change (fun d => has_id n (redact d)) with (has_id n) in Hfind.
  destruct (List.find (has_id n) (store w2)) as [d2|],
           (List.find (has_id n) (store w)) as [d|]; try contradiction; [|reflexivity].
  apply redact_fields in Hfind as (H1 & H2 & H3 & H4 & H5 & H6 & H7).
  rewrite H4, Hw. destruct (isActive d); [|reflexivity].
  destruct (db_write_ok env (writes w)); reflexivity.
Qed.

Lemma createService_provider (credentials : ESPCredentials) (service : Service) :
  ESPServiceFactory.createService credentials = Return service ->
  provider_name service = cred_provider credentials.
Proof.
  unfold ESPServiceFactory.createService.
  destruct (cred_provider credentials =? "mailchimp") eqn:Ep.
  - apply String.eqb_eq in Ep.
    destruct (MailchimpService.new _ _); cbn; [|discriminate].
    intros H. injection H as <-. now rewrite Ep.
  - destruct (cred_provider credentials =? "getresponse") eqn:Eg; [|discriminate].
    apply String.eqb_eq in Eg. intros H. injection H as <-. now rewrite Eg.
Qed.

(** The validation result depends on the adapter only through its
    provider. *)
Lemma validation_of_provider (service service2 : Service) (o : Outcome) :
  provider_name service2 = provider_name service ->
  validation_of service2 o = validation_of service o.
Proof.
  destruct service, service2; try discriminate; intros _; reflexivity.
Qed.

Lemma test_independent (id : IdParam) (w w2 : World) :
  same_but_keys w w2 ->
  (forall n d d2,
      id = ObjectId n ->
      List.find (has_id n) (store w) = Some d ->
      List.find (has_id n) (store w2) = Some d2 ->
      answer_to_key env w2 d2 = answer_to_key env w d) ->
  fst (testIntegration env id w2) = fst (testIntegration env id w).
Proof.
  intros (Hs & Hsent & Hw & Hc & Hn) Hkey. destruct id as [n|text]; [|reflexivity].
  rewrite !test_run.
  pose proof (find_alike (has_id n) (fun x y H => f_equal (has_id n) H) _ _ Hs) as Hfind.
  change (fun d => has_id n (redact d)) with (has_id n) in Hfind.
  specialize (Hkey n).
  destruct (List.find (has_id n) (store w2)) as [d2|],
           (List.find (has_id n) (store w)) as [d|]; try contradiction; [|reflexivity].
  specialize (Hkey d d2 eq_refl eq_refl eq_refl).
  apply redact_fields in Hfind as (H1 & H2 & H3 & H4 & H5 & H6 & H7).
  rewrite H4. destruct (negb (isActive d)); [reflexivity|].
  unfold answer_to_key in Hkey.
  destruct (ESPServiceFactory.createService (credentials_of (select_apiKey (load d2))))
    as [service2|e2] eqn:E2,
    (ESPServiceFactory.createService (credentials_of (select_apiKey (load d))))
    as [service|e] eqn:E; cbn [cbind] in Hkey; try discriminate Hkey.
  - injection Hkey as Hup.
    rewrite !validateConnection_run, Hup.
    apply createService_provider in E2. apply createService_provider in E.
    cbn [credentials_of cred_provider fields select_apiKey load] in E2, E.
    rewrite (@validation_of_provider service service2) by congruence.
    cbn [store push_sent writes clock]. rewrite H1, H5, Hw, Hc.
    destruct (isValid _); [|reflexivity].
    destruct (same_date _ _); [reflexivity|].
    destruct (db_write_ok env (writes w)); reflexivity.
  - injection Hkey as ->. reflexivity.
Qed.

End Secrecy.

(** C9, as stated, fails for the re-test response when the upstream
    quotes the token it was sent: the response has no [apiKey] property,
    but its [error] member is the message of the upstream, and the stored
    key is in the text of the body. *)
Lemma retest_echoes_key :
  let answer := asyncHandler echoing (IntegrationController.testIntegration echoing 1)
                  two_integrations in
  List.find (has_id 1) (store two_integrations) = Some stored_getresponse
  /\ apiKey stored_getresponse = "abcdefghij0123456789"
  /\ fst answer
     = Success 200 {| td_isValid := false;
                      td_provider := "getresponse";
                      td_error := Some "Invalid token: api-key abcdefghij0123456789";
                      td_accountInfo := None;
                      td_lastVerified := Some 4 |}
  /\ omits "apiKey" (Render.body Render.tested (fst answer)) = true
  /\ occurs (apiKey stored_getresponse) (Render.body Render.tested (fst answer)) = true.
Proof. repeat split. Qed.

(** The re-test of a record answers the same whatever key the record
    holds, as long as the upstream answers the same. *)
Example retest_same_for_other_key :
  let other := {| _id := 1; provider := "getresponse";
                  apiKey := "zzzzzzzzzzzzzzzzzzzzzzzz"; dataCenter := None;
                  isActive := true; lastVerified := Some 4; createdAt := 4; updatedAt := 4 |} in
  let w2 := {| store := [stored_mailchimp; other]; sent := []; writes := 2;
               clock := 7; next_id := 2 |} in
  same_but_keys two_integrations w2
  /\ answer_to_key accepting w2 other = answer_to_key accepting two_integrations stored_getresponse
  /\ fst (asyncHandler accepting (IntegrationController.testIntegration accepting 1) w2)
     = fst (asyncHandler accepting (IntegrationController.testIntegration accepting 1)
              two_integrations).
Proof. repeat split. Qed.

(** C9 (amended): whatever the environment and the world, the body sent
    by the create-or-verify handler, by the listing of the active records
    and by the re-test handler (and by the two other handlers) has no
    [apiKey] property in any object the service builds. For two
    collections that differ only in their keys, the body of the listing
    and the answers of create-or-verify and of deactivation are the same;
    the answer of a re-test is the same whenever the adapter can be built
    from both records or from neither and the upstream answers the same
    to the request that carries the key: the stored key reaches the
    caller only through what the upstream says. The schema's [toJSON]
    drops the key even of a document loaded with [select('+apiKey')],
    which is the only way a handler gets to read it. *)
Theorem apiKey_never_serialized :
  forall (env : Env) (w : World),
    (forall provider apiKey,
        omits "apiKey"
          (Render.body Render.created
             (fst (asyncHandler env
                     (IntegrationController.createESPIntegration env provider apiKey) w)))
        = true)
    /\ omits "apiKey"
         (Render.body Render.integrations_data
            (fst (asyncHandler env (IntegrationController.getIntegrations env) w)))
       = true
    /\ (forall id,
           omits "apiKey"
             (Render.body Render.tested
                (fst (asyncHandler env (IntegrationController.testIntegration env id) w)))
           = true)
    /\ (forall q,
           omits "apiKey"
             (Render.body Render.lists_data
                (fst (asyncHandler env (IntegrationController.getESPLists env q) w)))
           = true)
    /\ (forall id,
           omits "apiKey"
             (Render.body Render.deleted
                (fst (asyncHandler env (IntegrationController.deleteIntegration env id) w)))
           = true)
    /\ (forall w2,
           map redact (store w2) = map redact (store w) ->
           Render.body Render.integrations_data
             (fst (asyncHandler env (IntegrationController.getIntegrations env) w2))
           = Render.body Render.integrations_data
               (fst (asyncHandler env (IntegrationController.getIntegrations env) w)))
    /\ (forall w2,
           same_but_keys w w2 ->
           (forall provider apiKey,
               fst (asyncHandler env
                      (IntegrationController.createESPIntegration env provider apiKey) w2)
               = fst (asyncHandler env
                        (IntegrationController.createESPIntegration env provider apiKey) w))
           /\ (forall id,
                  fst (asyncHandler env (IntegrationController.deleteIntegration env id) w2)
                  = fst (asyncHandler env (IntegrationController.deleteIntegration env id) w))
           /\ (forall id,
                  (forall n d d2,
                      id = ObjectId n ->
                      List.find (has_id n) (store w) = Some d ->
                      List.find (has_id n) (store w2) = Some d2 ->
                      answer_to_key env w2 d2 = answer_to_key env w d) ->
                  fst (asyncHandler env (IntegrationController.testIntegration env id) w2)
                  = fst (asyncHandler env (IntegrationController.testIntegration env id) w)))
    /\ (forall d,
           has_own "apiKey" (ESPIntegrationModel.toJSON (ESPIntegrationModel.load d)) = false
           /\ has_own "apiKey"
                (ESPIntegrationModel.toJSON
                   (ESPIntegrationModel.select_apiKey (ESPIntegrationModel.load d))) = false
           /\ Js.lookup "apiKey" (ESPIntegrationModel.toObject (ESPIntegrationModel.load d))
              = JUndefined
           /\ Js.lookup "apiKey"
                (ESPIntegrationModel.toObject
                   (ESPIntegrationModel.select_apiKey (ESPIntegrationModel.load d)))
              = JStr (apiKey d)).
Proof.
  intros env w.
  split; [intros p k; apply create_omits|].
  split; [apply listing_omits|].
  split; [intros id; apply test_omits|].
  split; [intros q; apply lists_omits|].
  split; [intros id; apply delete_omits|].
  split; [intros w2; apply listing_independent_of_keys|].
  split.
  - intros w2 Hsame. split; [|split].
    + intros p k. rewrite !asyncHandler_fst. now rewrite (create_independent env p k Hsame).
    + intros id. rewrite !asyncHandler_fst. now rewrite (delete_independent env id Hsame).
    + intros id Hkey. rewrite !asyncHandler_fst.
      now rewrite (@test_independent env id w w2 Hsame Hkey).
  - intros d. repeat split; try apply toJSON_omits.
    unfold ESPIntegrationModel.toObject. simpl.
    destruct (dataCenter d), (lastVerified d); reflexivity.
Qed.

(* ===================================================================== *)
(** ** The factory: extraction and construction *)
(* ===================================================================== *)

Section Splitting.

Variable sep : ascii.

Lemma split_nonempty (s : string) : Js.split sep s <> [].
Proof.
  destruct s as [|c s]; simpl; [discriminate|].
  destruct (Ascii.eqb c sep); [discriminate|].
  destruct (Js.split sep s); discriminate.
Qed.

(** A string has no separator, or splits at its first one. *)
Lemma split_first (s : string) :
  (no_sep sep s /\ Js.split sep s = [s])
  \/ exists a b, s = a ++ String sep b /\ no_sep sep a
                 /\ Js.split sep s = a :: Js.split sep b.
Proof.
  unfold no_sep. induction s as [|c s IH]; simpl.
  - left. split; reflexivity.
  - unfold not_sep at 1. destruct (Ascii.eqb c sep) eqn:E.
    + apply Ascii.eqb_eq in E. subst c. right. exists "", s. repeat split.
    + destruct IH as [[Hs Hsplit]|[a [b [-> [Ha Hsplit]]]]].
      * left. rewrite Hs, Hsplit. split; reflexivity.
      * right. exists (String c a), b. simpl. unfold not_sep at 1.
        rewrite E, Ha, Hsplit. repeat split.
Qed.

Lemma split_single (s x : string) :
  Js.split sep s = [x] -> x = s /\ no_sep sep s.
Proof.
  destruct (split_first s) as [[Hs Hsplit]|[a [b [-> [Ha Hsplit]]]]]; rewrite Hsplit.
  - intros H. injection H as <-. split; [reflexivity | exact Hs].
  - intros H. injection H as _ H. exfalso. exact (split_nonempty b H).
Qed.

(** Exactly two parts: exactly one separator. *)
Lemma split_pair (s a b : string) :
  Js.split sep s = [a; b] <->
  s = a ++ String sep b /\ no_sep sep a /\ no_sep sep b.
Proof.
  split.
  - destruct (split_first s) as [[Hs Hsplit]|[a' [b' [-> [Ha Hsplit]]]]]; rewrite Hsplit.
    + discriminate.
    + intros H. injection H as -> H. apply split_single in H as [-> Hb].
      repeat split; assumption.
  - intros [-> [Ha Hb]]. rewrite split_app by exact Ha.
    rewrite split_no_sep by exact Hb. reflexivity.
Qed.

End Splitting.

(** X1: the factory extracts a data center exactly from the keys with
    exactly one dash, and then it is everything after the dash; a key
    with no dash or with several yields [null]. *)
Theorem extractDataCenter_exactly_one_dash :
  forall (apiKey : string),
    (forall dc,
        ESPServiceFactory.extractDataCenterFromMailchimpKey apiKey = Some dc
        <-> exists secret, apiKey = secret ++ "-" ++ dc
                           /\ no_sep "-" secret /\ no_sep "-" dc)
    /\ (ESPServiceFactory.extractDataCenterFromMailchimpKey apiKey = None
        <-> ~ exists secret dc, apiKey = secret ++ "-" ++ dc
                                /\ no_sep "-" secret /\ no_sep "-" dc).
Proof.
  intros k.
  assert (Hsome : forall dc,
             ESPServiceFactory.extractDataCenterFromMailchimpKey k = Some dc
             <-> exists secret, k = secret ++ "-" ++ dc
                                /\ no_sep "-" secret /\ no_sep "-" dc).
  { intros dc. unfold ESPServiceFactory.extractDataCenterFromMailchimpKey. split.
    - destruct (Js.split "-" k) as [|a [|b [|c l]]] eqn:E; try discriminate.
      intros H. injection H as ->. exists a. now apply split_pair.
    - intros [secret H]. apply (split_pair "-") in H. now rewrite H. }
  split; [exact Hsome|]. split.
  - intros Hnone [secret [dc H]].
    assert (Hs : ESPServiceFactory.extractDataCenterFromMailchimpKey k = Some dc)
      by (apply Hsome; now exists secret).
    congruence.
  - intros Hno.
    destruct (ESPServiceFactory.extractDataCenterFromMailchimpKey k) as [dc|] eqn:E;
      [|reflexivity].
    exfalso. apply Hno. destruct (proj1 (Hsome dc) eq_refl) as [secret H].
    now exists secret, dc.
Qed.

(** X2: [createService] returns a client of the provider it was asked
    for, bound to the given key, or throws an [AppError] of status 400:
    [UNSUPPORTED_PROVIDER] exactly for a provider that is neither
    [mailchimp] nor [getresponse], [INVALID_API_KEY_FORMAT] exactly for
    [mailchimp] with no usable data center given and none to extract from
    the key. *)
Theorem createService_cases :
  forall (credentials : ESPCredentials),
    match ESPServiceFactory.createService credentials with
    | Return (Mailchimp svc) =>
        cred_provider credentials = "mailchimp"
        /\ MailchimpService.key svc = cred_apiKey credentials
        /\ (if Js.truthy_opt (cred_dataCenter credentials)
            then Some (MailchimpService.dc svc) = cred_dataCenter credentials
            else Some (MailchimpService.dc svc)
                 = ESPServiceFactory.extractDataCenterFromMailchimpKey
                     (cred_apiKey credentials))
    | Return (GetResponse svc) =>
        cred_provider credentials = "getresponse"
        /\ GetResponseService.key svc = cred_apiKey credentials
    | Throw e =>
        exists a, e = AppErr a /\ statusCode a = 400%Z
          /\ ((code a = "UNSUPPORTED_PROVIDER"
               /\ cred_provider credentials <> "mailchimp"
               /\ cred_provider credentials <> "getresponse")
              \/ (code a = "INVALID_API_KEY_FORMAT"
                  /\ cred_provider credentials = "mailchimp"
                  /\ Js.truthy_opt (cred_dataCenter credentials) = false
                  /\ ESPServiceFactory.extractDataCenterFromMailchimpKey
                       (cred_apiKey credentials) = None))
    end.
Proof.
  intros [p k dc]. unfold ESPServiceFactory.createService.
  cbn [cred_provider cred_apiKey cred_dataCenter].
  destruct (p =? "mailchimp") eqn:Ep.
  - apply String.eqb_eq in Ep. subst p.
    unfold MailchimpService.new, MailchimpService.extractDataCenter,
      ESPServiceFactory.extractDataCenterFromMailchimpKey.
    destruct (Js.truthy_opt dc) eqn:Et.
    + cbn. repeat split. destruct dc as [s|]; [|discriminate].
      cbn in *. now rewrite Et.
    + destruct (Js.split "-" k) as [|a [|b [|c l]]]; cbn;
        try (eexists; split; [reflexivity|]; split; [reflexivity|];
             right; repeat split; reflexivity).
      repeat split.
  - destruct (p =? "getresponse") eqn:Eg.
    + apply String.eqb_eq in Eg. subst p. cbn. split; reflexivity.
    + eexists. split; [reflexivity|]. split; [reflexivity|]. left.
      split; [reflexivity|].
      split; intros ->; [rewrite String.eqb_refl in Ep | rewrite String.eqb_refl in Eg];
        discriminate.
Qed.

(** X3: a key that passes the Mailchimp format check has the region
    suffix [us] and digits, the factory extracts exactly that suffix, and
    the adapter built without an explicit data center extracts the same
    one: its requests go to [https://us<digits>.api.mailchimp.com/3.0]
    with the key as bearer token. *)
Theorem validated_key_builds_client :
  forall (apiKey : string),
    ESPServiceFactory.validateApiKeyFormat "mailchimp" apiKey = true ->
    exists region svc,
      Re.plus Re.digit region = true
      /\ ESPServiceFactory.extractDataCenterFromMailchimpKey apiKey = Some ("us" ++ region)
      /\ MailchimpService.new apiKey None = Return svc
      /\ ESPServiceFactory.createService
           {| cred_provider := "mailchimp"; cred_apiKey := apiKey; cred_dataCenter := None |}
         = Return (Mailchimp svc)
      /\ forall ep,
           MailchimpService.request svc ep
           = {| baseURL := "https://us" ++ region ++ ".api.mailchimp.com/3.0";
                authHeader := ("Authorization", "Bearer " ++ apiKey);
                endpoint := ep |}.
Proof.
  intros k Hv. apply validateApiKeyFormat_spec in Hv.
  destruct Hv as [[_ [secret [region [-> [_ [Hh [Hne Hd]]]]]]]|[Hp _]]; [|discriminate].
  exists region, {| MailchimpService.key := secret ++ "-us" ++ region;
                    MailchimpService.dc := "us" ++ region |}.
  pose proof (extract_region_spec _ _ Hh Hd) as Hx.
  split; [destruct region; [contradiction | exact Hd]|].
  split; [exact Hx|].
  assert (Hnew : MailchimpService.new (secret ++ "-us" ++ region) None
                 = Return {| MailchimpService.key := secret ++ "-us" ++ region;
                             MailchimpService.dc := "us" ++ region |}).
  { unfold MailchimpService.new, MailchimpService.extractDataCenter.
    unfold ESPServiceFactory.extractDataCenterFromMailchimpKey in Hx.
    cbn [Js.truthy_opt].
    destruct (Js.split "-" (secret ++ "-us" ++ region)) as [|a [|b [|c l]]];
      try discriminate.
    injection Hx as ->. reflexivity. }
  split; [exact Hnew|].
  split.
  - unfold ESPServiceFactory.createService. cbn [cred_provider cred_apiKey cred_dataCenter].
    rewrite String.eqb_refl, Hnew. reflexivity.
  - intros ep. reflexivity.
Qed.

Lemma validated_key_builds_client_witness :
  ESPServiceFactory.validateApiKeyFormat "mailchimp" "aaaaaaaaaaaaaaaaaaaaaaaaaaaaaaaa-us10"
  = true
  /\ exists region svc,
       Re.plus Re.digit region = true
       /\ ESPServiceFactory.extractDataCenterFromMailchimpKey
            "aaaaaaaaaaaaaaaaaaaaaaaaaaaaaaaa-us10" = Some ("us" ++ region)
       /\ MailchimpService.new "aaaaaaaaaaaaaaaaaaaaaaaaaaaaaaaa-us10" None = Return svc
       /\ ESPServiceFactory.createService
            {| cred_provider := "mailchimp";
               cred_apiKey := "aaaaaaaaaaaaaaaaaaaaaaaaaaaaaaaa-us10";
               cred_dataCenter := None |}
          = Return (Mailchimp svc)
       /\ forall ep,
            MailchimpService.request svc ep
            = {| baseURL := "https://us" ++ region ++ ".api.mailchimp.com/3.0";
                 authHeader := ("Authorization",
                                "Bearer " ++ "aaaaaaaaaaaaaaaaaaaaaaaaaaaaaaaa-us10");
                 endpoint := ep |}.
Proof.
  split; [reflexivity|].
  exact (validated_key_builds_client "aaaaaaaaaaaaaaaaaaaaaaaaaaaaaaaa-us10" eq_refl).
Defined.

(* ===================================================================== *)
(** ** The methods of the schema *)
(* ===================================================================== *)

Section Masking.

Lemma stars_length (n : nat) : String.length (Str.stars n) = n.
Proof. induction n as [|n IH]; simpl; congruence. Qed.

Lemma stars_get (n i : nat) : i < n -> String.get i (Str.stars n) = Some "*"%char.
Proof.
  revert i. induction n as [|n IH]; intros i H; [lia|].
  destruct i as [|i]; simpl; [reflexivity|]. apply IH. lia.
Qed.

Lemma substring_length (s : string) :
  forall n m, n + m <= String.length s -> String.length (String.substring n m s) = m.
Proof.
  induction s as [|c s IH]; intros n m H; simpl in H.
  - assert (n = 0) by lia. assert (m = 0) by lia. subst. reflexivity.
  - destruct n as [|n]; simpl.
    + destruct m as [|m]; simpl; [reflexivity|]. rewrite IH; [reflexivity | lia].
    + apply IH. lia.
Qed.

Lemma masked_long (key : string) (i : nat) :
  8 < String.length key -> i < String.length key ->
  String.get i (Str.substring 0 4 key
                ++ Str.stars (String.length key - 8)
                ++ Str.substring (String.length key - 4) (String.length key) key)
  = if (i <? 4)%nat || (String.length key - 4 <=? i)%nat
    then String.get i key else Some "*"%char.
Proof.
  intros Hlen Hi. unfold Str.substring.
  replace (4 - 0) with 4 by lia.
  replace (String.length key - (String.length key - 4)) with 4 by lia.
  set (n := String.length key) in *.
  assert (L1 : String.length (String.substring 0 4 key) = 4)
    by (apply substring_length; lia).
  destruct (i <? 4)%nat eqn:E1; cbn [orb].
  - apply Nat.ltb_lt in E1.
    rewrite <- append_correct1 by lia.
    rewrite substring_correct1 by lia. f_equal. lia.
  - apply Nat.ltb_ge in E1.
    replace i with ((i - 4) + String.length (String.substring 0 4 key)) at 1 by lia.
    rewrite <- append_correct2.
    destruct (n - 4 <=? i)%nat eqn:E2.
    + apply Nat.leb_le in E2.
      replace (i - 4) with ((i - (n - 4)) + String.length (Str.stars (n - 8)))
        by (rewrite stars_length; lia).
      rewrite <- append_correct2.
      rewrite substring_correct1 by lia. f_equal. lia.
    + apply Nat.leb_gt in E2.
      rewrite <- append_correct1 by (rewrite stars_length; lia).
      apply stars_get. lia.
Qed.

End Masking.

(** X4: [maskApiKey] yields a string as long as the key in which a key
    of more than eight characters keeps its first four and last four
    characters, and every other character, and every character of a
    shorter key, is a star. On a document loaded without its key, such as
    those [findActiveIntegrations] returns, it yields the empty string. *)
Theorem maskApiKey_shape :
  forall (doc : Document),
    match apiKey_of doc with
    | None => maskApiKey doc = ""
    | Some key =>
        String.length (maskApiKey doc) = String.length key
        /\ forall i, i < String.length key ->
             String.get i (maskApiKey doc)
             = if (8 <? String.length key)%nat
                  && ((i <? 4)%nat || (String.length key - 4 <=? i)%nat)
               then String.get i key
               else Some "*"%char
    end
    /\ forall (q : option string) (w : World) (found : list Document) (w' : World),
         findActiveIntegrations q w = (Return found, w') ->
         forall loaded, In loaded found -> maskApiKey loaded = "".
Proof.
  intros doc. split.
  - unfold maskApiKey. destruct (apiKey_of doc) as [key|]; [|reflexivity].
    destruct key as [|c key]; [split; [reflexivity | simpl; lia]|].
    cbn [Js.truthy_opt Js.truthy_str negb Js.or_str String.eqb].
    set (k := String c key).
    destruct (String.length k <=? 8)%nat eqn:E.
    + apply Nat.leb_le in E. split; [apply stars_length|].
      intros i Hi.
      replace (8 <? String.length k)%nat with false
        by (symmetry; apply Nat.ltb_ge; lia).
      cbn [andb]. now apply stars_get.
    + apply Nat.leb_gt in E. split.
      * rewrite !string_length_app, stars_length. unfold Str.substring.
        rewrite !substring_length by lia. lia.
      * intros i Hi.
        replace (8 <? String.length k)%nat with true
          by (symmetry; apply Nat.ltb_lt; lia).
        cbn [andb]. now apply masked_long.
  - intros q w found w' H loaded Hin.
    unfold findActiveIntegrations, ESPIntegrationModel.find in H.
    injection H as <- _.
    apply in_map_iff in Hin as [d [<- _]]. reflexivity.
Qed.

(* ===================================================================== *)
(** ** The adapters: single lists and defaults *)
(* ===================================================================== *)

(** X5: [getListById] sends exactly one request, for the path of the
    given id. It returns the record of a fulfilled answer in the common
    shape and throws a TypeError on a [null] body. A rejected answer
    makes it throw: the translated [AppError] of the kind the table gives
    for the upstream failure (for an upstream 404 the provider's
    not-found error with status 404), or a TypeError when the
    translation itself threw. *)
Theorem getListById_cases :
  forall (env : Env) (w : World) (id : string),
    (forall svc,
        let req := MailchimpService.request svc (GetList id) in
        MailchimpService.getListById env svc id w
        = (list_of_answer (Mailchimp svc) (upstream env (sent w) req), push_sent w req))
    /\ (forall svc,
           let req := GetResponseService.request svc (GetCampaign id) in
           GetResponseService.getListById env svc id w
           = (list_of_answer (GetResponse svc) (upstream env (sent w) req), push_sent w req))
    /\ (forall service body,
           list_of_answer service
             (Rejected {| response := Some (404%Z, body); errcode := None |})
           = Throw (AppErr {| message := match service with
                                         | Mailchimp _ => "Mailchimp resource not found"
                                         | GetResponse _ => "GetResponse resource not found"
                                         end;
                              statusCode := 404;
                              code := match service with
                                      | Mailchimp _ => "MAILCHIMP_NOT_FOUND"
                                      | GetResponse _ => "GETRESPONSE_NOT_FOUND"
                                      end |}))
    /\ (forall service error,
           exists e,
             list_of_answer service (Rejected error) = Throw e
             /\ ((exists appError,
                     e = AppErr appError
                     /\ kind_of (tag service) appError
                        = Some (kind_table (has_bad_request service) error))
                 \/ (e = TypeError
                     /\ exists status data,
                          response error = Some (status, data)
                          /\ unprintable (upstream_message service data)))).
Proof.
  intros env w id. split; [|split; [|split]].
  - intros svc req. subst req.
    unfold MailchimpService.getListById, try_catch, bind, MailchimpService.get, lift, throw.
    rewrite http_get_run. unfold list_of_answer.
    destruct (upstream env (sent w) _) as [st data|error]; [|reflexivity].
    destruct (readable data) eqn:R.
    + now rewrite mailchimp_toList_readable.
    + unfold MailchimpService.toList. now rewrite get_unreadable.
  - intros svc req. subst req.
    unfold GetResponseService.getListById, try_catch, bind, GetResponseService.get, lift, throw.
    rewrite http_get_run. unfold list_of_answer.
    destruct (upstream env (sent w) _) as [st data|error]; [|reflexivity].
    destruct (readable data) eqn:R.
    + now rewrite getresponse_toList_readable.
    + unfold GetResponseService.toList. now rewrite get_unreadable.
  - intros [svc|svc] body; reflexivity.
  - intros service error. eexists. split; [reflexivity|].
    pose proof (translate_table service error) as T. cbv zeta in T.
    destruct (translate service error) as [a|e]; cbn [rejection].
    + left. exists a. split; [reflexivity | apply T].
    + right. destruct T as (-> & _ & Hex). split; [reflexivity | exact Hex].
Qed.

Lemma or_default (v d : JsVal) : Js.or v d = d \/ Js.truthy (Js.or v d) = true.
Proof. unfold Js.or. destruct (Js.truthy v) eqn:E; [right; exact E | left; reflexivity]. Qed.

Lemma mailchimp_toList_shape (svc : MailchimpService.t) (v : JsVal) (l : MailingList) :
  MailchimpService.toList v = Return l -> well_shaped (Mailchimp svc) l.
Proof.
  unfold MailchimpService.toList. destruct (readable v) eqn:R.
  - rewrite !get_readable by assumption. cbn [cbind].
    intros H. injection H as <-. apply or_default.
  - now rewrite get_unreadable.
Qed.

Lemma getresponse_toList_shape (svc : GetResponseService.t) (v : JsVal) (l : MailingList) :
  GetResponseService.toList v = Return l -> well_shaped (GetResponse svc) l.
Proof.
  unfold GetResponseService.toList. destruct (readable v) eqn:R.
  - rewrite !get_readable by assumption. cbn [cbind].
    intros H. injection H as <-. apply or_default.
  - now rewrite get_unreadable.
Qed.

Lemma cmap_Forall {A B} (f : A -> Completion B) (P : B -> Prop) (xs : list A) :
  (forall x y, f x = Return y -> P y) ->
  forall ys, cmap f xs = Return ys -> Forall P ys /\ List.length ys = List.length xs.
Proof.
  intros Hf. induction xs as [|x xs IH]; simpl; intros ys H.
  - injection H as <-. split; [constructor | reflexivity].
  - unfold cbind in H. destruct (f x) as [y|e] eqn:Hx; [|discriminate].
    destruct (cmap f xs) as [ys'|e]; [|discriminate].
    injection H as <-. destruct (IH ys' eq_refl) as [HF HL].
    split; [constructor; eauto | simpl; now rewrite HL].
Qed.

(** X6: every mailing list [getLists] returns is of the adapter's own
    variant with the defaults applied: a Mailchimp list has a member
    count that is 0 or truthy (never [undefined] or [null]), a
    GetResponse list a description that is the empty string or truthy. *)
Theorem getLists_defaults :
  forall (env : Env) (service : Service) (w : World)
         (fetched : list MailingList) (w' : World),
    getLists env service w = (Return fetched, w') ->
    Forall (well_shaped service) fetched.
Proof.
  intros env [svc|svc] w fetched w'; simpl.
  - unfold MailchimpService.getLists, try_catch, bind, MailchimpService.get, lift, throw.
    rewrite !http_get_run.
    destruct (upstream env (sent w) _) as [st countData|err]; [|discriminate].
    destruct (Js.get countData "total_items") as [totalItems|e1]; [|discriminate].
    rewrite http_get_run.
    destruct (upstream env _ _) as [st' data|err]; [|discriminate].
    destruct (Js.get data "lists") as [ls|e2]; [|discriminate].
    destruct ls; cbn [Js.mapArray]; try discriminate.
    destruct (cmap MailchimpService.toList items) as [r|e3] eqn:G; [|discriminate].
    intros H. injection H as <- _.
    eapply cmap_Forall; [|exact G]. intros x y. apply mailchimp_toList_shape.
  - unfold GetResponseService.getLists, try_catch, bind, GetResponseService.get, lift, throw.
    rewrite http_get_run.
    destruct (upstream env (sent w) _) as [st data|err]; [|discriminate].
    destruct (GetResponseService.records data) as [cs|e1]; [|discriminate].
    destruct (cmap GetResponseService.toList cs) as [r|e2] eqn:G; [|discriminate].
    intros H. injection H as <- _.
    eapply cmap_Forall; [|exact G]. intros x y. apply getresponse_toList_shape.
Qed.

Lemma getLists_defaults_witness :
  getLists mailchimp_array (Mailchimp mailchimp_client) empty_world
  = (Return (map mailchimp_list_of two_records),
     push_sent (push_sent empty_world
                  (MailchimpService.request mailchimp_client GetListsTotal))
       (MailchimpService.request mailchimp_client (GetListsPage (JNum "2"))))
  /\ Forall (well_shaped (Mailchimp mailchimp_client)) (map mailchimp_list_of two_records).
Proof.
  assert (H : getLists mailchimp_array (Mailchimp mailchimp_client) empty_world
              = (Return (map mailchimp_list_of two_records),
                 push_sent (push_sent empty_world
                              (MailchimpService.request mailchimp_client GetListsTotal))
                   (MailchimpService.request mailchimp_client (GetListsPage (JNum "2")))))
    by reflexivity.
  split; [exact H|].
  exact (getLists_defaults mailchimp_array (Mailchimp mailchimp_client) empty_world H).
Defined.

(* ===================================================================== *)
(** ** Outbound requests *)
(* ===================================================================== *)

Section Requests.

Lemma sends_weaken {A} (n m : nat) (c : M A) :
  n <= m -> sends_at_most n c -> sends_at_most m c.
Proof.
  intros Hle H w. destruct (H w) as [extra [E L]]. exists extra. split; [exact E | lia].
Qed.

Lemma sends_ret {A} (a : A) : sends_at_most 0 (ret a).
Proof. intros w. exists []. split; [now rewrite app_nil_r | simpl; lia]. Qed.

Lemma sends_throw {A} (e : Exn) : sends_at_most 0 (@throw A e).
Proof. intros w. exists []. split; [now rewrite app_nil_r | simpl; lia]. Qed.

Lemma sends_lift {A} (c : Completion A) : sends_at_most 0 (lift c).
Proof. intros w. exists []. split; [now rewrite app_nil_r | simpl; lia]. Qed.

Lemma sends_bind {A B} (n1 n2 : nat) (m : M A) (k : A -> M B) :
  sends_at_most n1 m -> (forall a, sends_at_most n2 (k a)) ->
  sends_at_most (n1 + n2) (bind m k).
Proof.
  intros Hm Hk w. unfold bind. destruct (Hm w) as [x1 [E1 L1]].
  destruct (m w) as [[a|e] w1]; simpl in *.
  - destruct (Hk a w1) as [x2 [E2 L2]]. exists (x1 ++ x2)%list.
    rewrite E2, E1, <- app_assoc, List.length_app. split; [reflexivity | lia].
  - exists x1. split; [exact E1 | lia].
Qed.

Lemma sends_try_catch {A} (n1 n2 : nat) (m : M A) (h : Exn -> M A) :
  sends_at_most n1 m -> (forall e, sends_at_most n2 (h e)) ->
  sends_at_most (n1 + n2) (try_catch m h).
Proof.
  intros Hm Hh w. unfold try_catch. destruct (Hm w) as [x1 [E1 L1]].
  destruct (m w) as [[a|e] w1]; simpl in *.
  - exists x1. split; [exact E1 | lia].
  - destruct (Hh e w1) as [x2 [E2 L2]]. exists (x1 ++ x2)%list.
    rewrite E2, E1, <- app_assoc, List.length_app. split; [reflexivity | lia].
Qed.

Lemma sends_http_get (env : Env) (tr : AxiosError -> Completion AppError) (req : Request) :
  sends_at_most 1 (http_get env tr req).
Proof. intros w. rewrite http_get_run. exists [req]. split; [reflexivity | simpl; lia]. Qed.

Lemma sends_getLists (env : Env) (service : Service) :
  sends_at_most 2 (getLists env service).
Proof.
  destruct service as [svc|svc]; simpl.
  - unfold MailchimpService.getLists, MailchimpService.get.
    apply (@sends_try_catch _ 2 0); [|intro; apply sends_throw].
    apply (@sends_bind _ _ 1 1); [apply sends_http_get | intro].
    apply (@sends_bind _ _ 0 1); [apply sends_lift | intro].
    apply (@sends_bind _ _ 1 0); [apply sends_http_get | intro].
    apply (@sends_bind _ _ 0 0); [apply sends_lift | intro; apply sends_lift].
  - unfold GetResponseService.getLists, GetResponseService.get.
    apply (@sends_weaken _ 1 2); [lia|].
    apply (@sends_try_catch _ 1 0); [|intro; apply sends_throw].
    apply (@sends_bind _ _ 1 0); [apply sends_http_get | intro].
    apply (@sends_bind _ _ 0 0); [apply sends_lift | intro; apply sends_lift].
Qed.

Lemma sends_fetch_each (env : Env) (integrations : list Document) :
  forall allLists,
    sends_at_most (2 * List.length integrations)
      (IntegrationController.fetch_each env integrations allLists).
Proof.
  induction integrations as [|integration rest IH]; intros allLists.
  - apply sends_ret.
  - cbn [IntegrationController.fetch_each List.length].
    replace (2 * S (List.length rest)) with (2 + 2 * List.length rest) by lia.
    apply sends_bind; [|intro; apply IH].
    apply (@sends_try_catch _ 2 0); [|intro; apply sends_ret].
    apply (@sends_bind _ _ 0 2); [apply sends_lift | intro].
    apply (@sends_bind _ _ 2 0); [apply sends_getLists | intro; apply sends_ret].
Qed.

Lemma lists_sends (env : Env) (q : option string) (w : World) :
  exists extra,
    sent (snd (IntegrationController.getESPLists env q w)) = (sent w ++ extra)%list
    /\ List.length extra <= 2 * List.length (matching q w).
Proof.
  rewrite lists_run.
  destruct (negb (filter_accepted q)).
  - exists []. split; [now rewrite app_nil_r | simpl; lia].
  - destruct (matching q w) as [|d ds] eqn:Hm.
    + exists []. split; [now rewrite app_nil_r | simpl; lia].
    + cbv zeta. cbn [snd]. apply (sends_fetch_each env (d :: ds) [] w).
Qed.

End Requests.

(** X7: no handler retries or sends more than its share of requests:
    create-or-verify and re-test send at most one request, deactivation
    and the listing of the records none, and the aggregate fetch at most
    two per matching active integration; requests already sent are never
    forgotten. *)
Theorem outbound_requests_bounded :
  forall (env : Env),
    (forall provider apiKey,
        sends_at_most 1 (IntegrationController.createESPIntegration env provider apiKey))
    /\ (forall id, sends_at_most 1 (IntegrationController.testIntegration env id))
    /\ (forall id, sends_at_most 0 (IntegrationController.deleteIntegration env id))
    /\ sends_at_most 0 (IntegrationController.getIntegrations env)
    /\ (forall q w, exists extra,
           sent (snd (IntegrationController.getESPLists env q w)) = (sent w ++ extra)%list
           /\ List.length extra <= 2 * List.length (matching q w)).
Proof.
  intros env.
  assert (Hnil : forall w : World, sent w = (sent w ++ [])%list /\ @List.length Request [] <= 1).
  { intros w. split; [now rewrite app_nil_r | simpl; lia]. }
  assert (Hnil0 : forall w : World, sent w = (sent w ++ [])%list /\ @List.length Request [] <= 0).
  { intros w. split; [now rewrite app_nil_r | simpl; lia]. }
  split; [|split; [|split; [|split]]].
  - intros p k w. rewrite create_run.
    destruct ((p =? "mailchimp") && _); [exists []; apply Hnil|].
    destruct (negb (ESPServiceFactory.validateApiKeyFormat p k)); [exists []; apply Hnil|].
    destruct (ESPServiceFactory.createService _) as [service|e]; [|exists []; apply Hnil].
    rewrite validateConnection_run. exists [whoami service].
    split; [|simpl; lia].
    destruct (negb (isValid _)); [reflexivity|].
    cbn [store push_sent writes].
    destruct (List.find _ (store w)); cbv zeta;
      destruct (db_write_ok env (writes w)); reflexivity.
  - intros id w. destruct id as [id|text]; [|exists []; apply Hnil].
    rewrite test_run.
    destruct (List.find (has_id id) (store w)) as [d|]; [|exists []; apply Hnil].
    destruct (negb (isActive d)); [exists []; apply Hnil|].
    destruct (ESPServiceFactory.createService _) as [service|e]; [|exists []; apply Hnil].
    rewrite validateConnection_run. exists [whoami service].
    split; [|simpl; lia].
    destruct (isValid _); [|reflexivity].
    destruct (IntegrationController.same_date _ _); [reflexivity|].
    cbn [writes push_sent].
    destruct (db_write_ok env (writes w)); reflexivity.
  - intros id w. destruct id as [id|text]; [|exists []; apply Hnil0].
    rewrite delete_run. exists [].
    destruct (List.find (has_id id) (store w)) as [d|]; [|apply Hnil0].
    destruct (isActive d); [|apply Hnil0].
    destruct (db_write_ok env (writes w)); exact (Hnil0 w).
  - intros w. exists []. exact (Hnil0 w).
  - apply lists_sends.
Qed.

(* ===================================================================== *)
(** ** What the handlers answer *)
(* ===================================================================== *)

Section Answers.

Import ESPIntegrationModel IntegrationController.

Variable env : Env.

Lemma createService_throws_400 (credentials : ESPCredentials) (e : Exn) :
  ESPServiceFactory.createService credentials = Throw e ->
  exists a, e = AppErr a /\ statusCode a = 400%Z.
Proof.
  unfold ESPServiceFactory.createService.
  destruct (cred_provider credentials =? "mailchimp").
  - unfold MailchimpService.new, MailchimpService.extractDataCenter.
    destruct (Js.truthy_opt (cred_dataCenter credentials)); [discriminate|].
    destruct (Js.split "-" (cred_apiKey credentials)) as [|a [|b [|c l]]]; cbn;
      try discriminate; intros H; injection H as <-; eexists; split; reflexivity.
  - destruct (cred_provider credentials =? "getresponse"); [discriminate|].
    intros H. injection H as <-. eexists. split; reflexivity.
Qed.

Lemma answers_app_error {A} (a : AppError) (ok failing : list Z) :
  In (statusCode a) failing -> (statusCode a < 500)%Z ->
  answers env (@errorHandler env A (AppErr a)) ok failing.
Proof.
  intros Hin Hlt. unfold errorHandler, answers. split; [exact Hin|]. split; [lia|].
  intros _. cbn [error_details].
  destruct (500 <=? statusCode a)%Z eqn:E; [apply Z.leb_le in E; lia|].
  now rewrite andb_false_r.
Qed.

Lemma answers_write_failed {A} (ok failing : list Z) :
  In 500%Z failing -> answers env (@errorHandler env A write_failed) ok failing.
Proof.
  intros Hin. unfold errorHandler, answers, write_failed, internal_error. cbn.
  split; [exact Hin|]. split; [|congruence].
  intros _. split; [reflexivity|].
  split; [destruct (production env); reflexivity|].
  intros ->. reflexivity.
Qed.

Lemma create_answers (p k : string) (w : World) :
  answers env (fst (asyncHandler env (createESPIntegration env p k) w))
    [200; 201]%Z [400; 401; 500]%Z.
Proof.
  unfold asyncHandler. rewrite create_run.
  destruct ((p =? "mailchimp") && _);
    [apply answers_app_error; cbn; [tauto | lia]|].
  destruct (negb (ESPServiceFactory.validateApiKeyFormat p k));
    [apply answers_app_error; cbn; [tauto | lia]|].
  destruct (ESPServiceFactory.createService _) as [service|e] eqn:Hc.
  - rewrite validateConnection_run.
    destruct (negb (isValid _));
      [apply answers_app_error; cbn; [tauto | lia]|].
    destruct (List.find _ _); cbv zeta;
      (destruct (db_write_ok env _);
       [cbn; tauto | apply answers_write_failed; cbn; tauto]).
  - apply createService_throws_400 in Hc as [a [-> Ha]].
    apply answers_app_error; rewrite Ha; cbn; [tauto | lia].
Qed.

Lemma lists_answers (q : option string) (w : World) :
  answers env (fst (asyncHandler env (getESPLists env q) w)) [200]%Z [400; 404]%Z.
Proof.
  unfold asyncHandler. rewrite lists_run.
  destruct (negb (filter_accepted q));
    [apply answers_app_error; cbn; [tauto | lia]|].
  destruct (matching q w);
    [apply answers_app_error; cbn; [tauto | lia]|].
  cbn. tauto.
Qed.

Lemma delete_answers (id : nat) (w : World) :
  answers env (fst (asyncHandler env (deleteIntegration env id) w)) [200]%Z [404; 500]%Z.
Proof.
  unfold asyncHandler. rewrite delete_run.
  destruct (List.find (has_id id) (store w)) as [d|];
    [|apply answers_app_error; cbn; [tauto | lia]].
  destruct (isActive d); [|cbn; tauto].
  destruct (db_write_ok env _); [cbn; tauto | apply answers_write_failed; cbn; tauto].
Qed.

Lemma malformed_answers {A} (m : M (Z * A)) (w : World) :
  m w = (Throw (OtherErr "CastError" None), w) ->
  asyncHandler env m w = (Failure 400 INVALID_ID, w).
Proof.
  intros H. unfold asyncHandler. rewrite H. unfold errorHandler, INVALID_ID. cbn.
  now rewrite !andb_false_r.
Qed.

End Answers.

(** X9: when the key is well formed but the connection does not
    validate, create-or-verify throws the 401 error
    [ESP_CONNECTION_FAILED], whose message is the adapter's reason when
    it gave a non-empty one (for a key the upstream refuses with 401, the
    adapter's text for an invalid key), after exactly one request and
    without touching the database: nothing is stored for rejected
    credentials. *)
Theorem rejected_credentials_not_stored :
  forall (env : Env) (provider apiKey : string) (w : World) (service : Service),
    key_shape_ok provider apiKey ->
    ESPServiceFactory.createService (submitted_credentials provider apiKey) = Return service ->
    isValid (validation_of service (upstream env (sent w) (whoami service))) = false ->
    let vr := validation_of service (upstream env (sent w) (whoami service)) in
    IntegrationController.createESPIntegration env provider apiKey w
    = (Throw (AppErr (ESP_CONNECTION_FAILED vr)), push_sent w (whoami service))
    /\ asyncHandler env (IntegrationController.createESPIntegration env provider apiKey) w
       = (Failure 401
            {| error_code := "ESP_CONNECTION_FAILED";
               error_message := Js.or_str (vr_error vr) "Failed to validate ESP connection";
               error_details := None |},
          push_sent w (whoami service))
    /\ db_unchanged w (push_sent w (whoami service))
    /\ (forall error body,
           upstream env (sent w) (whoami service) = Rejected error ->
           response error = Some (401%Z, body) ->
           vr_error vr
           = Some ("Invalid " ++ label service ++ " API key or insufficient permissions")).
Proof.
  intros env p k w service Hshape Hsvc Hinvalid vr.
  assert (Hrun : IntegrationController.createESPIntegration env p k w
                 = (Throw (AppErr (ESP_CONNECTION_FAILED vr)), push_sent w (whoami service))).
  { rewrite create_run.
    destruct (createService_submitted Hshape) as [-> _].
    apply validateApiKeyFormat_spec in Hshape. rewrite Hshape, Hsvc. cbn [negb].
    rewrite validateConnection_run. unfold vr. rewrite Hinvalid. reflexivity. }
  split; [exact Hrun|]. split; [|split; [repeat split|]].
  - unfold asyncHandler. rewrite Hrun. unfold errorHandler. cbn.
    now rewrite !andb_false_r.
  - intros error body Hup Hr. unfold vr. rewrite Hup. cbn [validation_of vr_error].
    f_equal. apply (proj1 (rejected_text service error)).
    unfold kind_table. rewrite Hr. reflexivity.
Qed.

Lemma rejected_credentials_witness :
  key_shape_ok "getresponse" "abcdefghij0123456789"
  /\ IntegrationController.createESPIntegration rejecting "getresponse"
       "abcdefghij0123456789" two_integrations
     = (Throw (AppErr (ESP_CONNECTION_FAILED
                         (validation_of (GetResponse getresponse_client)
                            (upstream rejecting (sent two_integrations)
                               (whoami (GetResponse getresponse_client)))))),
        push_sent two_integrations (whoami (GetResponse getresponse_client)))
  /\ asyncHandler rejecting
       (IntegrationController.createESPIntegration rejecting "getresponse"
          "abcdefghij0123456789") two_integrations
     = (Failure 401
          {| error_code := "ESP_CONNECTION_FAILED";
             error_message := "Invalid GetResponse API key or insufficient permissions";
             error_details := None |},
        push_sent two_integrations (whoami (GetResponse getresponse_client)))
  /\ db_unchanged two_integrations
       (push_sent two_integrations (whoami (GetResponse getresponse_client)))
  /\ (forall error body,
         upstream rejecting (sent two_integrations) (whoami (GetResponse getresponse_client))
         = Rejected error ->
         response error = Some (401%Z, body) ->
         vr_error (validation_of (GetResponse getresponse_client)
                     (upstream rejecting (sent two_integrations)
                        (whoami (GetResponse getresponse_client))))
         = Some ("Invalid " ++ label (GetResponse getresponse_client)
                 ++ " API key or insufficient permissions")).
Proof.
  assert (H : key_shape_ok "getresponse" "abcdefghij0123456789")
    by (apply validateApiKeyFormat_spec; reflexivity).
  split; [exact H|].
  exact (rejected_credentials_not_stored rejecting two_integrations
           (service := GetResponse getresponse_client) H eq_refl eq_refl).
Defined.

(* ===================================================================== *)
(** ** Deactivation *)
(* ===================================================================== *)

Section Collection.

Import ESPIntegrationModel.

Lemma same_id_same_record (s : list ESPIntegration) (x y : ESPIntegration) :
  NoDup (map _id s) -> In x s -> In y s -> _id x = _id y -> x = y.
Proof.
  induction s as [|d s IH]; [contradiction|].
  simpl. intros Hnd Hx Hy Hid. inversion Hnd as [|? ? Hnotin Hnd']; subst.
  destruct Hx as [->|Hx], Hy as [->|Hy]; auto.
  - exfalso. apply Hnotin. rewrite Hid. now apply in_map.
  - exfalso. apply Hnotin. rewrite <- Hid. now apply in_map.
Qed.

(** With distinct ids, an update by id rewrites the one record of that
    id and leaves the others alone. *)
Lemma set_first_in (s : list ESPIntegration) (id : nat)
    (f : ESPIntegration -> ESPIntegration) (x : ESPIntegration) :
  NoDup (map _id s) -> In x (set_first id f s) ->
  (exists d, In d s /\ _id d = id /\ x = f d) \/ (In x s /\ _id x <> id).
Proof.
  induction s as [|d s IH]; [contradiction|].
  simpl. intros Hnd Hin. inversion Hnd as [|? ? Hnotin Hnd']; subst.
  destruct (_id d =? id)%nat eqn:E.
  - apply Nat.eqb_eq in E. destruct Hin as [<-|Hin].
    + left. exists d. auto.
    + right. split; [now right|]. intros Hx. apply Hnotin.
      rewrite E, <- Hx. now apply in_map.
  - apply Nat.eqb_neq in E. destruct Hin as [<-|Hin].
    + right. auto.
    + destruct (IH Hnd' Hin) as [[d0 [H0 [H1 H2]]]|[H0 H1]].
      * left. exists d0. auto.
      * right. auto.
Qed.

Lemma find_has_id (s : list ESPIntegration) (id : nat) (d : ESPIntegration) :
  List.find (has_id id) s = Some d -> In d s /\ _id d = id.
Proof.
  intros H. apply find_some in H as [Hin Hid]. split; [exact Hin|].
  now apply Nat.eqb_eq in Hid.
Qed.

Lemma found_by_id (s : list ESPIntegration) (d : ESPIntegration) :
  NoDup (map _id s) -> In d s -> List.find (has_id (_id d)) s = Some d.
Proof.
  intros Hnd Hin.
  destruct (List.find (has_id (_id d)) s) as [x|] eqn:E.
  - apply find_has_id in E as [Hx Hid]. f_equal.
    now apply (same_id_same_record s).
  - exfalso. apply (find_none _ _ E d) in Hin. unfold has_id in Hin.
    rewrite Nat.eqb_refl in Hin. discriminate.
Qed.

End Collection.

(** X10: with distinct ids and a write that goes through, deactivating
    an existing record answers 200 and leaves that record inactive with
    its provider, key, data center and timestamps of creation and
    verification as they were, and every other record untouched. From
    then on no active-record query returns it, re-testing it throws the
    404 error, and deactivating it again answers 200 and changes
    nothing. *)
Theorem deactivated_is_excluded :
  forall (env env' : Env) (id : nat) (w : World) (d : ESPIntegration),
    NoDup (map _id (store w)) ->
    List.find (has_id id) (store w) = Some d ->
    db_write_ok env (writes w) = true ->
    let w' := snd (IntegrationController.deleteIntegration env id w) in
    fst (IntegrationController.deleteIntegration env id w)
    = Return (200%Z, "Integration deactivated successfully")
    /\ (exists d',
           List.find (has_id id) (store w') = Some d'
           /\ isActive d' = false
           /\ identity_of d' = identity_of d
           /\ credential_of d' = credential_of d
           /\ lastVerified d' = lastVerified d)
    /\ (forall x, In x (store w) -> _id x <> id -> In x (store w'))
    /\ (forall pf loaded,
           In loaded (map ESPIntegrationModel.load
                        (filter (ESPIntegrationModel.matches pf) (store w'))) ->
           _id (fields loaded) <> id)
    /\ IntegrationController.testIntegration env' id w'
       = (Throw (AppErr (INTEGRATION_NOT_FOUND "Integration not found or inactive")), w')
    /\ IntegrationController.deleteIntegration env' id w'
       = (Return (200%Z, "Integration deactivated successfully"), w').
Proof.
  intros env env' id w d Hnd Hfind Hdb w'.
  destruct (find_has_id _ _ Hfind) as [Hin Hid]. subst id.
  assert (Hw' : exists d',
             List.find (has_id (_id d)) (store w') = Some d' /\ isActive d' = false
             /\ identity_of d' = identity_of d /\ credential_of d' = credential_of d
             /\ lastVerified d' = lastVerified d
             /\ fst (IntegrationController.deleteIntegration env (_id d) w)
                = Return (200%Z, "Integration deactivated successfully")
             /\ (forall x, In x (store w') ->
                   x = d' \/ (In x (store w) /\ _id x <> _id d))
             /\ (forall x, In x (store w) -> _id x <> _id d -> In x (store w'))).
  { subst w'. rewrite delete_run, Hfind.
    destruct (isActive d) eqn:Ha.
    - rewrite Hdb. cbn [fst snd store count_write set_store].
      exists (ESPIntegrationModel.assign_inactive (clock w) d).
      split; [apply find_set_first; auto|].
      repeat split.
      + intros x Hx. apply set_first_in in Hx; [|exact Hnd].
        destruct Hx as [[d0 [H0 [H1 ->]]]|Hx]; [|now right].
        left. f_equal. apply (same_id_same_record (store w)); auto; congruence.
      + intros x Hx Hne. now apply set_first_others.
    - cbn [fst snd]. exists d. repeat split; auto.
      intros x Hx. destruct (Nat.eq_dec (_id x) (_id d)) as [E|E]; [left|right; auto].
      apply (same_id_same_record (store w)); auto; congruence. }
  destruct Hw' as [d' [Hf' [Hina [Hident [Hcred [Hlv [Hret [Hall Hothers]]]]]]]].
  split; [exact Hret|].
  split; [exists d'; auto|].
  split; [exact Hothers|].
  split.
  - intros pf loaded Hl. apply in_map_iff in Hl as [x [<- Hx]].
    apply filter_In in Hx as [Hx Hm]. cbn [fields ESPIntegrationModel.load].
    destruct (Hall x Hx) as [->|[_ Hne]]; [|exact Hne].
    unfold ESPIntegrationModel.matches in Hm. rewrite Hina in Hm. discriminate.
  - split.
    + rewrite test_run, Hf', Hina. reflexivity.
    + rewrite delete_run, Hf', Hina. reflexivity.
Qed.

Lemma deactivated_is_excluded_witness :
  NoDup (map _id (store two_integrations))
  /\ List.find (has_id 0) (store two_integrations) = Some stored_mailchimp
  /\ db_write_ok accepting (writes two_integrations) = true
  /\ fst (IntegrationController.deleteIntegration accepting 0 two_integrations)
     = Return (200%Z, "Integration deactivated successfully")
  /\ (exists d',
         List.find (has_id 0)
           (store (snd (IntegrationController.deleteIntegration accepting 0 two_integrations)))
         = Some d'
         /\ isActive d' = false
         /\ identity_of d' = identity_of stored_mailchimp
         /\ credential_of d' = credential_of stored_mailchimp
         /\ lastVerified d' = lastVerified stored_mailchimp)
  /\ (forall x, In x (store two_integrations) -> _id x <> 0 ->
        In x (store (snd (IntegrationController.deleteIntegration accepting 0
                            two_integrations))))
  /\ (forall pf loaded,
         In loaded
           (map ESPIntegrationModel.load
              (filter (ESPIntegrationModel.matches pf)
                 (store (snd (IntegrationController.deleteIntegration accepting 0
                                two_integrations))))) ->
         _id (fields loaded) <> 0)
  /\ IntegrationController.testIntegration rejecting 0
       (snd (IntegrationController.deleteIntegration accepting 0 two_integrations))
     = (Throw (AppErr (INTEGRATION_NOT_FOUND "Integration not found or inactive")),
        snd (IntegrationController.deleteIntegration accepting 0 two_integrations))
  /\ IntegrationController.deleteIntegration rejecting 0
       (snd (IntegrationController.deleteIntegration accepting 0 two_integrations))
     = (Return (200%Z, "Integration deactivated successfully"),
        snd (IntegrationController.deleteIntegration accepting 0 two_integrations)).
Proof.
  split; [exact two_integrations_ids|].
  split; [reflexivity|]. split; [reflexivity|].
  exact (deactivated_is_excluded accepting rejecting 0 two_integrations
           two_integrations_ids eq_refl eq_refl).
Defined.

(* ===================================================================== *)
(** ** What is stored stays what it was *)
(* ===================================================================== *)

Section Stored.

Import ESPIntegrationModel IntegrationController.

Variable env : Env.

Lemma set_first_map {B} (g : ESPIntegration -> B) (id : nat)
    (f : ESPIntegration -> ESPIntegration) (s : list ESPIntegration) :
  (forall d, g (f d) = g d) -> map g (set_first id f s) = map g s.
Proof.
  intros Hf. induction s as [|d s IH]; simpl; [reflexivity|].
  destruct (_id d =? id)%nat; simpl; [now rewrite Hf | now rewrite IH].
Qed.

Lemma matches_provider (p : string) (d : ESPIntegration) :
  matches (Some p) d = true -> isActive d = true /\ provider d = p.
Proof.
  unfold matches. intros H. apply andb_true_iff in H as [Ha Hp].
  split; [exact Ha | now apply String.eqb_eq].
Qed.

Lemma other_providers_kept (p k : string) (w : World) (d : ESPIntegration) :
  NoDup (map _id (store w)) -> In d (store w) -> provider d <> p ->
  In d (store (perform env (CreateOrVerify p k) w)).
Proof.
  intros Hnd Hin Hp. cbn [perform]. rewrite create_run.
  destruct ((p =? "mailchimp") && _); [exact Hin|].
  destruct (negb (ESPServiceFactory.validateApiKeyFormat p k)); [exact Hin|].
  destruct (ESPServiceFactory.createService _) as [service|e]; [|exact Hin].
  rewrite validateConnection_run.
  destruct (negb (isValid _)); [exact Hin|].
  cbn [store push_sent writes].
  destruct (List.find (matches (Some p)) (store w)) as [existing|] eqn:Hfind; cbv zeta.
  - destruct (db_write_ok env (writes w)); [|exact Hin].
    cbn [snd store count_write set_store]. apply set_first_others; [exact Hin|].
    intros Hid. apply find_some in Hfind as [He Hm].
    apply matches_provider in Hm as [_ Hm].
    apply Hp. rewrite <- Hm. f_equal. now apply (same_id_same_record (store w)).
  - destruct (db_write_ok env (writes w)); [|exact Hin].
    cbn [snd store count_write set_store]. apply in_or_app. now left.
Qed.

Lemma identity_kept (op : Operation) (w : World) :
  exists added,
    map identity_of (store (perform env op w)) = (map identity_of (store w) ++ added)%list
    /\ match op with
       | CreateOrVerify _ _ => True
       | _ => added = []
              /\ map credential_of (store (perform env op w)) = map credential_of (store w)
       end.
Proof.
  assert (Hsame : forall s : list ESPIntegration,
             map identity_of s = (map identity_of s ++ [])%list)
    by (intros; now rewrite app_nil_r).
  destruct op as [p k|q| |id|id]; cbn [perform].
  - rewrite create_run.
    destruct ((p =? "mailchimp") && _); [exists []; split; [apply Hsame | exact I]|].
    destruct (negb (ESPServiceFactory.validateApiKeyFormat p k));
      [exists []; split; [apply Hsame | exact I]|].
    destruct (ESPServiceFactory.createService _) as [service|e];
      [|exists []; split; [apply Hsame | exact I]].
    rewrite validateConnection_run.
    destruct (negb (isValid _)); [exists []; split; [apply Hsame | exact I]|].
    cbn [store push_sent writes].
    destruct (List.find (matches (Some p)) (store w)) as [existing|]; cbv zeta.
    + destruct (db_write_ok env (writes w)); [|exists []; split; [apply Hsame | exact I]].
      exists []. split; [|exact I]. cbn [snd store count_write set_store].
      rewrite app_nil_r. now apply set_first_map.
    + destruct (db_write_ok env (writes w)); [|exists []; split; [apply Hsame | exact I]].
      eexists. split; [|exact I]. cbn [snd store count_write set_store].
      rewrite map_app. reflexivity.
  - exists []. rewrite (proj1 (db_safe_getESPLists env q w)). auto.
  - exists []. rewrite (proj1 (db_safe_getIntegrations env w)). auto.
  - exists []. destruct id as [id|text]; [|cbn; auto].
    rewrite delete_run.
    destruct (List.find (has_id id) (store w)) as [d|]; [|auto].
    destruct (isActive d); [|auto].
    destruct (db_write_ok env (writes w)); [|auto].
    cbn [snd store count_write set_store].
    rewrite app_nil_r, !set_first_map by reflexivity. auto.
  - exists []. destruct id as [id|text]; [|cbn; auto].
    rewrite test_run.
    destruct (List.find (has_id id) (store w)) as [d|]; [|auto].
    destruct (negb (isActive d)); [auto|].
    destruct (ESPServiceFactory.createService _) as [service|e]; [|auto].
    rewrite validateConnection_run.
    destruct (isValid _); [|auto].
    destruct (same_date _ _); [auto|].
    cbn [writes push_sent].
    destruct (db_write_ok env (writes w)); [|auto].
    cbn [snd store count_write set_store].
    rewrite app_nil_r, !set_first_map by reflexivity. auto.
Qed.

End Stored.

(** X11: no operation ever changes the id, the provider or the creation
    timestamp of a stored record, or reorders the collection: after any
    operation the sequence of these triples is the old one, possibly
    extended. Every operation other than create-or-verify adds no record
    and leaves every stored key and data center as it was; and with
    distinct ids a create-or-verify for one provider leaves every record
    of another provider untouched. *)
Theorem records_keep_identity :
  forall (env : Env) (op : Operation) (w : World),
    exists added,
      map identity_of (store (perform env op w)) = (map identity_of (store w) ++ added)%list
      /\ match op with
         | CreateOrVerify submitted key =>
             NoDup (map _id (store w)) ->
             forall d, In d (store w) -> provider d <> submitted ->
                       In d (store (perform env (CreateOrVerify submitted key) w))
         | _ => added = []
                /\ map credential_of (store (perform env op w))
                   = map credential_of (store w)
         end.
Proof.
  intros env op w. destruct (identity_kept env op w) as [added [Hid Hrest]].
  exists added. split; [exact Hid|].
  destruct op as [p k|q| |id|id]; try exact Hrest.
  intros Hnd d Hin Hp. now apply other_providers_kept.
Qed.

(* ===================================================================== *)
(** ** The worlds the handlers can reach *)
(* ===================================================================== *)

Section Consistency.

Import ESPIntegrationModel IntegrationController.

Variable env : Env.

Lemma consistent_same (w w' : World) :
  store w' = store w -> next_id w <= next_id w' -> consistent w -> consistent w'.
Proof.
  unfold consistent. intros -> Hle [Hnd Hall]. split; [exact Hnd|].
  intros d Hd. destruct (Hall d Hd) as [Hlt Hok]. split; [lia | exact Hok].
Qed.

Lemma consistent_update (w w' : World) (id : nat) (f : ESPIntegration -> ESPIntegration) :
  store w' = set_first id f (store w) -> next_id w' = next_id w ->
  (forall d, _id (f d) = _id d) ->
  (forall d, In d (store w) -> _id d = id -> record_ok d -> record_ok (f d)) ->
  consistent w -> consistent w'.
Proof.
  unfold consistent. intros -> -> Hid Hok [Hnd Hall]. split.
  - now rewrite set_first_ids.
  - intros x Hx. apply set_first_in in Hx; [|exact Hnd].
    destruct Hx as [[d [Hd [Hi ->]]]|[Hx _]]; [|now apply Hall].
    destruct (Hall d Hd) as [Hlt Hr]. rewrite Hid. split; [exact Hlt | now apply Hok].
Qed.

Lemma consistent_insert (w w' : World) (d : ESPIntegration) :
  store w' = (store w ++ [d])%list -> next_id w' = S (next_id w) ->
  _id d = next_id w -> record_ok d ->
  consistent w -> consistent w'.
Proof.
  unfold consistent. intros -> -> Hid Hok [Hnd Hall]. split.
  - rewrite map_app. apply NoDup_app; [exact Hnd | repeat constructor; intros [] |].
    intros a Ha [<-|[]]. apply in_map_iff in Ha as [x [Hx Hin]].
    destruct (Hall x Hin) as [Hlt _]. lia.
  - intros x Hx. apply in_app_or in Hx as [Hx|[<-|[]]].
    + destruct (Hall x Hx) as [Hlt Hr]. split; [lia | exact Hr].
    + split; [lia | exact Hok].
Qed.

Lemma perform_consistent (op : Operation) (w : World) :
  consistent w -> consistent (perform env op w).
Proof.
  intros Hc. destruct op as [p k|q| |id|id]; cbn [perform].
  - rewrite create_run.
    destruct ((p =? "mailchimp") && _); [exact Hc|].
    destruct (ESPServiceFactory.validateApiKeyFormat p k) eqn:Hv; cbn [negb]; [|exact Hc].
    destruct (ESPServiceFactory.createService _) as [service|e]; [|exact Hc].
    rewrite validateConnection_run.
    destruct (negb (isValid _));
      [eapply consistent_same; [| |exact Hc]; [reflexivity | cbn; lia]|].
    cbn [store push_sent writes clock].
    destruct (List.find (matches (Some p)) (store w)) as [existing|] eqn:Hfind; cbv zeta.
    + destruct (db_write_ok env (writes w));
        [|eapply consistent_same; [| |exact Hc]; [reflexivity | cbn; lia]].
      eapply consistent_update; [reflexivity | reflexivity | reflexivity | | exact Hc].
      intros d Hd Hid _. apply find_some in Hfind as [He Hm].
      apply matches_provider in Hm as [_ Hm].
      assert (d = existing) as -> by (apply (same_id_same_record (store w)); auto; apply Hc).
      unfold record_ok, assign_credentials. cbn. rewrite Hm.
      repeat split; [exact Hv | discriminate].
    + destruct (db_write_ok env (writes w));
        [|eapply consistent_same; [| |exact Hc]; [reflexivity | cbn; lia]].
      eapply consistent_insert; [reflexivity | reflexivity | reflexivity | | exact Hc].
      unfold record_ok, new_record. cbn. repeat split; [exact Hv | discriminate].
  - eapply consistent_same; [| |exact Hc]; [apply db_safe_getESPLists|].
    destruct (db_safe_getESPLists env q w) as (_ & _ & _ & ->). lia.
  - eapply consistent_same; [| |exact Hc]; [apply db_safe_getIntegrations|].
    destruct (db_safe_getIntegrations env w) as (_ & _ & _ & ->). lia.
  - destruct id as [id|text]; [|exact Hc].
    rewrite delete_run.
    destruct (List.find (has_id id) (store w)) as [d|]; [|exact Hc].
    destruct (isActive d); [|exact Hc].
    destruct (db_write_ok env (writes w));
      [|eapply consistent_same; [| |exact Hc]; [reflexivity | cbn; lia]].
    eapply consistent_update; [reflexivity | reflexivity | reflexivity | | exact Hc].
    intros x _ _ Hok. exact Hok.
  - destruct id as [id|text]; [|exact Hc].
    rewrite test_run.
    destruct (List.find (has_id id) (store w)) as [d|]; [|exact Hc].
    destruct (negb (isActive d)); [exact Hc|].
    destruct (ESPServiceFactory.createService _) as [service|e]; [|exact Hc].
    rewrite validateConnection_run.
    destruct (isValid _);
      [|eapply consistent_same; [| |exact Hc]; [reflexivity | cbn; lia]].
    destruct (same_date _ _);
      [eapply consistent_same; [| |exact Hc]; [reflexivity | cbn; lia]|].
    cbn [writes push_sent clock].
    destruct (db_write_ok env (writes w));
      [|eapply consistent_same; [| |exact Hc]; [reflexivity | cbn; lia]].
    eapply consistent_update; [reflexivity | reflexivity | reflexivity | | exact Hc].
    intros x _ _ (H1 & H2 & H3). repeat split; [exact H1 | exact H2 | discriminate].
Qed.

(** Whatever requests are served from an empty collection, the world
    stays consistent. *)
Lemma served_consistent (ops : list Operation) (w : World) :
  consistent w -> consistent (serve env ops w).
Proof.
  revert w. induction ops as [|op ops IH]; intros w H; simpl; [exact H|].
  apply IH. now apply perform_consistent.
Qed.

Lemma stored_client (d : ESPIntegration) :
  record_ok d ->
  exists service,
    ESPServiceFactory.createService (credentials_of (select_apiKey (load d))) = Return service
    /\ provider_name service = provider d.
Proof.
  intros (Hv & Hdc & _).
  assert (Hcreds : credentials_of (select_apiKey (load d))
                   = submitted_credentials (provider d) (apiKey d)).
  { unfold credentials_of, submitted_credentials. cbn. now rewrite Hdc. }
  apply validateApiKeyFormat_spec in Hv.
  destruct (createService_submitted Hv) as [_ [service Hs]].
  exists service. rewrite Hcreds. split; [exact Hs|].
  now rewrite (createService_provider _ Hs).
Qed.

End Consistency.

(** X12: every operation keeps the world consistent: the ids stay
    distinct and below the next fresh id, and every stored record keeps a
    key of its provider's format, the data center derived from that key,
    and a verification timestamp. *)
Theorem consistency_preserved :
  forall (env : Env) (op : Operation) (w : World),
    consistent w -> consistent (perform env op w).
Proof.
  intros env op w. apply perform_consistent.
Qed.

Lemma two_integrations_consistent : consistent two_integrations.
Proof.
  split; [exact two_integrations_ids|].
  intros d [<-|[<-|[]]]; (split; [cbn; lia|]); repeat split; discriminate.
Defined.

Lemma consistency_preserved_witness :
  consistent two_integrations
  /\ consistent (perform accepting
                   (CreateOrVerify "getresponse" "zyxwvutsrq9876543210") two_integrations).
Proof.
  split; [exact two_integrations_consistent|].
  exact (consistency_preserved accepting
           (CreateOrVerify "getresponse" "zyxwvutsrq9876543210")
           two_integrations_consistent).
Defined.

Section Statuses.

Import ESPIntegrationModel IntegrationController.

Variable env : Env.

Lemma test_answers (id : nat) (w : World) :
  consistent w ->
  answers env (fst (asyncHandler env (testIntegration env id) w)) [200]%Z [404; 500]%Z.
Proof.
  intros [Hnd Hall]. unfold asyncHandler. rewrite test_run.
  destruct (List.find (has_id id) (store w)) as [d|] eqn:Hfind;
    [|apply answers_app_error; cbn; [tauto | lia]].
  destruct (negb (isActive d));
    [apply answers_app_error; cbn; [tauto | lia]|].
  apply find_has_id in Hfind as [Hd _].
  destruct (stored_client (proj2 (Hall d Hd))) as [service [-> _]].
  rewrite validateConnection_run.
  destruct (isValid _); [|cbn; tauto].
  destruct (same_date _ _); [cbn; tauto|].
  destruct (db_write_ok env _); [cbn; tauto | apply answers_write_failed; cbn; tauto].
Qed.

End Statuses.

(** X8: the statuses the handlers answer over a consistent collection
    whose queries are answered, whatever the upstream does and whether
    the writes go through. Create-or-verify answers 200 or 201, or fails
    with 400, 401 or 500; the aggregate fetch answers 200 or fails with
    400 or 404, never with a server error; the listing of the records
    always answers 200; deactivation and re-test of a well-formed id
    answer 200 or fail with 404 or 500, and a malformed id is answered
    400 [INVALID_ID] with the world left as it was. A 500 carries the
    fixed code and message of an internal error, with details of the
    error outside production only; no other failure carries details. *)
Theorem handler_statuses :
  forall (env : Env) (w : World),
    consistent w ->
    (forall provider apiKey,
        answers env
          (fst (asyncHandler env
                  (IntegrationController.createESPIntegration env provider apiKey) w))
          [200; 201]%Z [400; 401; 500]%Z)
    /\ (forall q,
           answers env (fst (asyncHandler env (IntegrationController.getESPLists env q) w))
             [200]%Z [400; 404]%Z)
    /\ answers env (fst (asyncHandler env (IntegrationController.getIntegrations env) w))
         [200]%Z []
    /\ (forall n : nat,
           answers env
             (fst (asyncHandler env (IntegrationController.deleteIntegration env n) w))
             [200]%Z [404; 500]%Z
           /\ answers env
                (fst (asyncHandler env (IntegrationController.testIntegration env n) w))
                [200]%Z [404; 500]%Z)
    /\ (forall text,
           asyncHandler env
             (IntegrationController.deleteIntegration env (Malformed text)) w
           = (Failure 400 INVALID_ID, w)
           /\ asyncHandler env
                (IntegrationController.testIntegration env (Malformed text)) w
              = (Failure 400 INVALID_ID, w)).
Proof.
  intros env w Hc.
  split; [intros p k; apply create_answers|].
  split; [intros q; apply lists_answers|].
  split; [cbn; tauto|].
  split.
  - intros n. split; [apply delete_answers | now apply test_answers].
  - intros text. split; now apply malformed_answers.
Qed.

Lemma handler_statuses_witness :
  consistent two_integrations
  /\ (forall provider apiKey,
         answers unwritable
           (fst (asyncHandler unwritable
                   (IntegrationController.createESPIntegration unwritable provider apiKey)
                   two_integrations))
           [200; 201]%Z [400; 401; 500]%Z)
  /\ (forall q,
         answers unwritable
           (fst (asyncHandler unwritable (IntegrationController.getESPLists unwritable q)
                   two_integrations))
           [200]%Z [400; 404]%Z)
  /\ answers unwritable
       (fst (asyncHandler unwritable (IntegrationController.getIntegrations unwritable)
               two_integrations))
       [200]%Z []
  /\ (forall n : nat,
         answers unwritable
           (fst (asyncHandler unwritable (IntegrationController.deleteIntegration unwritable n)
                   two_integrations))
           [200]%Z [404; 500]%Z
         /\ answers unwritable
              (fst (asyncHandler unwritable (IntegrationController.testIntegration unwritable n)
                      two_integrations))
              [200]%Z [404; 500]%Z)
  /\ (forall text,
         asyncHandler unwritable
           (IntegrationController.deleteIntegration unwritable (Malformed text))
           two_integrations
         = (Failure 400 INVALID_ID, two_integrations)
         /\ asyncHandler unwritable
              (IntegrationController.testIntegration unwritable (Malformed text))
              two_integrations
            = (Failure 400 INVALID_ID, two_integrations)).
Proof.
  split; [exact two_integrations_consistent|].
  exact (handler_statuses unwritable two_integrations_consistent).
Defined.

(** X13: in a consistent world the adapter of every stored record can
    be built and is the adapter of the record's provider; so a re-test
    never fails on the stored credentials: the re-test of an active
    record sends exactly the one request of the validation and returns
    an invalid outcome as it is, and for a well-formed id the handler
    answers 200 or fails with 404 or 500. *)
Theorem stored_records_have_clients :
  forall (env : Env) (w : World),
    consistent w ->
    (forall d, In d (store w) ->
       exists service,
         ESPServiceFactory.createService
           (IntegrationController.credentials_of
              (ESPIntegrationModel.select_apiKey (ESPIntegrationModel.load d)))
         = Return service
         /\ provider_name service = provider d)
    /\ (forall (n : nat) (d : ESPIntegration),
           List.find (has_id n) (store w) = Some d ->
           isActive d = true ->
           exists service vr,
             ESPServiceFactory.createService
               (IntegrationController.credentials_of
                  (ESPIntegrationModel.select_apiKey (ESPIntegrationModel.load d)))
             = Return service
             /\ validateConnection env service w = (Return vr, push_sent w (whoami service))
             /\ sent (snd (IntegrationController.testIntegration env n w))
                = (sent w ++ [whoami service])%list
             /\ (isValid vr = false ->
                 IntegrationController.testIntegration env n w
                 = (Return (200%Z, test_data vr (lastVerified d)),
                    push_sent w (whoami service))))
    /\ (forall n : nat,
           answers env
             (fst (asyncHandler env (IntegrationController.testIntegration env n) w))
             [200]%Z [404; 500]%Z).
Proof.
  intros env w Hc. pose proof Hc as [Hnd Hall]. split; [|split].
  - intros d Hd. apply stored_client. now apply Hall.
  - intros n d Hfind Hact.
    pose proof (find_has_id _ _ Hfind) as [Hd _].
    destruct (stored_client (proj2 (Hall d Hd))) as [service [Hs _]].
    exists service. eexists. split; [exact Hs|].
    split; [apply validateConnection_run|].
    rewrite test_run, Hfind, Hact, Hs, validateConnection_run. cbn [negb].
    split.
    + destruct (isValid _); [|reflexivity].
      destruct (IntegrationController.same_date _ _); [reflexivity|].
      destruct (db_write_ok env _); reflexivity.
    + intros ->. reflexivity.
  - intros n. now apply test_answers.
Qed.

Lemma stored_records_have_clients_witness :
  consistent two_integrations
  /\ (forall d, In d (store two_integrations) ->
        exists service,
          ESPServiceFactory.createService
            (IntegrationController.credentials_of
               (ESPIntegrationModel.select_apiKey (ESPIntegrationModel.load d)))
          = Return service
          /\ provider_name service = provider d)
  /\ (forall (n : nat) (d : ESPIntegration),
         List.find (has_id n) (store two_integrations) = Some d ->
         isActive d = true ->
         exists service vr,
           ESPServiceFactory.createService
             (IntegrationController.credentials_of
                (ESPIntegrationModel.select_apiKey (ESPIntegrationModel.load d)))
           = Return service
           /\ validateConnection rejecting service two_integrations
              = (Return vr, push_sent two_integrations (whoami service))
           /\ sent (snd (IntegrationController.testIntegration rejecting n two_integrations))
              = (sent two_integrations ++ [whoami service])%list
           /\ (isValid vr = false ->
               IntegrationController.testIntegration rejecting n two_integrations
               = (Return (200%Z, test_data vr (lastVerified d)),
                  push_sent two_integrations (whoami service))))
  /\ (forall n : nat,
         answers rejecting
           (fst (asyncHandler rejecting
                   (IntegrationController.testIntegration rejecting n)
                   two_integrations))
           [200]%Z [404; 500]%Z).
Proof.
  split; [exact two_integrations_consistent|].
  exact (stored_records_have_clients rejecting two_integrations_consistent).
Defined.

(* ===================================================================== *)
(** ** Looking up what was submitted *)
(* ===================================================================== *)

Section Lookup.

Import ESPIntegrationModel IntegrationController.

Lemma find_app_none {A} (P : A -> bool) (s l : list A) :
  List.find P s = None -> List.find P (s ++ l) = List.find P l.
Proof.
  induction s as [|x s IH]; simpl; [reflexivity|].
  destruct (P x); [discriminate | exact IH].
Qed.

(** Updating the first match of a query in place keeps it the first
    match, as long as it still matches. *)
Lemma find_set_first_match (P : ESPIntegration -> bool) (s : list ESPIntegration)
    (e : ESPIntegration) (f : ESPIntegration -> ESPIntegration) :
  NoDup (map _id s) -> List.find P s = Some e -> P (f e) = true ->
  List.find P (set_first (_id e) f s) = Some (f e).
Proof.
  intros Hnd Hfind Hf. induction s as [|d s IH]; [discriminate|].
  simpl in Hnd. inversion Hnd as [|? ? Hnotin Hnd']; subst.
  simpl in Hfind. simpl. destruct (P d) eqn:Hd.
  - injection Hfind as ->. rewrite Nat.eqb_refl. simpl. now rewrite Hf.
  - destruct (_id d =? _id e)%nat eqn:E.
    + exfalso. apply Nat.eqb_eq in E. apply Hnotin. rewrite E.
      apply in_map. apply find_some in Hfind. tauto.
    + simpl. rewrite Hd. now apply IH.
Qed.

End Lookup.

(** X14: in a consistent world, what a successful create-or-verify
    answers can be looked up: the record of the answered id is the active
    record a query for the provider finds, and it holds the submitted
    key, the answered data center and the answered verification
    timestamp, which is the time of the submission. *)
Theorem submitted_record_is_found :
  forall (env : Env) (provider apiKey : string) (w : World)
         (status : Z) (data : CreatedData) (w' : World),
    consistent w ->
    IntegrationController.createESPIntegration env provider apiKey w
    = (Return (status, data), w') ->
    exists d,
      List.find (has_id (cd_id data)) (store w') = Some d
      /\ List.find (ESPIntegrationModel.matches (Some provider)) (store w') = Some d
      /\ credential_of d = (apiKey, cd_dataCenter data)
      /\ isActive d = true
      /\ lastVerified d = cd_lastVerified data
      /\ lastVerified d = Some (clock w).
Proof.
  intros env p k w status data w' [Hnd Hall]. rewrite create_run.
  destruct ((p =? "mailchimp") && _); [discriminate|].
  destruct (negb (ESPServiceFactory.validateApiKeyFormat p k)); [discriminate|].
  destruct (ESPServiceFactory.createService _) as [service|e]; [|discriminate].
  rewrite validateConnection_run.
  destruct (negb (isValid _)); [discriminate|].
  cbn [store push_sent writes clock next_id].
  destruct (List.find (ESPIntegrationModel.matches (Some p)) (store w))
    as [existing|] eqn:Hfind; cbv zeta.
  - destruct (db_write_ok env (writes w)); [|discriminate].
    intros H. injection H as <- <- <-. cbn [store count_write set_store].
    destruct (matches_provider _ _ (proj2 (find_some _ _ Hfind))) as [Ha Hp].
    exists (ESPIntegrationModel.assign_credentials k (submitted_dataCenter p k)
              (clock w) existing).
    split.
    { exact (find_set_first (store w) existing
               (ESPIntegrationModel.assign_credentials k (submitted_dataCenter p k) (clock w))
               Hnd (proj1 (find_some _ _ Hfind)) (fun _ => eq_refl)). }
    split.
    + apply find_set_first_match; auto.
      unfold ESPIntegrationModel.matches. cbn. now rewrite Ha, Hp, String.eqb_refl.
    + cbn. auto.
  - destruct (db_write_ok env (writes w)); [|discriminate].
    intros H. injection H as <- <- <-. cbn [store count_write set_store take_id].
    exists (new_record p k (push_sent w (whoami service))).
    split.
    + rewrite find_app_none.
      * cbn. unfold has_id. cbn. now rewrite Nat.eqb_refl.
      * destruct (List.find (has_id _) (store w)) as [x|] eqn:E; [|reflexivity].
        apply find_has_id in E as [Hx Hid]. cbn in Hid.
        destruct (Hall x Hx) as [Hlt _]. lia.
    + split.
      * rewrite find_app_none by exact Hfind.
        cbn. unfold ESPIntegrationModel.matches. cbn. now rewrite String.eqb_refl.
      * cbn. auto.
Qed.

Lemma submitted_record_is_found_witness :
  consistent two_integrations
  /\ exists status data w',
       IntegrationController.createESPIntegration accepting "mailchimp"
         "bbbbbbbbbbbbbbbbbbbbbbbbbbbbbbbb-us7" two_integrations
       = (Return (status, data), w')
       /\ exists d,
            List.find (has_id (cd_id data)) (store w') = Some d
            /\ List.find (ESPIntegrationModel.matches (Some "mailchimp")) (store w') = Some d
            /\ credential_of d = ("bbbbbbbbbbbbbbbbbbbbbbbbbbbbbbbb-us7", cd_dataCenter data)
            /\ isActive d = true
            /\ lastVerified d = cd_lastVerified data
            /\ lastVerified d = Some (clock two_integrations).
Proof.
  split; [exact two_integrations_consistent|].
  eexists. eexists. eexists.
  refine (let H := _ in
          conj H (@submitted_record_is_found _ _ _ _ _ _ _ two_integrations_consistent H)).
  reflexivity.
Defined.

(* ===================================================================== *)
(** ** The providers of an aggregate fetch *)
(* ===================================================================== *)

Section Providers.

Import ESPIntegrationModel IntegrationController.

Lemma seen_spec (x : string) (seen : list string) :
  existsb (String.eqb x) seen = true <-> In x seen.
Proof.
  rewrite existsb_exists. split.
  - intros [y [Hy E]]. apply String.eqb_eq in E. now subst.
  - intros H. exists x. split; [exact H | apply String.eqb_refl].
Qed.

Lemma set_of_in (xs : list string) :
  forall seen x, In x (Js.set_of seen xs) <-> In x xs /\ ~ In x seen.
Proof.
  induction xs as [|y xs IH]; intros seen x; simpl; [tauto|].
  destruct (existsb (String.eqb y) seen) eqn:E.
  - apply seen_spec in E. rewrite IH. split.
    + intros [H1 H2]. auto.
    + intros [[->|H1] H2]; [contradiction | auto].
  - assert (Hy : ~ In y seen) by (intros H; apply seen_spec in H; congruence).
    simpl. rewrite IH. simpl. split.
    + intros [<-|[H1 H2]]; auto.
    + intros [[<-|H1] H2]; [now left|].
      destruct (string_dec y x) as [->|Hne]; [now left|]. right. tauto.
Qed.

Lemma set_of_nodup (xs : list string) : forall seen, NoDup (Js.set_of seen xs).
Proof.
  induction xs as [|y xs IH]; intros seen; simpl; [constructor|].
  destruct (existsb (String.eqb y) seen); [apply IH|].
  constructor; [|apply IH].
  rewrite set_of_in. simpl. tauto.
Qed.

Lemma contribution_provider (o : Document * Completion (list MailingList)) (e : ListEntry) :
  In e (contribution o) ->
  provider_of e = provider (fields (fst o)) /\ is_failed e = threw (snd o).
Proof.
  unfold contribution. destruct o as [integration [fetched|x]]; cbn [fst snd].
  - intros H. apply in_map_iff in H as [l [<- _]]. split; reflexivity.
  - intros [<-|[]]. split; reflexivity.
Qed.

Lemma lists_entries (env : Env) (q : option string) (w : World)
    (status : Z) (data : ListsData) (w' : World) :
  getESPLists env q w = (Return (status, data), w') ->
  lists data = flat_map contribution (fetch_outcomes env (matching q w) w)
  /\ providers data = Js.set_of [] (map provider_of (lists data)).
Proof.
  rewrite lists_run.
  destruct (negb (filter_accepted q)); [discriminate|].
  destruct (matching q w) as [|d ds]; [discriminate|].
  intros H. injection H as _ <- _. split; reflexivity.
Qed.

Lemma matching_provider (p : string) (w : World) (doc : Document) :
  Js.truthy_str p = true -> In doc (matching (Some p) w) ->
  provider (fields doc) = p.
Proof.
  unfold matching, filter_of. cbn [Js.truthy_opt]. intros -> H.
  apply in_map_iff in H as [x [<- H]]. apply in_map_iff in H as [d [<- H]].
  apply filter_In in H as [_ H]. cbn. now apply matches_provider in H.
Qed.

End Providers.

(** X15: in the response of the aggregate fetch, [providers] names each
    provider once, and names exactly the providers of the entries: every
    one of them is the provider of a matching integration, and the
    provider of every integration whose fetch failed is among them. *)
Theorem providers_listed_once :
  forall (env : Env) (q : option string) (w : World)
         (status : Z) (data : ListsData) (w' : World),
    IntegrationController.getESPLists env q w = (Return (status, data), w') ->
    NoDup (providers data)
    /\ (forall p, In p (providers data)
                  <-> exists e, In e (lists data) /\ provider_of e = p)
    /\ (forall p, In p (providers data) ->
                  exists integration,
                    In integration (matching q w) /\ provider (fields integration) = p)
    /\ (forall integration e,
           In (integration, Throw e) (fetch_outcomes env (matching q w) w) ->
           In (provider (fields integration)) (providers data)).
Proof.
  intros env q w status data w' H.
  destruct (lists_entries _ _ _ H) as [Hl Hp].
  assert (Hiff : forall p, In p (providers data)
                           <-> exists e, In e (lists data) /\ provider_of e = p).
  { intros p. rewrite Hp, set_of_in, in_map_iff. split.
    - intros [[e [He Hin]] _]. exists e. auto.
    - intros [e [Hin He]]. split; [exists e; auto | intros []]. }
  split; [rewrite Hp; apply set_of_nodup|].
  split; [exact Hiff|]. split.
  - intros p Hin. apply Hiff in Hin as [e [He <-]].
    rewrite Hl in He. apply in_flat_map in He as [o [Ho He]].
    exists (fst o). split.
    + rewrite <- (fetch_outcomes_integrations env (matching q w) w).
      now apply in_map.
    + symmetry. now apply contribution_provider.
  - intros integration e Hin. apply Hiff.
    exists (IntegrationController.failed_entry integration). split; [|reflexivity].
    rewrite Hl. apply in_flat_map. exists (integration, Throw e).
    split; [exact Hin | now left].
Qed.

Lemma providers_listed_once_witness :
  IntegrationController.getESPLists mailchimp_down None two_integrations
  = (Return (200%Z, partial_listing), partial_world)
  /\ NoDup (providers partial_listing)
  /\ (forall p, In p (providers partial_listing)
                <-> exists e, In e (lists partial_listing) /\ provider_of e = p)
  /\ (forall p, In p (providers partial_listing) ->
                exists integration,
                  In integration (matching None two_integrations)
                  /\ provider (fields integration) = p)
  /\ (forall integration e,
         In (integration, Throw e)
           (fetch_outcomes mailchimp_down (matching None two_integrations) two_integrations) ->
         In (provider (fields integration)) (providers partial_listing)).
Proof.
  assert (H : IntegrationController.getESPLists mailchimp_down None two_integrations
              = (Return (200%Z, partial_listing), partial_world)) by reflexivity.
  split; [exact H|].
  exact (providers_listed_once mailchimp_down None two_integrations H).
Defined.

(** X16: with at most one active record per provider, an aggregate
    fetch filtered by a provider attempts at most one integration: it
    sends at most two requests, and every entry of its response, list or
    error marker, is tagged with that provider. *)
Theorem filtered_fetch_single :
  forall (env : Env) (p : string) (w : World),
    one_active_per_provider (store w) ->
    Js.truthy_str p = true ->
    List.length (matching (Some p) w) <= 1
    /\ (exists extra,
           sent (snd (IntegrationController.getESPLists env (Some p) w))
           = (sent w ++ extra)%list
           /\ List.length extra <= 2)
    /\ (forall status data w',
           IntegrationController.getESPLists env (Some p) w = (Return (status, data), w') ->
           forall e, In e (lists data) -> provider_of e = p).
Proof.
  intros env p w Hinv Hp.
  assert (Hlen : List.length (matching (Some p) w) <= 1).
  { unfold matching, filter_of. cbn [Js.truthy_opt]. rewrite Hp, !length_map. apply Hinv. }
  split; [exact Hlen|]. split.
  - destruct (lists_sends env (Some p) w) as [extra [E L]].
    exists extra. split; [exact E | lia].
  - intros status data w' H e He.
    destruct (lists_entries _ _ _ H) as [Hl _].
    rewrite Hl in He. apply in_flat_map in He as [o [Ho He]].
    destruct (contribution_provider _ _ He) as [-> _].
    apply (matching_provider p w); [exact Hp|].
    rewrite <- (fetch_outcomes_integrations env (matching (Some p) w) w).
    now apply in_map.
Qed.

Lemma filtered_fetch_single_witness :
  one_active_per_provider (store two_integrations)
  /\ Js.truthy_str "getresponse" = true
  /\ List.length (matching (Some "getresponse") two_integrations) <= 1
  /\ (exists extra,
         sent (snd (IntegrationController.getESPLists mailchimp_down (Some "getresponse")
                      two_integrations))
         = (sent two_integrations ++ extra)%list
         /\ List.length extra <= 2)
  /\ (forall status data w',
         IntegrationController.getESPLists mailchimp_down (Some "getresponse")
           two_integrations = (Return (status, data), w') ->
         forall e, In e (lists data) -> provider_of e = "getresponse").
Proof.
  split; [exact two_integrations_invariant|]. split; [reflexivity|].
  exact (filtered_fetch_single mailchimp_down "getresponse" two_integrations
           two_integrations_invariant eq_refl).
Defined.

(* ===================================================================== *)
(** ** Two providers, two formats *)
(* ===================================================================== *)

Section TwoProviders.

Import ESPIntegrationModel IntegrationController.

Lemma accepted_provider (p k : string) :
  ESPServiceFactory.validateApiKeyFormat p k = true ->
  p = "mailchimp" \/ p = "getresponse".
Proof.
  unfold ESPServiceFactory.validateApiKeyFormat.
  destruct (p =? "mailchimp") eqn:E1; [left; now apply String.eqb_eq|].
  destruct (p =? "getresponse") eqn:E2; [right; now apply String.eqb_eq | discriminate].
Qed.

Lemma mailchimp_key_not_alnum (k : string) :
  Re.mailchimp_key k = true -> Re.getresponse_key k = false.
Proof.
  intros H. apply mailchimp_key_spec in H.
  destruct H as [[_ [secret [region [-> _]]]]|[Hp _]]; [|discriminate].
  destruct (Re.getresponse_key (secret ++ "-us" ++ region)) eqn:G; [|reflexivity].
  apply getresponse_key_spec in G. destruct G as [[Hp _]|[_ [_ Ha]]]; [discriminate|].
  rewrite all_app in Ha. apply andb_true_iff in Ha as [_ Ha]. discriminate Ha.
Qed.

Lemma active_split (s : list ESPIntegration) :
  (forall d, In d s -> provider d = "mailchimp" \/ provider d = "getresponse") ->
  List.length (filter (matches None) s)
  = List.length (filter (matches (Some "mailchimp")) s)
    + List.length (filter (matches (Some "getresponse")) s).
Proof.
  induction s as [|d s IH]; intros H; [reflexivity|].
  assert (IH' := IH (fun x Hx => H x (or_intror Hx))).
  cbn [filter].
  assert (E0 : matches None d = isActive d) by apply andb_true_r.
  assert (E1 : forall p, matches (Some p) d = isActive d && (provider d =? p))
    by reflexivity.
  rewrite E0, !E1.
  destruct (isActive d); cbn [andb]; [|exact IH'].
  destruct (H d (or_introl eq_refl)) as [E|E]; rewrite E.
  - rewrite String.eqb_refl.
    change ("mailchimp" =? "getresponse") with false.
    cbn [List.length]. rewrite IH'. reflexivity.
  - rewrite String.eqb_refl.
    change ("getresponse" =? "mailchimp") with false.
    cbn [List.length]. rewrite IH'. lia.
Qed.

End TwoProviders.

(** X17: the two key formats exclude each other and there is no third:
    a key is accepted for a provider exactly when it has that provider's
    shape, only [mailchimp] and [getresponse] accept any key, no key is
    accepted for both, and a key accepted for [getresponse] has no data
    center to extract. *)
Theorem key_formats_disjoint :
  forall (provider apiKey : string),
    (ESPServiceFactory.validateApiKeyFormat provider apiKey = true
     <-> key_shape_ok provider apiKey)
    /\ (ESPServiceFactory.validateApiKeyFormat provider apiKey = true ->
        (provider = "mailchimp" \/ provider = "getresponse")
        /\ (forall other,
               ESPServiceFactory.validateApiKeyFormat other apiKey = true ->
               other = provider)
        /\ (provider = "getresponse" ->
            ESPServiceFactory.extractDataCenterFromMailchimpKey apiKey = None)).
Proof.
  intros p k. split; [apply validateApiKeyFormat_spec|].
  intros Hv. split; [now apply (accepted_provider p k)|]. split.
  - intros other Ho.
    destruct (accepted_provider _ _ Hv) as [->| ->],
             (accepted_provider _ _ Ho) as [->| ->]; try reflexivity; exfalso.
    + apply mailchimp_key_not_alnum in Hv. cbn in Ho. congruence.
    + apply mailchimp_key_not_alnum in Ho. cbn in Hv. congruence.
  - intros ->. apply validateApiKeyFormat_spec in Hv.
    destruct Hv as [[Hp _]|[_ [_ Ha]]]; [discriminate|].
    unfold ESPServiceFactory.extractDataCenterFromMailchimpKey.
    rewrite split_no_sep; [reflexivity|].
    eapply all_impl; [|exact Ha].
    intros c Hc. unfold not_sep.
    destruct (Ascii.eqb c "-") eqn:E; [|reflexivity].
    apply Ascii.eqb_eq in E. subst c. discriminate Hc.
Qed.

(** X18: a consistent world with at most one active record per provider
    holds at most two active records: the listing of the records answers
    200 with at most two of them, and an unfiltered aggregate fetch sends
    at most four requests. *)
Theorem at_most_two_active :
  forall (env : Env) (w : World),
    consistent w ->
    one_active_per_provider (store w) ->
    List.length (matching None w) <= 2
    /\ (exists data,
           IntegrationController.getIntegrations env w = (Return (200%Z, data), w)
           /\ id_totalCount data = List.length (integrations data)
           /\ id_totalCount data <= 2)
    /\ (exists extra,
           sent (snd (IntegrationController.getESPLists env None w)) = (sent w ++ extra)%list
           /\ List.length extra <= 4).
Proof.
  intros env w [_ Hall] Hinv.
  assert (Hcount : List.length (filter (ESPIntegrationModel.matches None) (store w)) <= 2).
  { rewrite active_split.
    - pose proof (Hinv "mailchimp") as H1. pose proof (Hinv "getresponse") as H2.
      change (active_for "mailchimp")
        with (ESPIntegrationModel.matches (Some "mailchimp")) in H1.
      change (active_for "getresponse")
        with (ESPIntegrationModel.matches (Some "getresponse")) in H2.
      lia.
    - intros d Hd. destruct (Hall d Hd) as [_ [Hv _]].
      now apply (accepted_provider _ _ Hv). }
  assert (Hm : List.length (matching None w) <= 2).
  { unfold matching, filter_of. cbn [Js.truthy_opt]. now rewrite !length_map. }
  split; [exact Hm|]. split.
  - eexists. split; [reflexivity|]. cbn. split; [reflexivity|].
    now rewrite length_map.
  - destruct (lists_sends env None w) as [extra [E L]].
    exists extra. split; [exact E | lia].
Qed.

Lemma at_most_two_active_witness :
  consistent two_integrations
  /\ one_active_per_provider (store two_integrations)
  /\ List.length (matching None two_integrations) <= 2
  /\ (exists data,
         IntegrationController.getIntegrations accepting two_integrations
         = (Return (200%Z, data), two_integrations)
         /\ id_totalCount data = List.length (integrations data)
         /\ id_totalCount data <= 2)
  /\ (exists extra,
         sent (snd (IntegrationController.getESPLists accepting None two_integrations))
         = (sent two_integrations ++ extra)%list
         /\ List.length extra <= 4).
Proof.
  split; [exact two_integrations_consistent|].
  split; [exact two_integrations_invariant|].
  exact (at_most_two_active accepting two_integrations_consistent
           two_integrations_invariant).
Defined.

(** X19: [findActiveIntegrations] never changes the world and returns,
    without their keys, exactly the active records, restricted to the
    given provider when one is given: a deactivated record is never
    returned. They are, in the same order, the documents the aggregate
    fetch goes through with their keys selected, and with no provider
    they are what the listing of the records answers. *)
Theorem findActiveIntegrations_exact :
  forall (env : Env) (q : option string) (w : World),
    exists found,
      findActiveIntegrations q w = (Return found, w)
      /\ (forall loaded,
             In loaded found
             <-> apiKey_selected loaded = false
                 /\ In (fields loaded) (store w)
                 /\ isActive (fields loaded) = true
                 /\ (Js.truthy_opt q = true -> Some (provider (fields loaded)) = q))
      /\ map ESPIntegrationModel.select_apiKey found = matching q w
      /\ (Js.truthy_opt q = false ->
          fst (IntegrationController.getIntegrations env w)
          = Return (200%Z, {| integrations := found;
                              id_totalCount := List.length found |})).
Proof.
  intros env q w. eexists. split; [reflexivity|]. split; [|split; [reflexivity|]].
  - intros [d sel]. rewrite in_map_iff. cbn [apiKey_selected fields]. split.
    + intros [x [Hx Hin]]. injection Hx as -> <-.
      apply filter_In in Hin as [Hin Hm]. split; [reflexivity|]. split; [exact Hin|].
      unfold ESPIntegrationModel.matches in Hm. apply andb_true_iff in Hm as [Ha Hp].
      split; [exact Ha|]. intros Hq. rewrite Hq in Hp.
      destruct q as [p|]; [|discriminate]. apply String.eqb_eq in Hp. now subst.
    + intros (-> & Hin & Ha & Hp). exists d. split; [reflexivity|].
      apply filter_In. split; [exact Hin|].
      unfold ESPIntegrationModel.matches. rewrite Ha. cbn [andb].
      destruct (Js.truthy_opt q); [|reflexivity].
      rewrite <- (Hp eq_refl). apply String.eqb_refl.
  - intros Hq. cbn. now rewrite Hq.
Qed.
